(** * Dealership verification pipeline: resilience layer, staff scorer,
      hybrid coordinator and batch orchestrator

    A shallow embedding of the Python sources under
    [Projects/dealership-verification]:

    - [error_handler.py]: [ErrorTracker] (circuit breaker) and the
      [retry_with_backoff] decorator;
    - [staff_extractor.py] and [contact_extractor.py]: phone formatting,
      staff de-duplication and the final confidence filter;
    - [hybrid_extractor.py]: [HybridContactExtractor.extract_contacts];
    - [verify_all_dealerships.py]: [verify_url], [scrape_contacts],
      [identify_manufacturer] and [process_batch].

    Conventions.  Python [int] is [Z]; Python [float] (time stamps, back-off
    delays, confidence scores) is the rational field [Q], compared with
    [Qlt]/[Qle] (every score the sources add is a multiple of 0.5, which
    floats hold exactly); [str] is [string]; [dict]s used as maps are
    [gmap]s; [None] is the [None] of an option.  Logging calls are
    side-effect free for the properties below and are left out. *)

From Stdlib Require Import ZArith QArith Qminmax String Ascii List Bool Sorted Lia Lqa.
From stdpp Require Import base option list gmap strings fin_maps.

Open Scope Z_scope.

(** ** Python strings *)

Module PyStr.

Definition is_digit (c : ascii) : bool :=
  let n := nat_of_ascii c in (48 <=? n)%nat && (n <=? 57)%nat.

Definition is_upper (c : ascii) : bool :=
  let n := nat_of_ascii c in (65 <=? n)%nat && (n <=? 90)%nat.

Definition is_alpha (c : ascii) : bool :=
  let n := nat_of_ascii c in
  ((65 <=? n)%nat && (n <=? 90)%nat) || ((97 <=? n)%nat && (n <=? 122)%nat).

(** [c.lower()] on the ASCII range. *)
Definition lower_char (c : ascii) : ascii :=
  if is_upper c then ascii_of_nat (nat_of_ascii c + 32) else c.

Fixpoint map_chars (f : ascii -> ascii) (s : string) : string :=
  match s with
  | EmptyString => EmptyString
  | String c r => String (f c) (map_chars f r)
  end.

(** [s.lower()] *)
Definition lower (s : string) : string := map_chars lower_char s.

Fixpoint filter_chars (p : ascii -> bool) (s : string) : string :=
  match s with
  | EmptyString => EmptyString
  | String c r => if p c then String c (filter_chars p r) else filter_chars p r
  end.

Fixpoint all_chars (p : ascii -> bool) (s : string) : bool :=
  match s with
  | EmptyString => true
  | String c r => p c && all_chars p r
  end.

(** [len(s)] *)
Definition len (s : string) : Z := Z.of_nat (String.length s).

(** [s.startswith(p)] *)
Definition startswith (p s : string) : bool := String.prefix p s.

(** [sub in s] *)
Fixpoint contains (sub s : string) : bool :=
  if String.prefix sub s then true
  else match s with
       | EmptyString => false
       | String _ r => contains sub r
       end.

(** [s[n:]] for [0 <= n] *)
Fixpoint drop (n : nat) (s : string) : string :=
  match n, s with
  | O, _ => s
  | S n', String _ r => drop n' r
  | S _, EmptyString => EmptyString
  end.

(** [s[-n:]] for [0 < n]: the last [n] characters, or all of [s] when it
    is shorter. *)
Definition last_n (n : nat) (s : string) : string :=
  drop (String.length s - n) s.

(** [''.join(parts)] *)
Definition join (parts : list string) : string :=
  fold_right String.append EmptyString parts.

(** Truth value of a [str]: non-empty. *)
Definition truthy (s : string) : bool :=
  match s with EmptyString => false | _ => true end.

(** Truth value of an optional [str]: neither [None] nor empty. *)
Definition otruthy (o : option string) : bool :=
  match o with Some s => truthy s | None => false end.

Definition is_space (c : ascii) : bool :=
  let n := nat_of_ascii c in
  (n =? 32)%nat || ((9 <=? n)%nat && (n <=? 13)%nat) ||
  ((28 <=? n)%nat && (n <=? 31)%nat).

Fixpoint lstrip (s : string) : string :=
  match s with
  | String c r => if is_space c then lstrip r else s
  | EmptyString => EmptyString
  end.

Fixpoint rev_acc (s acc : string) : string :=
  match s with
  | EmptyString => acc
  | String c r => rev_acc r (String c acc)
  end.

Definition rev (s : string) : string := rev_acc s EmptyString.

(** [s.strip()] *)
Definition strip (s : string) : string := rev (lstrip (rev (lstrip s))).

End PyStr.

(** ** Floats as rationals *)

Definition Qgtb (x y : Q) : bool := negb (Qle_bool x y).
Definition Qgeb (x y : Q) : bool := Qle_bool y x.

(** ** [error_handler.py]: the circuit breaker [ErrorTracker]

    The singleton's state.  [resource_locks] only serialises concurrent
    callers and has no sequential effect; every method below is one
    critical section.  [time.time()] is the argument [now]. *)

Record ErrorTracker := mkTracker {
  error_counts : gmap string (gmap string Z);
  circuit_open : gmap string bool;
  last_error_time : gmap string Q;
  error_threshold : Z;
  reset_interval : Q
}.

(** [ErrorTracker.__init__] *)
Definition new_tracker : ErrorTracker :=
  {| error_counts := ∅; circuit_open := ∅; last_error_time := ∅;
     error_threshold := 5; reset_interval := 300 |}.

Definition set_error_counts (v : gmap string (gmap string Z)) (t : ErrorTracker) :=
  mkTracker v (circuit_open t) (last_error_time t) (error_threshold t) (reset_interval t).
Definition set_circuit_open (v : gmap string bool) (t : ErrorTracker) :=
  mkTracker (error_counts t) v (last_error_time t) (error_threshold t) (reset_interval t).
Definition set_last_error_time (v : gmap string Q) (t : ErrorTracker) :=
  mkTracker (error_counts t) (circuit_open t) v (error_threshold t) (reset_interval t).

(** [sum(d.values())] *)
Definition sum_values (d : gmap string Z) : Z :=
  map_fold (fun _ v acc => v + acc) 0 d.

(** [sum(self.error_counts[resource_key].values())], zero for a key that
    has no entry. *)
Definition total_errors (t : ErrorTracker) (resource_key : string) : Z :=
  sum_values (default ∅ (error_counts t !! resource_key)).

(** [ErrorTracker.record_error] *)
Definition record_error (resource_key error_type : string) (now : Q)
    (t : ErrorTracker) : ErrorTracker :=
  let per_key := default ∅ (error_counts t !! resource_key) in
  let per_key := <[error_type := default 0 (per_key !! error_type) + 1]> per_key in
  let t := set_error_counts (<[resource_key := per_key]> (error_counts t)) t in
  let t := set_last_error_time (<[resource_key := now]> (last_error_time t)) t in
  if sum_values per_key >=? error_threshold t
  then set_circuit_open (<[resource_key := true]> (circuit_open t)) t
  else t.

(** [ErrorTracker.reset_circuit] *)
Definition reset_circuit (resource_key : string) (t : ErrorTracker) : ErrorTracker :=
  let t := match error_counts t !! resource_key with
           | Some _ => set_error_counts (<[resource_key := ∅]> (error_counts t)) t
           | None => t
           end in
  match circuit_open t !! resource_key with
  | Some _ => set_circuit_open (<[resource_key := false]> (circuit_open t)) t
  | None => t
  end.

(** [ErrorTracker.check_circuit]: the answer and the tracker afterwards
    (the auto-reset mutates it). *)
Definition check_circuit (resource_key : string) (now : Q) (t : ErrorTracker)
    : bool * ErrorTracker :=
  match circuit_open t !! resource_key with
  | Some true =>
      match last_error_time t !! resource_key with
      | Some last =>
          if Qgtb (now - last) (reset_interval t)
          then (false, reset_circuit resource_key t)
          else (true, t)
      | None => (true, t)
      end
  | _ => (false, t)
  end.

(** A run of [record_error] calls against one resource: each event is the
    error type and the clock reading of the call. *)
Definition record_errors (resource_key : string) (events : list (string * Q))
    (t : ErrorTracker) : ErrorTracker :=
  fold_left (fun t ev => record_error resource_key (fst ev) (snd ev) t) events t.

(** ** Exceptions

    The exception classes the pipeline raises or catches.  [requests]:
    [RequestException] with its subclasses [HTTPError], [ConnectionError],
    [Timeout], [ConnectTimeout] (a [ConnectionError] and a [Timeout]) and
    [ReadTimeout]; Selenium: [WebDriverException] and its subclass
    [TimeoutException]; built-ins: [ConnectionError],
    [ConnectionRefusedError] and [socket.timeout]; this module's own
    [CircuitOpenException]; [OtherException name] is any other class
    deriving directly from [Exception]. *)

Inductive exn_class :=
| RequestException
| RequestsHTTPError
| RequestsConnectionError
| RequestsTimeout
| ConnectTimeout
| ReadTimeout
| WebDriverException
| TimeoutException
| BuiltinConnectionError
| ConnectionRefusedError
| SocketTimeout
| CircuitOpenException
| OtherException (name : string).

(** [cls.__name__] *)
Definition class_name (c : exn_class) : string :=
  match c with
  | RequestException => "RequestException"
  | RequestsHTTPError => "HTTPError"
  | RequestsConnectionError => "ConnectionError"
  | RequestsTimeout => "Timeout"
  | ConnectTimeout => "ConnectTimeout"
  | ReadTimeout => "ReadTimeout"
  | WebDriverException => "WebDriverException"
  | TimeoutException => "TimeoutException"
  | BuiltinConnectionError => "ConnectionError"
  | ConnectionRefusedError => "ConnectionRefusedError"
  | SocketTimeout => "timeout"
  | CircuitOpenException => "CircuitOpenException"
  | OtherException name => name
  end.

(** [issubclass(c, d)] *)
Definition issubclass (c d : exn_class) : bool :=
  match d, c with
  | RequestException,
    (RequestException | RequestsHTTPError | RequestsConnectionError
     | RequestsTimeout | ConnectTimeout | ReadTimeout) => true
  | RequestsHTTPError, RequestsHTTPError => true
  | RequestsConnectionError, (RequestsConnectionError | ConnectTimeout) => true
  | RequestsTimeout, (RequestsTimeout | ConnectTimeout | ReadTimeout) => true
  | ConnectTimeout, ConnectTimeout => true
  | ReadTimeout, ReadTimeout => true
  | WebDriverException, (WebDriverException | TimeoutException) => true
  | TimeoutException, TimeoutException => true
  | BuiltinConnectionError, (BuiltinConnectionError | ConnectionRefusedError) => true
  | ConnectionRefusedError, ConnectionRefusedError => true
  | SocketTimeout, SocketTimeout => true
  | CircuitOpenException, CircuitOpenException => true
  | OtherException n, OtherException m => String.eqb n m
  | _, _ => false
  end.

(** An exception instance: its class, [str(e)], and for an [HTTPError] the
    status code of the response it carries. *)
Record exn := mkExn {
  exc_class : exn_class;
  exc_msg : string;
  exc_status : Z
}.

(** [type(e).__name__] *)
Definition type_name (e : exn) : string := class_name (exc_class e).

(** [isinstance(e, classes)] for a tuple of classes *)
Definition isinstance (e : exn) (classes : list exn_class) : bool :=
  existsb (issubclass (exc_class e)) classes.

(** The result of a call: a value, or a raised exception. *)
Inductive outcome (A : Type) : Type :=
| Returned (a : A)
| Raised (e : exn).
Arguments Returned {A} a.
Arguments Raised {A} e.

(** ** The process state

    [tracker] is the [ErrorTracker] singleton, [clock] the reading of
    [time.time()], [draws] the number of bytes taken from [os.urandom] so
    far.  [calls] is instrumentation: the number of times a retry wrapper
    has invoked the function it wraps. *)

Record World := mkWorld {
  tracker : ErrorTracker;
  clock : Q;
  draws : nat;
  calls : nat
}.

Definition set_tracker (t : ErrorTracker) (w : World) : World :=
  mkWorld t (clock w) (draws w) (calls w).

(** [time.sleep(d)] *)
Definition sleep (d : Q) (w : World) : World :=
  mkWorld (tracker w) (clock w + d) (draws w) (calls w).

Definition count_draw (w : World) : World :=
  mkWorld (tracker w) (clock w) (S (draws w)) (calls w).

Definition count_call (w : World) : World :=
  mkWorld (tracker w) (clock w) (draws w) (S (calls w)).

(** [error_tracker.record_error(key, error_type, ...)] at the current time *)
Definition world_record_error (key error_type : string) (w : World) : World :=
  set_tracker (record_error key error_type (clock w) (tracker w)) w.

(** [error_tracker.check_circuit(key)] at the current time *)
Definition world_check_circuit (key : string) (w : World) : bool * World :=
  let '(is_open, t) := check_circuit key (clock w) (tracker w) in
  (is_open, set_tracker t w).

(** ** [error_handler.py]: [retry_with_backoff] *)

(** The default [retry_exceptions] tuple. *)
Definition default_retry_exceptions : list exn_class :=
  [RequestException; TimeoutException; WebDriverException;
   BuiltinConnectionError; SocketTimeout].

(** [CircuitOpenException(f"Circuit open for {resource_key}")] *)
Definition circuit_open_exn (resource_key : string) : exn :=
  mkExn CircuitOpenException ("Circuit open for " ++ resource_key) 0.

Section RetryWithBackoff.

Context {A : Type}.

(** The decorator's parameters. *)
Variable max_retries : Z.
Variables initial_backoff backoff_factor max_backoff : Q.
Variable retry_exceptions : list exn_class.

(** [os.urandom(1)[0]] for each draw: a byte. *)
Variable urandom : nat -> Z.

(** The decorated function: [func.__name__], and its effect when called
    with positional and keyword arguments. *)
Variable func_name : string.
Variable func : list string -> gmap string string -> World -> outcome A * World.

(** [kwargs.pop('_resource_key', func.__name__)]: the key, and the keyword
    arguments that are left for [func]. *)
Definition pop_resource_key (kwargs : gmap string string)
    : string * gmap string string :=
  (default func_name (kwargs !! "_resource_key"), delete "_resource_key" kwargs).

(** [0.5 + (os.urandom(1)[0] / 255) * 0.5] *)
Definition jitter (w : World) : Q :=
  (1 # 2) + (inject_Z (urandom (draws w)) / 255) * (1 # 2).

(** The [while True] loop.  Each iteration that does not leave the loop
    increments [retries], so [fuel] bounds the iterations; [None] is "out
    of fuel". *)
Fixpoint retry_loop (fuel : nat) (resource_key : string)
    (args : list string) (kwargs : gmap string string)
    (retries : Z) (backoff : Q) (w : World) : option (outcome A * World) :=
  match fuel with
  | O => None
  | S fuel =>
      match func args kwargs (count_call w) with
      | (Returned v, w) => Some (Returned v, w)
      | (Raised e, w) =>
          if isinstance e retry_exceptions then
            let retries := retries + 1 in
            if retries >? max_retries then
              Some (Raised e, world_record_error resource_key (type_name e) w)
            else
              let wait_time := Qmin (backoff * jitter w) max_backoff in
              let w := sleep wait_time (count_draw w) in
              let backoff := Qmin (backoff * backoff_factor) max_backoff in
              retry_loop fuel resource_key args kwargs retries backoff w
          else
            Some (Raised e, world_record_error resource_key (type_name e) w)
      end
  end.

(** The [wrapper] the decorator returns. *)
Definition retry_with_backoff (args : list string) (kwargs : gmap string string)
    (w : World) : option (outcome A * World) :=
  let '(resource_key, kwargs) := pop_resource_key kwargs in
  let '(is_open, w) := world_check_circuit resource_key w in
  if is_open then Some (Raised (circuit_open_exn resource_key), w)
  else retry_loop (S (Z.to_nat max_retries)) resource_key args kwargs
         0 initial_backoff w.

End RetryWithBackoff.

(** A function that raises the errors of [errors] one after another --
    the [i]-th of them (from zero) on its invocation number [i + 1],
    counted from [c0] earlier invocations -- each of them a retry
    exception, and succeeds with [v] on the invocation after the last.
    What else it does to the process is its own business; it only leaves
    the wrapper's invocation count alone. *)
Definition fails_with_then_succeeds {A : Type}
    (func : list string -> gmap string string -> World -> outcome A * World)
    (retry_exceptions : list exn_class)
    (args : list string) (kwargs : gmap string string)
    (c0 : nat) (errors : list exn) (v : A) : Prop :=
  (forall i e w, errors !! i = Some e -> calls w = (c0 + i + 1)%nat ->
     exists w', func args kwargs w = (Raised e, w') /\
       isinstance e retry_exceptions = true /\ calls w' = calls w) /\
  (forall w, calls w = (c0 + length errors + 1)%nat ->
     exists w', func args kwargs w = (Returned v, w') /\ calls w' = calls w).

(** A property of the tracker that no invocation of the function
    destroys. *)
Definition kept_by {A : Type}
    (func : list string -> gmap string string -> World -> outcome A * World)
    (args : list string) (kwargs : gmap string string)
    (P : ErrorTracker -> Prop) : Prop :=
  forall w, P (tracker w) -> P (tracker (snd (func args kwargs w))).

(** [self.error_counts[resource_key][error_type]], zero where there is no
    entry. *)
Definition error_count (t : ErrorTracker) (resource_key error_type : string) : Z :=
  default 0 (default ∅ (error_counts t !! resource_key) !! error_type).

(** A function every invocation of which raises, leaving the tracker
    alone. *)
Definition always_fails {A : Type}
    (func : list string -> gmap string string -> World -> outcome A * World)
    (args : list string) (kwargs : gmap string string) : Prop :=
  forall w, exists e w', func args kwargs w = (Raised e, w') /\
    tracker w' = tracker w /\ calls w' = calls w.

(** The [test_function] of the module's self-test: it raises
    [requests.ConnectionError] while its call count is at most
    [succeed_after], then returns ["Success!"]. *)
Definition test_function (succeed_after : nat)
    (args : list string) (kwargs : gmap string string) (w : World)
    : outcome string * World :=
  if (calls w <=? succeed_after)%nat
  then (Raised (mkExn RequestsConnectionError "Simulated connection error" 0), w)
  else (Returned "Success!"%string, w).

(** A process that has just started: a fresh tracker, time zero. *)
Definition initial_world : World := mkWorld new_tracker 0 0 0.

(** A function that raises [e] whatever it is called with. *)
Definition always_raises (e : exn)
    (args : list string) (kwargs : gmap string string) (w : World)
    : outcome string * World :=
  (Raised e, w).

(** ** [staff_extractor.py] and [contact_extractor.py]: phone numbers

    [_format_phone_number] receives either a string (the text of a
    [tel:] link) or a tuple of strings (the groups [re.findall] returns for
    the phone pattern: area code, prefix, line; a group that did not take
    part in the match is the empty string). *)

Inductive phone_input :=
| PStr (s : string)
| PTuple (parts : list string).

(** [re.sub(r'[^0-9]', '', s)] *)
Definition digits_of (s : string) : string :=
  PyStr.filter_chars PyStr.is_digit s.

(** The tuple branches the two extractors share: [area_code, prefix, line]
    with a missing area code, a complete number, or neither ([None] here:
    the caller falls through to the raw digits). *)
Definition format_three (area_code prefix line : string) : option string :=
  if negb (PyStr.truthy area_code) && PyStr.truthy prefix && PyStr.truthy line
     && (PyStr.len prefix =? 3) && (PyStr.len line =? 4)
  then Some (prefix ++ line)%string
  else if PyStr.truthy area_code && PyStr.truthy prefix && PyStr.truthy line
  then Some (area_code ++ prefix ++ line)%string
  else None.

(** [raw = ''.join(parts); return raw[-10:] if len(raw) >= 10 else None] *)
Definition format_raw (parts : list string) : option string :=
  let raw := PyStr.join parts in
  if PyStr.len raw >=? 10 then Some (PyStr.last_n 10 raw) else None.

Module StaffExtractor.

(** [StaffExtractor._format_phone_number] *)
Definition _format_phone_number (p : phone_input) : option string :=
  match p with
  | PStr s =>
      let digits := digits_of s in
      if PyStr.len digits >=? 10 then
        if PyStr.len digits =? 10 then Some digits
        else if (PyStr.len digits =? 11) && PyStr.startswith "1" digits
        then Some (PyStr.drop 1 digits)
        else Some (PyStr.last_n 10 digits)
      else None
  | PTuple [area_code; prefix; line] =>
      match format_three area_code prefix line with
      | Some r => Some r
      | None => format_raw [area_code; prefix; line]
      end
  | PTuple parts => format_raw parts
  end.

End StaffExtractor.

Module ContactExtractor.

(** Iterating over the argument: the items of a tuple, the characters of a
    string. *)
Definition items (p : phone_input) : list string :=
  match p with
  | PTuple parts => parts
  | PStr s => (fun c => String c EmptyString) <$> list_ascii_of_string s
  end.

(** [ContactExtractor._format_phone_number] *)
Definition _format_phone_number (p : phone_input) : option string :=
  match items p with
  | [area_code; prefix; line] =>
      match format_three area_code prefix line with
      | Some r => Some r
      | None => format_raw [area_code; prefix; line]
      end
  | parts => format_raw parts
  end.

End ContactExtractor.

(** What the phone pattern's three groups can hold: an area code of three
    digits or nothing, a prefix of three digits, a line of four. *)
Definition regex_groups (area_code prefix line : string) : Prop :=
  (area_code = EmptyString \/
   (String.length area_code = 3%nat /\
    PyStr.all_chars PyStr.is_digit area_code = true)) /\
  String.length prefix = 3%nat /\ PyStr.all_chars PyStr.is_digit prefix = true /\
  String.length line = 4%nat /\ PyStr.all_chars PyStr.is_digit line = true.

(** ** [staff_extractor.py]: staff candidates

    A candidate is the dict [_extract_staff_info] builds; [role_category]
    and [priority] are the keys [_validate_staff_member] adds ([None] while
    absent).  Every candidate in a list is a dict of its own, so updating
    one in place is updating its position in the list. *)

Record StaffMember := mkStaff {
  name : option string;
  title : option string;
  email : option string;
  phone : option string;
  photo_url : option string;
  confidence : Q;
  role_category : option string;
  priority : option Z
}.

Definition set_confidence (c : Q) (s : StaffMember) : StaffMember :=
  mkStaff (name s) (title s) (email s) (phone s) (photo_url s) c
    (role_category s) (priority s).

(** The four fields the merge fills, with their setters. *)
Inductive staff_field := F_email | F_phone | F_title | F_photo_url.

Definition get_field (f : staff_field) (s : StaffMember) : option string :=
  match f with
  | F_email => email s
  | F_phone => phone s
  | F_title => title s
  | F_photo_url => photo_url s
  end.

Definition set_field (f : staff_field) (v : option string) (s : StaffMember)
    : StaffMember :=
  match f with
  | F_email => mkStaff (name s) (title s) v (phone s) (photo_url s)
                 (confidence s) (role_category s) (priority s)
  | F_phone => mkStaff (name s) (title s) (email s) v (photo_url s)
                 (confidence s) (role_category s) (priority s)
  | F_title => mkStaff (name s) v (email s) (phone s) (photo_url s)
                 (confidence s) (role_category s) (priority s)
  | F_photo_url => mkStaff (name s) (title s) (email s) (phone s) v
                 (confidence s) (role_category s) (priority s)
  end.

(** [if not existing[field] and staff[field]:
       existing[field] = staff[field]; existing['confidence'] += 0.5] *)
Definition fill_field (staff : StaffMember) (existing : StaffMember)
    (f : staff_field) : StaffMember :=
  if negb (PyStr.otruthy (get_field f existing)) && PyStr.otruthy (get_field f staff)
  then let existing := set_field f (get_field f staff) existing in
       set_confidence (confidence existing + (1 # 2)) existing
  else existing.

(** [for field in ['email', 'phone', 'title', 'photo_url']: ...] *)
Definition fill_missing (staff existing : StaffMember) : StaffMember :=
  fold_left (fill_field staff) [F_email; F_phone; F_title; F_photo_url] existing.

(** The inner [for i, existing in enumerate(unique_staff)] loop, which
    stops at the first entry of the same name. *)
Fixpoint merge_by_name (staff : StaffMember) (unique_staff : list StaffMember)
    : list StaffMember :=
  match unique_staff with
  | [] => []
  | existing :: rest =>
      if bool_decide (name existing = name staff) then
        if Qgtb (confidence staff) (confidence existing)
        then staff :: rest
        else fill_missing staff existing :: rest
      else existing :: merge_by_name staff rest
  end.

(** The loop state of [_deduplicate_staff]. *)
Record DedupState := mkDedup {
  unique_staff : list StaffMember;
  seen_names : gset string;
  seen_emails : gset string
}.

Definition in_seen (o : option string) (seen : gset string) : bool :=
  match o with
  | Some s => PyStr.truthy s && bool_decide (s ∈ seen)
  | None => false
  end.

Definition add_seen (o : option string) (seen : gset string) : gset string :=
  match o with
  | Some s => if PyStr.truthy s then {[ s ]} ∪ seen else seen
  | None => seen
  end.

(** One iteration of [for staff in staff_members]. *)
Definition dedup_step (st : DedupState) (staff : StaffMember) : DedupState :=
  if in_seen (email staff) (seen_emails st) then st
  else if in_seen (name staff) (seen_names st) then
    mkDedup (merge_by_name staff (unique_staff st)) (seen_names st) (seen_emails st)
  else
    mkDedup (unique_staff st ++ [staff])
      (add_seen (name staff) (seen_names st))
      (add_seen (email staff) (seen_emails st)).

(** [StaffExtractor._deduplicate_staff] *)
Definition _deduplicate_staff (staff_members : list StaffMember)
    : list StaffMember :=
  unique_staff (fold_left dedup_step staff_members (mkDedup [] ∅ ∅)).

(** [any(keyword in title for keyword in keywords)] *)
Definition any_keyword_in (keywords : list string) (s : string) : bool :=
  existsb (fun keyword => PyStr.contains keyword s) keywords.

Definition management_keywords : list string :=
  ["president"; "ceo"; "cfo"; "coo"; "owner"; "partner"; "general manager";
   "gm"; "director"; "executive"; "principal"; "vp"; "vice president";
   "chief"; "head"; "founder"]%string.

Definition sales_keywords : list string :=
  ["sales"; "salesperson"; "salesman"; "saleswoman"; "lease"; "finance";
   "f&i"; "business manager"; "internet sales"]%string.

Definition service_keywords : list string :=
  ["service"; "technician"; "mechanic"; "parts"; "maintenance"; "advisor";
   "repair"; "warranty"]%string.

(** [StaffExtractor._validate_staff_member] *)
Definition _validate_staff_member (staff_member : StaffMember) : StaffMember :=
  let category :=
    if PyStr.otruthy (title staff_member) then
      let t := PyStr.lower (default EmptyString (title staff_member)) in
      if any_keyword_in management_keywords t then "management"
      else if any_keyword_in sales_keywords t then "sales"
      else if any_keyword_in service_keywords t then "service"
      else "general"
    else "general" in
  let prio :=
    if String.eqb category "management" then 3
    else if String.eqb category "sales" then 2
    else if String.eqb category "service" then 1
    else 0 in
  mkStaff (name staff_member) (title staff_member) (email staff_member)
    (phone staff_member) (photo_url staff_member) (confidence staff_member)
    (Some category%string) (Some prio).

(** [sorted(staff_members, key=lambda x: x['confidence'], reverse=True)]:
    a stable sort, so members of equal confidence keep their order.
    [insert_by_confidence x l] puts [x] in front of the first member that
    does not beat it. *)
Fixpoint insert_by_confidence (x : StaffMember) (l : list StaffMember)
    : list StaffMember :=
  match l with
  | [] => [x]
  | y :: r =>
      if Qgtb (confidence y) (confidence x)
      then y :: insert_by_confidence x r
      else x :: y :: r
  end.

Definition sorted_by_confidence (l : list StaffMember) : list StaffMember :=
  fold_right insert_by_confidence [] l.

(** The order of the sorted list: no member beats one before it. *)
Definition by_confidence (a b : StaffMember) : Prop :=
  (confidence b <= confidence a)%Q.

(** [staff['confidence'] >= 2] *)
Definition confident (s : StaffMember) : bool := Qgeb (confidence s) 2.

(** [StaffExtractor._filter_and_limit_staff] *)
Definition _filter_and_limit_staff (staff_members : list StaffMember)
    : list StaffMember :=
  let sorted_staff := sorted_by_confidence staff_members in
  let filtered_staff := List.filter confident sorted_staff in
  let validated_staff := _validate_staff_member <$> filtered_staff in
  take 20 validated_staff.

(** The retention rule of [_extract_staff_info]: a name and one of title,
    email, phone. *)
Definition retained (s : StaffMember) : bool :=
  PyStr.otruthy (name s) &&
  (PyStr.otruthy (title s) || PyStr.otruthy (email s) || PyStr.otruthy (phone s)).

(** Two fragments of one page that yield the same e-mail: a staff card
    with a title, scored 3, and a footer line with a phone number,
    scored 5. *)
Definition pat_from_card : StaffMember :=
  mkStaff (Some "Pat Doe") (Some "Sales Manager") (Some "pat@dealer.com")
    None None 3 None None.

Definition pat_from_footer : StaffMember :=
  mkStaff (Some "Pat Doe") None (Some "pat@dealer.com")
    (Some "2165551234") None 5 None None.

(** What [_extract_from_text] gives for a plain two-word name (+1) followed
    by a title it inferred from the text after the name (+0.5) that holds
    no title keyword. *)
Definition name_and_inferred_title : StaffMember :=
  mkStaff (Some "Pat Doe") (Some "Helper") None None None (1 + (1 # 2)) None None.

(** ** [hybrid_extractor.py]: the hybrid coordinator

    What a backend's [extract_contacts] returns: the dict with keys
    [emails], [phones] (lists) and [address] ([None] or a string). *)

Record Contacts := mkContacts {
  emails : list string;
  phones : list string;
  address : option string
}.

(** The [selenium_data] / [firecrawl_data] entries: which kinds of data a
    backend supplied. *)
Record Provenance := mkProvenance {
  has_emails : bool;
  has_phones : bool;
  has_address : bool
}.

(** The [result] dict of [HybridContactExtractor.extract_contacts]. *)
Record HybridResult := mkHybrid {
  result_emails : list string;
  result_phones : list string;
  result_address : option string;
  method_used : string;
  selenium_data : option Provenance;
  firecrawl_data : option Provenance
}.

(** [list(set(l))]: the distinct elements of [l], in an order Python does
    not specify; here the order of [elements]. *)
Definition list_set (l : list string) : list string :=
  elements (list_to_set l : gset string).

(** [len(d.get(key, [])) > 0] *)
Definition nonempty (l : list string) : bool :=
  match l with [] => false | _ => true end.

(** [d.get("address") is not None] *)
Definition not_none (o : option string) : bool :=
  match o with Some _ => true | None => false end.

Definition provenance_of (c : Contacts) : Provenance :=
  mkProvenance (nonempty (emails c)) (nonempty (phones c)) (not_none (address c)).

Section HybridContactExtractor.

(** [self.fallback_mode] and the two backends: what
    [self.selenium_extractor.extract_contacts(url)] and
    [self.firecrawl_extractor.extract_contacts(url)] return or raise. *)
Variable fallback_mode : string.
Variable selenium_extract : string -> outcome Contacts.
Variable firecrawl_extract : string -> outcome Contacts.

(** The second [try] block and the closing [method_used] assignment.
    [selenium_success] tells which way the first block ended. *)
Definition firecrawl_stage (url : string) (result : HybridResult)
    (selenium_success : bool) : HybridResult :=
  let '(result, firecrawl_success) :=
    match firecrawl_extract url with
    | Returned firecrawl_result =>
        let result_address' :=
          if negb (PyStr.otruthy (result_address result))
             && not_none (address firecrawl_result)
          then address firecrawl_result
          else result_address result in
        (mkHybrid
           (list_set (result_emails result ++ emails firecrawl_result))
           (list_set (result_phones result ++ phones firecrawl_result))
           result_address'
           (method_used result)
           (selenium_data result)
           (Some (provenance_of firecrawl_result)),
         true)
    | Raised _ => (result, false)
    end in
  let method :=
    if selenium_success && firecrawl_success then "hybrid"
    else if selenium_success then "selenium"
    else if firecrawl_success then "firecrawl"
    else "failed" in
  mkHybrid (result_emails result) (result_phones result) (result_address result)
    method (selenium_data result) (firecrawl_data result).

(** [HybridContactExtractor.extract_contacts]: the result, and the
    backends invoked, in order. *)
Definition extract_contacts (url : string) : HybridResult * list string :=
  let result := mkHybrid [] [] None "hybrid" None None in
  match selenium_extract url with
  | Returned selenium_result =>
      let selenium_has_emails := nonempty (emails selenium_result) in
      let selenium_has_phones := nonempty (phones selenium_result) in
      let selenium_has_address := not_none (address selenium_result) in
      let result :=
        mkHybrid (result_emails result ++ emails selenium_result)
          (result_phones result ++ phones selenium_result)
          (if selenium_has_address then address selenium_result
           else result_address result)
          (method_used result)
          (Some (mkProvenance selenium_has_emails selenium_has_phones
                   selenium_has_address))
          (firecrawl_data result) in
      let needs_fallback :=
        if String.eqb fallback_mode "always" then true
        else if String.eqb fallback_mode "auto" then
          negb (selenium_has_emails && selenium_has_phones && selenium_has_address)
        else false in
      if negb needs_fallback then
        (mkHybrid (result_emails result) (result_phones result)
           (result_address result) "selenium"
           (selenium_data result) (firecrawl_data result),
         ["selenium"%string])
      else
        (firecrawl_stage url result true, ["selenium"; "firecrawl"]%string)
  | Raised _ =>
      (firecrawl_stage url result false, ["selenium"; "firecrawl"]%string)
  end.

End HybridContactExtractor.

(** Two backends looking at one page: the browser finds an e-mail address
    and a phone number but no address; the crawler finds the same e-mail
    address, another phone number, and the address. *)
Definition selenium_sample (url : string) : outcome Contacts :=
  Returned (mkContacts ["sales@dealer.com"] ["2165551234"] None)%string.

Definition firecrawl_sample (url : string) : outcome Contacts :=
  Returned (mkContacts ["sales@dealer.com"] ["2165559999"]
              (Some "1 Main St, Cleveland, OH 44101"))%string.

(** A backend that is down. *)
Definition backend_down (url : string) : outcome Contacts :=
  Raised (mkExn WebDriverException "chrome not reachable" 0).

(** [selenium_has_emails and selenium_has_phones and selenium_has_address] *)
Definition complete (c : Contacts) : bool :=
  nonempty (emails c) && nonempty (phones c) && not_none (address c).


(** ** [error_handler.py]: a history of the tracker

    The calls a process makes on the [ErrorTracker] singleton, with the
    clock reading of each call that reads the clock. *)
Inductive tracker_call :=
| Record_error (resource_key error_type : string) (now : Q)
| Check_circuit (resource_key : string) (now : Q)
| Reset_circuit (resource_key : string).

Definition tracker_step (t : ErrorTracker) (c : tracker_call) : ErrorTracker :=
  match c with
  | Record_error key ety now => record_error key ety now t
  | Check_circuit key now => snd (check_circuit key now t)
  | Reset_circuit key => reset_circuit key t
  end.

Definition tracker_run (cs : list tracker_call) (t : ErrorTracker) : ErrorTracker :=
  fold_left tracker_step cs t.

(** The resource a call is about. *)
Definition call_key (c : tracker_call) : string :=
  match c with
  | Record_error key _ _ => key
  | Check_circuit key _ => key
  | Reset_circuit key => key
  end.

(** All the tracker holds about one resource. *)
Definition resource_state (key : string) (t : ErrorTracker)
    : option (gmap string Z) * option bool * option Q :=
  (error_counts t !! key, circuit_open t !! key, last_error_time t !! key).

(** What holds of a resource in every state the tracker reaches: its
    circuit is open exactly when its error total has reached the
    threshold, an open circuit has a last error time, and the total is not
    negative. *)
Definition circuit_matches_count (key : string) (t : ErrorTracker) : Prop :=
  (circuit_open t !! key = Some true <-> error_threshold t <= total_errors t key) /\
  (circuit_open t !! key = Some true -> is_Some (last_error_time t !! key)) /\
  0 <= total_errors t key.

(** ** [error_handler.py]: [handle_network_error]

    Whether a network error is worth another attempt; a rate limit (HTTP
    429) is waited out for ten seconds first. *)
Definition handle_network_error (error : exn) (w : World) : bool * World :=
  if isinstance error [ConnectTimeout; ReadTimeout; SocketTimeout] then (true, w)
  else if isinstance error [RequestsConnectionError] then (true, w)
  else if isinstance error [RequestsHTTPError] then
    let status_code := exc_status error in
    if (500 <=? status_code) && (status_code <? 600) then (true, w)
    else if status_code =? 429 then (true, sleep 10 w)
    else (false, w)
  else (false, w).

(** ** [verify_all_dealerships.py]: the batch verifier

    A cell of the input frame is a string, or NaN where the value is
    missing; [str] of NaN is ["nan"]. *)
Definition cell := option string.

Definition str_cell (c : cell) : string := default "nan"%string c.

(** A row of the input frame, with the two columns the verifier reads. *)
Record Row := mkRow {
  DealershipName : cell;
  Website : cell
}.

(** [DealershipVerifier.clean_url] *)
Definition clean_url (url : cell) : string :=
  match url with
  | None => EmptyString
  | Some s =>
      if negb (PyStr.truthy s) then EmptyString
      else
        let url := PyStr.lower (PyStr.strip s) in
        if PyStr.startswith "http://" url || PyStr.startswith "https://" url
        then url
        else ("https://" ++ url)%string
  end.

(** [self.manufacturer_data], in the order of the dict. *)
Definition manufacturer_data : list (string * list string) :=
  [("Toyota", ["toyota"; "lexus"]);
   ("Ford", ["ford"; "lincoln"]);
   ("GM", ["chevrolet"; "chevy"; "gmc"; "buick"; "cadillac"]);
   ("Honda", ["honda"; "acura"]);
   ("BMW", ["bmw"; "mini"]);
   ("Mercedes", ["mercedes"; "benz"]);
   ("Hyundai", ["hyundai"; "genesis"]);
   ("Kia", ["kia"]);
   ("Stellantis", ["chrysler"; "dodge"; "jeep"; "ram"; "fiat"]);
   ("VW", ["volkswagen"; "vw"; "audi"; "porsche"]);
   ("Nissan", ["nissan"; "infiniti"]);
   ("Mazda", ["mazda"]);
   ("Subaru", ["subaru"]);
   ("Volvo", ["volvo"]);
   ("Jaguar Land Rover", ["jaguar"; "land rover"]);
   ("Tesla", ["tesla"])]%string.

(** [any(keyword in name or keyword in url for keyword in keywords)] *)
Definition keyword_hit (name url : string) (keywords : list string) : bool :=
  existsb (fun keyword => PyStr.contains keyword name || PyStr.contains keyword url)
    keywords.

(** The first loop of [identify_manufacturer]: the first manufacturer of
    the table one of whose keywords occurs in the name or the URL. *)
Fixpoint direct_match (name url : string) (table : list (string * list string))
    : option string :=
  match table with
  | [] => None
  | (manufacturer, keywords) :: rest =>
      if keyword_hit name url keywords then Some manufacturer
      else direct_match name url rest
  end.

Section FuzzyMatch.

(** [fuzz.ratio], the similarity score of the fuzzy-matching library. *)
Variable fuzz_ratio : string -> string -> Z.

(** One pass of the inner loop body on [(best_match, highest_ratio)]. *)
Definition fuzzy_step (name manufacturer : string) (st : option string * Z)
    (keyword : string) : option string * Z :=
  let ratio := fuzz_ratio keyword name in
  if (ratio >? snd st) && (ratio >? 80) then (Some manufacturer, ratio) else st.

(** The second, nested loop. *)
Definition fuzzy_match (name : string) (table : list (string * list string))
    : option string * Z :=
  fold_left
    (fun st entry => fold_left (fuzzy_step name (fst entry)) (snd entry) st)
    table (None, 0).

(** [DealershipVerifier.identify_manufacturer].  A row has both columns,
    so nothing in the [try] block raises and the handler that would answer
    ["Unknown"] is not entered. *)
Definition identify_manufacturer (row : Row) : string :=
  let name := PyStr.lower (str_cell (DealershipName row)) in
  let url := PyStr.lower (str_cell (Website row)) in
  match direct_match name url manufacturer_data with
  | Some manufacturer => manufacturer
  | None =>
      match fst (fuzzy_match name manufacturer_data) with
      | Some best_match => if PyStr.truthy best_match then best_match else "Other"
      | None => "Other"
      end
  end%string.

End FuzzyMatch.

(** The table as (manufacturer, keyword) pairs, in the order the nested
    loop visits them. *)
Definition keyword_pairs (table : list (string * list string))
    : list (string * string) :=
  flat_map (fun entry => map (pair (fst entry)) (snd entry)) table.

(** The first character, if there is one, is no whitespace. *)
Definition head_not_space (s : string) : bool :=
  match s with
  | EmptyString => true
  | String c _ => negb (PyStr.is_space c)
  end.

(** A scorer for the examples: it rates ["tesla"] against the name at
    exactly 80 -- what [fuzz.ratio] gives for two five-letter words that
    differ in one letter -- and every other keyword at 0. *)
Definition one_letter_off (keyword name : string) : Z :=
  if String.eqb keyword "tesla" then 80 else 0.

Definition tesle_row : Row :=
  mkRow (Some "Tesle") (Some "www.ev-cars.example")%string.

(** The state of the fuzzy loop after the pairs [seen]: nothing scored
    above 80 yet, or the best match is the manufacturer of a keyword that
    scored above 80 and no lower than any other seen. *)
Definition fuzzy_invariant (fuzz_ratio : string -> string -> Z) (name : string)
    (seen : list (string * string)) (st : option string * Z) : Prop :=
  (fst st = None /\ snd st = 0 /\
   forall p, In p seen -> fuzz_ratio (snd p) name <= 80) \/
  (exists m k, fst st = Some m /\ In (m, k) seen /\
     snd st = fuzz_ratio k name /\ 80 < fuzz_ratio k name /\
     forall p, In p seen -> fuzz_ratio (snd p) name <= fuzz_ratio k name).

(** What the verifier reads of a [requests.Response]: the status code, the
    final URL after redirects, whether a [cf-ray] header is present, and
    what evaluating [response.text] gives. *)
Record Response := mkResponse {
  status_code : Z;
  response_url : string;
  has_cf_ray : bool;
  response_text : outcome string
}.

(** The landing-page markers of [verify_url]. *)
Definition error_page_markers : list string :=
  ["login"; "error"; "404"; "not-found"; "blocked"; "unavailable"; "robot"]%string.

(** An entry of the contact list [scrape_contacts] returns. *)
Record Contact := mkContact {
  contact_type : string;
  contact_value : string
}.

(** The conversion loop of [scrape_contacts]. *)
Definition format_contacts (contacts : Contacts) : list Contact :=
  (mkContact "email" <$> emails contacts) ++
  (mkContact "phone" <$> phones contacts) ++
  (if PyStr.otruthy (address contacts)
   then [mkContact "address" (default EmptyString (address contacts))]
   else []).

(** A record of [results], a record of [failed_dealerships], and the
    progress counters of the verifier. *)
Record ResultRecord := mkResult {
  result_name : cell;
  result_website : string;
  IsActive : bool;
  FinalURL : string;
  Manufacturer : string;
  result_contacts : list Contact;
  ProcessingTime : Q
}.

Record FailedRecord := mkFailed {
  failed_name : cell;
  failed_website : cell;
  Error : string
}.

Record Verifier := mkVerifier {
  total_processed : Z;
  active_websites : Z;
  manufacturer_counts : gmap string Z;
  failed_dealerships : list FailedRecord
}.

(** [TypeError] for a call that does not fit the signature. *)
Definition type_error : exn :=
  mkExn (OtherException "TypeError") "unexpected arguments" 0.

Section DealershipVerifier.

(** The world outside: the byte source of the retry wrapper;
    [requests.head] and [requests.get] (the latter with the
    [response.close()] that follows it); [urlparse(url).netloc];
    [ContactExtractor(headless=True)], its [extract_contacts] and its
    [cleanup]; [fuzz.ratio]; and whether the supervisor has been asked to
    shut down. *)
Variable urandom : nat -> Z.
Variables requests_head requests_get : string -> World -> outcome Response * World.
Variable urlparse_netloc : string -> outcome string.
Variable new_extractor : World -> outcome unit * World.
Variable extractor_extract : string -> World -> outcome Contacts * World.
Variable extractor_cleanup : World -> World.
Variable fuzz_ratio : string -> string -> Z.
Variable is_shutdown_requested : World -> bool.

(** The [try] block of [verify_url]. *)
Definition verify_url_request (url : string) (w : World)
    : outcome (bool * option string) * World :=
  let url := clean_url (Some url) in
  match requests_head url w with
  | (Raised e, w) => (Raised e, w)
  | (Returned response, w) =>
      let '(second, w) :=
        if negb (status_code response =? 200) then requests_get url w
        else (Returned response, w) in
      match second with
      | Raised e => (Raised e, w)
      | Returned response =>
          if existsb
               (fun x => PyStr.contains x (PyStr.lower (response_url response)))
               error_page_markers
          then (Returned (false, Some (response_url response)), w)
          else
            match (if has_cf_ray response then Returned EmptyString
                   else response_text response) with
            | Raised e => (Raised e, w)
            | Returned _ =>
                let is_active :=
                  (200 <=? status_code response) && (status_code response <? 300) in
                (Returned (is_active, Some (response_url response)), w)
            end
      end
  end.

(** [verify_url] before decoration. *)
Definition verify_url_func (url : string) (resource_key : option string)
    (w : World) : outcome (bool * option string) * World :=
  if negb (PyStr.truthy url) then (Returned (false, None), w)
  else
    let key :=
      match resource_key with
      | Some key => Returned key
      | None =>
          match urlparse_netloc url with
          | Returned netloc => Returned (if PyStr.truthy netloc then netloc else url)
          | Raised e => Raised e
          end
      end in
    match key with
    | Raised e => (Raised e, w)
    | Returned resource_key =>
        let '(is_open, w) := world_check_circuit resource_key w in
        if is_open then (Returned (false, None), w)
        else
          match verify_url_request url w with
          | (Returned v, w) => (Returned v, w)
          | (Raised e, w) =>
              if isinstance e [RequestException] then
                let '(is_recoverable, w) := handle_network_error e w in
                if negb is_recoverable
                then (Raised e, world_record_error resource_key (type_name e) w)
                else (Raised e, w)
              else (Raised e, world_record_error resource_key (type_name e) w)
          end
    end.

(** How a call of [verify_url] binds its positional and keyword
    arguments. *)
Definition verify_url_call (args : list string) (kwargs : gmap string string)
    (w : World) : outcome (bool * option string) * World :=
  match args with
  | [url] =>
      if bool_decide (delete "resource_key"%string kwargs = ∅)
      then verify_url_func url (kwargs !! "resource_key"%string) w
      else (Raised type_error, w)
  | [url; resource_key] =>
      if bool_decide (kwargs = ∅)
      then verify_url_func url (Some resource_key) w
      else (Raised type_error, w)
  | _ => (Raised type_error, w)
  end.

(** [DealershipVerifier.verify_url]:
    [@retry_with_backoff(max_retries=3, initial_backoff=1, max_backoff=15)] *)
Definition verify_url :=
  retry_with_backoff 3 1 2 15 default_retry_exceptions urandom
    "verify_url" verify_url_call.

(** The [except] clause of [scrape_contacts]. *)
Definition scrape_error (url : string) (e : exn) (w : World)
    : outcome (list Contact) * World :=
  match urlparse_netloc url with
  | Returned domain => (Raised e, world_record_error domain (type_name e) w)
  | Raised parse_error => (Raised parse_error, w)
  end.

(** [scrape_contacts] before decoration.  The [ResourceGuard] it opens
    has no cleanup function, so releasing it does nothing. *)
Definition scrape_contacts_func (url : string) (w : World)
    : outcome (list Contact) * World :=
  if negb (PyStr.truthy url) then (Returned [], w)
  else
    match new_extractor w with
    | (Raised e, w) => scrape_error url e w
    | (Returned _, w) =>
        match extractor_extract url w with
        | (Returned contacts, w) =>
            (Returned (format_contacts contacts), extractor_cleanup w)
        | (Raised e, w) =>
            let '(o, w) := scrape_error url e w in (o, extractor_cleanup w)
        end
    end.

Definition scrape_contacts_call (args : list string) (kwargs : gmap string string)
    (w : World) : outcome (list Contact) * World :=
  match args with
  | [url] =>
      if bool_decide (kwargs = ∅) then scrape_contacts_func url w
      else (Raised type_error, w)
  | _ => (Raised type_error, w)
  end.

(** [DealershipVerifier.scrape_contacts]:
    [@retry_with_backoff(max_retries=2, initial_backoff=2)] *)
Definition scrape_contacts :=
  retry_with_backoff 2 2 2 30 default_retry_exceptions urandom
    "scrape_contacts" scrape_contacts_call.

(** The [failed_record] of a row. *)
Definition failed_record (row : Row) (e : exn) : FailedRecord :=
  mkFailed (DealershipName row) (Website row) (exc_msg e).

(** The body of the [for] loop of [process_batch] past the shutdown check:
    the [try] block and its handler.  [inl] is a record for [results],
    [inr] one for [failed_in_batch]. *)
Definition process_row (row : Row) (v : Verifier) (w : World)
    : option ((ResultRecord + FailedRecord) * Verifier * World) :=
  let url := clean_url (Website row) in
  match urlparse_netloc url with
  | Raised e => Some (inr (failed_record row e), v, w)
  | Returned domain =>
      let '(is_open, w) := world_check_circuit domain w in
      verified ←
        (if is_open then Some (Returned (false, None), w)
         else verify_url [url] {[ "resource_key"%string := domain ]} w);
      match verified with
      | (Raised e, w) => Some (inr (failed_record row e), v, w)
      | (Returned (is_active, final_url), w) =>
          scraped ←
            (if is_active then
               let v := mkVerifier (total_processed v) (active_websites v + 1)
                          (manufacturer_counts v) (failed_dealerships v) in
               '(o, w) ← scrape_contacts [default EmptyString final_url] ∅ w;
               Some (match o with Returned contacts => contacts | Raised _ => [] end,
                     v, w)
             else Some ([], v, w));
          let '(contacts, v, w) := scraped in
          let manufacturer := identify_manufacturer fuzz_ratio row in
          let counts :=
            <[manufacturer :=
                default 0 (manufacturer_counts v !! manufacturer) + 1]>
              (manufacturer_counts v) in
          let result :=
            mkResult (DealershipName row) url is_active
              (if PyStr.otruthy final_url then default EmptyString final_url else url)
              manufacturer contacts (clock w) in
          Some (inl result,
                mkVerifier (total_processed v + 1) (active_websites v) counts
                  (failed_dealerships v),
                w)
      end
  end.

(** The [for] loop of [process_batch]. *)
Fixpoint batch_loop (batch : list Row) (results : list ResultRecord)
    (failed_in_batch : list FailedRecord) (v : Verifier) (w : World)
    : option (list ResultRecord * list FailedRecord * Verifier * World) :=
  match batch with
  | [] => Some (results, failed_in_batch, v, w)
  | row :: rest =>
      if is_shutdown_requested w then Some (results, failed_in_batch, v, w)
      else
        '(r, v, w) ← process_row row v w;
        match r with
        | inl result => batch_loop rest (results ++ [result]) failed_in_batch v w
        | inr failed => batch_loop rest results (failed_in_batch ++ [failed]) v w
        end
  end.

(** [DealershipVerifier.process_batch]: the results it returns, and the
    verifier and the world afterwards. *)
Definition process_batch (batch : list Row) (v : Verifier) (w : World)
    : option (list ResultRecord * Verifier * World) :=
  '(results, failed_in_batch, v, w) ← batch_loop batch [] [] v w;
  let v :=
    match failed_in_batch with
    | [] => v
    | _ => mkVerifier (total_processed v) (active_websites v)
             (manufacturer_counts v) (failed_dealerships v ++ failed_in_batch)
    end in
  Some (results, v, w).

End DealershipVerifier.

(** The number of records marked active. *)
Definition active_count (results : list ResultRecord) : Z :=
  Z.of_nat (length (List.filter IsActive results)).

(** A small world for the examples: [live.example] answers 200,
    [slow.example] times out, [down.example] refuses the connection, and
    every other host answers 404; the contact extractor finds an e-mail
    address, a phone number and an address; nobody asks for a shutdown;
    the jitter byte is always 0. *)
Definition sample_netloc (url : string) : outcome string :=
  Returned (PyStr.drop 8 url).

Definition sample_request (url : string) (w : World) : outcome Response * World :=
  if String.eqb url "https://live.example" then
    (Returned (mkResponse 200 "https://live.example/" false (Returned EmptyString)), w)
  else if String.eqb url "https://slow.example" then
    (Raised (mkExn ReadTimeout "Read timed out" 0), w)
  else if String.eqb url "https://down.example" then
    (Raised (mkExn RequestsConnectionError "Connection refused" 0), w)
  else
    (Returned (mkResponse 404 url false (Returned EmptyString)), w).

Definition sample_new_extractor (w : World) : outcome unit * World :=
  (Returned tt, w).

Definition sample_extract (url : string) (w : World) : outcome Contacts * World :=
  (Returned (mkContacts ["sales@live.example"] ["2165551234"]
               (Some "1 Main St, Cleveland, OH 44101"))%string, w).

Definition never_shutdown (w : World) : bool := false.

Definition sample_process_row :=
  process_row (fun _ => 0) sample_request sample_request sample_netloc
    sample_new_extractor sample_extract (fun w => w) one_letter_off.

Definition sample_process_batch :=
  process_batch (fun _ => 0) sample_request sample_request sample_netloc
    sample_new_extractor sample_extract (fun w => w) one_letter_off never_shutdown.

Definition new_verifier : Verifier := mkVerifier 0 0 ∅ [].

Definition live_row : Row :=
  mkRow (Some "Lakeside Toyota") (Some "live.example")%string.
Definition slow_row : Row :=
  mkRow (Some "Hilltop Ford") (Some "slow.example")%string.
Definition down_row : Row :=
  mkRow (Some "Valley Honda") (Some "down.example")%string.

(** A process in which five sites have failed verification, the last one
    a hundred seconds into the run; it is now 150 seconds in. *)
Definition after_five_failures : World :=
  mkWorld
    (record_errors "verify_url"
       [("ConnectionError", 10%Q); ("ReadTimeout", 30%Q);
        ("ConnectionError", 50%Q); ("ConnectionError", 70%Q);
        ("ReadTimeout", 100%Q)] new_tracker)
    150 0 20.

(** ** [staff_extractor.py]: what deduplication keys on

    The name a candidate is known by, and the e-mail address it is known
    by: the field when it is neither [None] nor empty. *)
Definition known (o : option string) : option string :=
  match o with
  | Some s => if PyStr.truthy s then Some s else None
  | None => None
  end.

Definition known_names (l : list StaffMember) : list string :=
  omap (fun s => known (name s)) l.

Definition known_emails (l : list StaffMember) : list string :=
  omap (fun s => known (email s)) l.

(** A second candidate of the sample page. *)
Definition sam_from_card : StaffMember :=
  mkStaff (Some "Sam Roe") (Some "Service Advisor") (Some "sam@dealer.com")
    None None (2 + (1 # 2)) None None.

(** ** [error_handler.py]: [ResourceGuard]

    A guard over resources of some type: the list it holds and its
    [released] flag.  [cleanup_func] is the constructor's argument ([None]
    when it is left out); what a cleanup function does is its own
    business, so a call of it is modelled by what the guard hands it: the
    log lists, in order, the resource lists [cleanup_func] was invoked
    with.  An exception of the cleanup function is caught and logged by
    [release], so whether it raises makes no difference to the guard. *)

Record ResourceGuard (R : Type) := mkGuard {
  resources : list R;
  released : bool
}.
Arguments mkGuard {R} _ _.
Arguments resources {R} _.
Arguments released {R} _.

Section ResourceGuardMethods.

Context {R : Type}.

(** Whether a cleanup function was given. *)
Variable has_cleanup_func : bool.

(** [ResourceGuard.__init__]: [resources or []]. *)
Definition new_guard (initial : option (list R)) : ResourceGuard R :=
  mkGuard (default [] initial) false.

(** [ResourceGuard.add_resource] *)
Definition add_resource (resource : R) (g : ResourceGuard R) : ResourceGuard R :=
  mkGuard (resources g ++ [resource]) (released g).

(** [ResourceGuard.release], which [__exit__] calls: the guard and the
    cleanup log afterwards. *)
Definition release (g : ResourceGuard R) (log : list (list R))
    : ResourceGuard R * list (list R) :=
  if released g then (g, log)
  else
    (mkGuard (resources g) true,
     if has_cleanup_func then log ++ [resources g] else log).

(** What a program does with a guard. *)
Inductive guard_call :=
| Add_resource (resource : R)
| Release.

Definition guard_step (st : ResourceGuard R * list (list R)) (c : guard_call)
    : ResourceGuard R * list (list R) :=
  match c with
  | Add_resource resource => (add_resource resource (fst st), snd st)
  | Release => release (fst st) (snd st)
  end.

Definition guard_run (cs : list guard_call) (st : ResourceGuard R * list (list R))
    : ResourceGuard R * list (list R) :=
  fold_left guard_step cs st.

(** The resources added by the calls before the first [Release]. *)
Fixpoint added_before_release (cs : list guard_call) : list R :=
  match cs with
  | [] => []
  | Add_resource resource :: rest => resource :: added_before_release rest
  | Release :: _ => []
  end.

Definition is_release (c : guard_call) : bool :=
  match c with Release => true | Add_resource _ => false end.

End ResourceGuardMethods.

(** A site that answers every request with a client error raised as
    [requests.HTTPError] (as a session with [raise_for_status] hooks
    does). *)
Definition gone_error : exn := mkExn RequestsHTTPError "410 Client Error: Gone" 410.

Definition gone_request (url : string) (w : World) : outcome Response * World :=
  (Raised gone_error, w).

Definition gone_row : Row :=
  mkRow (Some "Closed Motors") (Some "gone.example")%string.

(** ** [staff_extractor.py] and [contact_extractor.py]: [_validate_email]

    Regular expressions over character classes, with Brzozowski
    derivatives for matching.  Every construct the e-mail pattern uses is
    regular, so whether Python's backtracking matcher finds a match is
    whether the string is in the language. *)
Inductive regex :=
| Nothing
| Epsilon
| Class (p : ascii -> bool)
| Seq (r s : regex)
| Alt (r s : regex)
| Star (r : regex).

(** [r+] and [r{2,}] *)
Definition Plus (r : regex) : regex := Seq r (Star r).
Definition AtLeast2 (r : regex) : regex := Seq r (Seq r (Star r)).

Fixpoint nullable (r : regex) : bool :=
  match r with
  | Nothing => false
  | Epsilon => true
  | Class _ => false
  | Seq r s => nullable r && nullable s
  | Alt r s => nullable r || nullable s
  | Star _ => true
  end.

Fixpoint deriv (c : ascii) (r : regex) : regex :=
  match r with
  | Nothing => Nothing
  | Epsilon => Nothing
  | Class p => if p c then Epsilon else Nothing
  | Seq r s =>
      if nullable r then Alt (Seq (deriv c r) s) (deriv c s)
      else Seq (deriv c r) s
  | Alt r s => Alt (deriv c r) (deriv c s)
  | Star r => Seq (deriv c r) (Star r)
  end.

(** Whether the whole of [s] matches [r]. *)
Fixpoint fullmatch (r : regex) (s : string) : bool :=
  match s with
  | EmptyString => nullable r
  | String c s => fullmatch (deriv c r) s
  end.

(** The language of a regular expression. *)
Inductive in_lang : regex -> string -> Prop :=
| in_epsilon : in_lang Epsilon EmptyString
| in_class p c : p c = true -> in_lang (Class p) (String c EmptyString)
| in_seq r s x y : in_lang r x -> in_lang s y -> in_lang (Seq r s) (x ++ y)
| in_alt_l r s x : in_lang r x -> in_lang (Alt r s) x
| in_alt_r r s x : in_lang s x -> in_lang (Alt r s) x
| in_star_nil r : in_lang (Star r) EmptyString
| in_star_cons r x y :
    in_lang r x -> in_lang (Star r) y -> in_lang (Star r) (x ++ y).

(** The character classes of the e-mail pattern: [[a-zA-Z0-9._%+-]],
    [[a-zA-Z0-9.-]], [\.], [@], and the newline [$] tolerates. *)
Definition is_char (c d : ascii) : bool := Ascii.eqb c d.

Definition local_char (c : ascii) : bool :=
  PyStr.is_alpha c || PyStr.is_digit c ||
  is_char "." c || is_char "_" c || is_char "%" c || is_char "+" c || is_char "-" c.

Definition domain_char (c : ascii) : bool :=
  PyStr.is_alpha c || PyStr.is_digit c || is_char "." c || is_char "-" c.

Definition newline : ascii := ascii_of_nat 10.

(** [^[a-zA-Z0-9._%+-]+@[a-zA-Z0-9.-]+\.[a-zA-Z]{2,}$], up to the [$]. *)
Definition email_regex : regex :=
  Seq (Plus (Class local_char))
    (Seq (Class (is_char "@"))
       (Seq (Plus (Class domain_char))
          (Seq (Class (is_char "."))
             (AtLeast2 (Class PyStr.is_alpha))))).

(** [bool(re.match(pattern + '$', s))] for a pattern [r] that begins with
    [^]: without the MULTILINE flag, [$] matches at the end of the string
    and also just before a newline that ends the string. *)
Definition re_match_to_end (r : regex) (s : string) : bool :=
  fullmatch (Seq r (Alt Epsilon (Class (is_char newline)))) s.

Definition invalid_patterns : list string :=
  ["example.com"; "domain.com"; "email@example"; "yourdomain"; "yourname"; "@."]%string.

(** [ContactExtractor._validate_email]; [StaffExtractor._validate_email]
    is the same function of its first argument (it takes the dealership's
    domain as a second one and does not use it). *)
Definition _validate_email (email : string) : bool :=
  if negb (PyStr.truthy email) || negb (PyStr.contains "@" email) then false
  else if existsb (fun pattern => PyStr.contains pattern (PyStr.lower email))
            invalid_patterns
  then false
  else re_match_to_end email_regex email.

Definition staff_validate_email (email domain : string) : bool :=
  _validate_email email.

(** ** [error_handler.py]: the backoff schedule

    [x ^ k]; the nominal wait before retry [k]: [initial * factor ^ k],
    capped at [max]; the sum of the first [n] nominal waits; and the value
    of the loop's [backoff] variable after [k] updates. *)
Fixpoint Qpow (x : Q) (k : nat) : Q :=
  match k with
  | O => 1
  | S k => Qpow x k * x
  end.

Definition nominal_backoff (initial factor max : Q) (k : nat) : Q :=
  Qmin (initial * Qpow factor k) max.

Fixpoint nominal_total (initial factor max : Q) (n : nat) : Q :=
  match n with
  | O => 0
  | S n => nominal_total initial factor max n + nominal_backoff initial factor max n
  end.

Fixpoint backoff_after (initial factor max : Q) (k : nat) : Q :=
  match k with
  | O => initial
  | S k => Qmin (backoff_after initial factor max k * factor) max
  end.

(** A wrapped function that raises [e] at once: no time passes in it and
    it draws no byte. *)
Definition raises_at_once {A : Type}
    (func : list string -> gmap string string -> World -> outcome A * World)
    (args : list string) (kwargs : gmap string string) (e : exn) : Prop :=
  forall w, exists w', func args kwargs w = (Raised e, w') /\
    clock w' = clock w /\ draws w' = draws w.

(** ** [error_handler.py]: [ProcessSupervisor]

    The supervisor's shutdown flag and its cleanup handlers, by name.
    Running a handler is modelled by its name entering the log; an
    exception of a handler is caught and logged by [initiate_shutdown], so
    the handlers after it still run.  Executors and threads are shut down
    and joined after the handlers and have no part in what follows. *)
Record ProcessSupervisor := mkSupervisor {
  is_shutting_down : bool;
  cleanup_handlers : list string
}.

(** [ProcessSupervisor.__init__] *)
Definition new_supervisor : ProcessSupervisor := mkSupervisor false [].

(** [register_cleanup_handler] *)
Definition register_cleanup_handler (handler : string) (s : ProcessSupervisor)
    : ProcessSupervisor :=
  mkSupervisor (is_shutting_down s) (cleanup_handlers s ++ [handler]).

(** [initiate_shutdown], which [_handle_signal] calls for SIGINT and
    SIGTERM: the supervisor and the log of handlers run. *)
Definition initiate_shutdown (s : ProcessSupervisor) (log : list string)
    : ProcessSupervisor * list string :=
  if is_shutting_down s then (s, log)
  else (mkSupervisor true (cleanup_handlers s), log ++ cleanup_handlers s).

(** [is_shutdown_requested] *)
Definition supervisor_shutdown_requested (s : ProcessSupervisor) : bool :=
  is_shutting_down s.

Inductive supervisor_call :=
| Register_cleanup_handler (handler : string)
| Initiate_shutdown.

Definition supervisor_step (st : ProcessSupervisor * list string)
    (c : supervisor_call) : ProcessSupervisor * list string :=
  match c with
  | Register_cleanup_handler handler =>
      (register_cleanup_handler handler (fst st), snd st)
  | Initiate_shutdown => initiate_shutdown (fst st) (snd st)
  end.

Definition supervisor_run (cs : list supervisor_call)
    (st : ProcessSupervisor * list string) : ProcessSupervisor * list string :=
  fold_left supervisor_step cs st.

(** The handlers registered by the calls before the first shutdown. *)
Fixpoint registered_before_shutdown (cs : list supervisor_call) : list string :=
  match cs with
  | [] => []
  | Register_cleanup_handler handler :: rest =>
      handler :: registered_before_shutdown rest
  | Initiate_shutdown :: _ => []
  end.

Definition is_shutdown (c : supervisor_call) : bool :=
  match c with Initiate_shutdown => true | Register_cleanup_handler _ => false end.

(** A tracker on which five errors are on record for ["a.example"]. *)
Definition five_errors : list tracker_call :=
  [Record_error "a.example" "Timeout" 10;
   Record_error "a.example" "Timeout" 20;
   Record_error "a.example" "ConnectionError" 30;
   Record_error "a.example" "Timeout" 40;
   Record_error "a.example" "Timeout" 50]%string.

(** A third candidate of the sample page: another person listed with the
    address [pat@dealer.com]. *)
Definition lee_shared_mailbox : StaffMember :=
  mkStaff (Some "Lee Poe") None (Some "pat@dealer.com") None None 2 None None.

(** * Properties *)

(** ** Strings and rationals *)

Lemma PyStr_length_drop n s : String.length (PyStr.drop n s) = (String.length s - n)%nat.
Proof.
  revert s; induction n as [|n IH]; intros [|c r]; simpl; auto with arith.
Qed.

Lemma PyStr_length_last_n n s :
  (n <= String.length s)%nat -> String.length (PyStr.last_n n s) = n.
Proof. intros H. unfold PyStr.last_n. rewrite PyStr_length_drop. lia. Qed.

Lemma PyStr_all_chars_drop p n s : PyStr.all_chars p s = true -> PyStr.all_chars p (PyStr.drop n s) = true.
Proof.
  revert s; induction n as [|n IH]; intros [|c r]; simpl; auto.
  intros H. apply andb_prop in H as [_ H]. auto.
Qed.

Lemma PyStr_all_chars_filter p s : PyStr.all_chars p (PyStr.filter_chars p s) = true.
Proof.
  induction s as [|c r IH]; simpl; auto.
  destruct (p c) eqn:E; simpl; rewrite ?E; auto.
Qed.

Lemma PyStr_all_chars_app p s t :
  PyStr.all_chars p (s ++ t) = PyStr.all_chars p s && PyStr.all_chars p t.
Proof.
  induction s as [|c r IH]; simpl; auto. rewrite IH. apply andb_assoc.
Qed.

Lemma PyStr_length_app s t :
  String.length (s ++ t) = (String.length s + String.length t)%nat.
Proof. induction s as [|c r IH]; simpl; auto. Qed.

Lemma Qgtb_true x y : Qgtb x y = true <-> (y < x)%Q.
Proof.
unfold Qgtb. rewrite negb_true_iff. split; intros H.
- apply Qnot_le_lt. intros Hle. apply Qle_bool_iff in Hle. congruence.
- destruct (Qle_bool x y) eqn:E; auto.
  apply Qle_bool_iff in E. exfalso. eapply Qlt_not_le; eauto.
Qed.

Lemma Qgtb_false x y : Qgtb x y = false <-> (x <= y)%Q.
Proof.
unfold Qgtb. rewrite negb_false_iff. apply Qle_bool_iff.
Qed.

Lemma Qgeb_true x y : Qgeb x y = true <-> (y <= x)%Q.
Proof. unfold Qgeb. apply Qle_bool_iff. Qed.

(** ** The circuit breaker *)

Lemma sum_values_insert_fresh (d : gmap string Z) k v :
  d !! k = None -> sum_values (<[k := v]> d) = v + sum_values d.
Proof.
  intros H. unfold sum_values.
  rewrite map_fold_insert_L; [reflexivity | intros; lia | exact H].
Qed.

Lemma sum_values_bump (d : gmap string Z) k :
  sum_values (<[k := default 0 (d !! k) + 1]> d) = sum_values d + 1.
Proof.
  destruct (d !! k) as [v|] eqn:E; simpl.
  - rewrite <- (insert_delete_id d k v) at 2 by exact E.
    rewrite <- insert_delete_eq.
    rewrite !sum_values_insert_fresh by apply lookup_delete_eq. lia.
  - rewrite sum_values_insert_fresh by exact E. lia.
Qed.

Lemma sum_values_empty : sum_values ∅ = 0.
Proof. unfold sum_values. apply map_fold_empty. Qed.

Lemma record_error_total key ety now t :
  total_errors (record_error key ety now t) key = total_errors t key + 1.
Proof.
  unfold record_error, total_errors.
  set (d := default ∅ (error_counts t !! key)).
  assert (Hs := sum_values_bump d ety).
  destruct (sum_values _ >=? error_threshold _) eqn:E; simpl;
    rewrite lookup_insert_eq; simpl; exact Hs.
Qed.

Lemma record_error_config key ety now t :
  error_threshold (record_error key ety now t) = error_threshold t /\
  reset_interval (record_error key ety now t) = reset_interval t.
Proof.
  unfold record_error. simpl.
  destruct (sum_values _ >=? error_threshold t); simpl; auto.
Qed.

Lemma record_error_last key ety now t :
  last_error_time (record_error key ety now t) !! key = Some now.
Proof.
  unfold record_error. simpl.
  destruct (sum_values _ >=? error_threshold t); simpl; apply lookup_insert_eq.
Qed.

Lemma record_error_count key ety now t :
  error_count (record_error key ety now t) key ety = error_count t key ety + 1.
Proof.
  unfold record_error, error_count. simpl.
  destruct (sum_values _ >=? error_threshold t); simpl;
    rewrite !lookup_insert_eq; simpl; rewrite lookup_insert_eq; reflexivity.
Qed.

Lemma record_error_opens key ety now t :
  error_threshold t <= total_errors (record_error key ety now t) key ->
  circuit_open (record_error key ety now t) !! key = Some true.
Proof.
  rewrite record_error_total. unfold record_error, total_errors.
  set (d := default ∅ (error_counts t !! key)).
  rewrite (sum_values_bump d ety). simpl. intros H.
  destruct (sum_values d + 1 >=? error_threshold t) eqn:E; simpl.
  - apply lookup_insert_eq.
  - lia.
Qed.

Lemma record_error_other key ety now t key' :
  key <> key' ->
  error_counts (record_error key ety now t) !! key' = error_counts t !! key' /\
  circuit_open (record_error key ety now t) !! key' = circuit_open t !! key' /\
  last_error_time (record_error key ety now t) !! key' = last_error_time t !! key'.
Proof.
  intros Hne. unfold record_error. simpl.
  destruct (sum_values _ >=? error_threshold t); simpl;
    rewrite ?lookup_insert_ne by exact Hne; auto.
Qed.

Lemma record_errors_snoc key events ev t :
  record_errors key (events ++ [ev]) t =
  record_error key (fst ev) (snd ev) (record_errors key events t).
Proof. unfold record_errors. rewrite fold_left_app. reflexivity. Qed.

Lemma record_errors_total key events t :
  total_errors (record_errors key events t) key =
  total_errors t key + Z.of_nat (length events).
Proof.
  revert t. induction events as [|ev events IH]; intros t; simpl.
  - lia.
  - change (fold_left _ events ?x) with (record_errors key events x).
    rewrite IH, record_error_total. lia.
Qed.

Lemma record_errors_config key events t :
  error_threshold (record_errors key events t) = error_threshold t /\
  reset_interval (record_errors key events t) = reset_interval t.
Proof.
  revert t. induction events as [|ev events IH]; intros t; simpl; auto.
  change (fold_left _ events ?x) with (record_errors key events x).
  destruct (IH (record_error key (fst ev) (snd ev) t)) as [-> ->].
  apply record_error_config.
Qed.

Lemma reset_circuit_closed key t :
  circuit_open t !! key = Some true ->
  circuit_open (reset_circuit key t) !! key = Some false /\
  total_errors (reset_circuit key t) key = 0 /\
  error_threshold (reset_circuit key t) = error_threshold t /\
  reset_interval (reset_circuit key t) = reset_interval t.
Proof.
  intros Ho. unfold reset_circuit, total_errors.
  destruct (error_counts t !! key) as [d|] eqn:Ec; simpl; rewrite Ho; simpl;
    rewrite ?lookup_insert_eq, ?Ec; simpl; auto using sum_values_empty.
Qed.

Lemma check_circuit_not_open key now t :
  circuit_open t !! key <> Some true -> check_circuit key now t = (false, t).
Proof.
  unfold check_circuit. destruct (circuit_open t !! key) as [[|]|]; congruence.
Qed.

(** While fewer than [error_threshold] errors are on record for a closed
    circuit, recording leaves it closed. *)
Lemma record_errors_stay_closed key events t :
  circuit_open t !! key <> Some true ->
  total_errors t key + Z.of_nat (length events) < error_threshold t ->
  circuit_open (record_errors key events t) !! key <> Some true.
Proof.
  revert t. induction events as [|ev events IH]; intros t Hc Hlt; simpl; auto.
  change (fold_left _ events ?x) with (record_errors key events x).
  apply IH.
  - unfold record_error.
    set (d := default ∅ (error_counts t !! key)).
    rewrite (sum_values_bump d (fst ev)). simpl.
    fold (total_errors t key) in *. subst d. fold (total_errors t key).
    destruct (total_errors t key + 1 >=? error_threshold t) eqn:E; simpl.
    + simpl length in Hlt. lia.
    + exact Hc.
  - rewrite record_error_total.
    destruct (record_error_config key (fst ev) (snd ev) t) as [-> _].
    simpl length in Hlt. lia.
Qed.

(** C2: once the errors recorded against a resource total at least
    [error_threshold] (5 by default), [check_circuit] answers [true] for as
    long as no more than [reset_interval] seconds (300 by default) have
    passed since the last recorded error; the first check after that
    interval resets the circuit -- its counts are cleared, it is closed --
    and answers [false]; afterwards the count starts again from zero, the
    circuit staying closed until [error_threshold] new errors are on
    record. *)
Theorem circuit_opens_then_auto_resets
    (t : ErrorTracker) (key : string) (events : list (string * Q))
    (ety : string) (last : Q) :
  let t1 := record_errors key (events ++ [(ety, last)]) t in
  error_threshold t <= total_errors t1 key ->
  total_errors t1 key = total_errors t key + Z.of_nat (length events) + 1 /\
  circuit_open t1 !! key = Some true /\
  (forall now, (now - last <= reset_interval t)%Q ->
     check_circuit key now t1 = (true, t1)) /\
  (forall now, (reset_interval t < now - last)%Q ->
     let t2 := snd (check_circuit key now t1) in
     fst (check_circuit key now t1) = false /\
     error_counts t2 !! key = Some ∅ /\
     circuit_open t2 !! key = Some false /\
     total_errors t2 key = 0 /\
     (forall now', check_circuit key now' t2 = (false, t2)) /\
     (forall more,
        total_errors (record_errors key more t2) key = Z.of_nat (length more)) /\
     (forall more now',
        Z.of_nat (length more) < error_threshold t ->
        fst (check_circuit key now' (record_errors key more t2)) = false)).
Proof.
  intros t1 Hreach. subst t1. rewrite record_errors_snoc in *. simpl fst in *.
  simpl snd in *. set (t0 := record_errors key events t) in *.
  assert (Hthr : error_threshold t0 = error_threshold t)
    by apply record_errors_config.
  assert (Hint : reset_interval t0 = reset_interval t)
    by apply record_errors_config.
  set (t1 := record_error key ety last t0) in *.
  assert (Hopen : circuit_open t1 !! key = Some true).
  { apply record_error_opens. rewrite Hthr. exact Hreach. }
  assert (Hlast : last_error_time t1 !! key = Some last)
    by apply record_error_last.
  assert (Hint1 : reset_interval t1 = reset_interval t).
  { unfold t1. destruct (record_error_config key ety last t0) as [_ ->]. exact Hint. }
  assert (Hthr1 : error_threshold t1 = error_threshold t).
  { unfold t1. destruct (record_error_config key ety last t0) as [-> _]. exact Hthr. }
  split; [|split; [exact Hopen|split]].
  - unfold t1. rewrite record_error_total. unfold t0.
    rewrite record_errors_total. lia.
  - intros now Hnow. unfold check_circuit. rewrite Hopen, Hlast, Hint1.
    apply Qgtb_false in Hnow. rewrite Hnow. reflexivity.
  - intros now Hnow.
    assert (Hcc : check_circuit key now t1 = (false, reset_circuit key t1)).
    { unfold check_circuit. rewrite Hopen, Hlast, Hint1.
      apply Qgtb_true in Hnow. rewrite Hnow. reflexivity. }
    rewrite Hcc. cbn [fst snd].
    destruct (reset_circuit_closed key t1 Hopen) as (Hc & Ht & Hth2 & _).
    set (t2 := reset_circuit key t1) in *.
    assert (Hcounts : error_counts t2 !! key = Some ∅).
    { unfold t2, reset_circuit.
      assert (is_Some (error_counts t1 !! key)) as [d Hd].
      { unfold t1, record_error. simpl.
        destruct (sum_values _ >=? error_threshold t0); simpl;
          rewrite lookup_insert_eq; eauto. }
      rewrite Hd. simpl. rewrite Hopen. simpl. apply lookup_insert_eq. }
    assert (Hnot : circuit_open t2 !! key <> Some true) by (rewrite Hc; discriminate).
    repeat split; auto.
    + intros now'. apply check_circuit_not_open. exact Hnot.
    + intros more. rewrite record_errors_total, Ht. lia.
    + intros more now' Hlt. rewrite check_circuit_not_open; [reflexivity|].
      apply record_errors_stay_closed; [exact Hnot|]. rewrite Ht, Hth2, Hthr1. lia.
Qed.

(** Five errors against a fresh tracker, the last at time 100. *)
Lemma circuit_opens_then_auto_resets_witness :
  total_errors
    (record_errors "dealer.example"
       ([("Timeout", 10%Q); ("Timeout", 20%Q); ("ConnectionError", 30%Q);
         ("HTTPError", 40%Q)] ++ [("Timeout", 100%Q)]) new_tracker)
    "dealer.example" = 5 /\
  check_circuit "dealer.example" 400
    (record_errors "dealer.example"
       ([("Timeout", 10%Q); ("Timeout", 20%Q); ("ConnectionError", 30%Q);
         ("HTTPError", 40%Q)] ++ [("Timeout", 100%Q)]) new_tracker)
  = (true,
     record_errors "dealer.example"
       ([("Timeout", 10%Q); ("Timeout", 20%Q); ("ConnectionError", 30%Q);
         ("HTTPError", 40%Q)] ++ [("Timeout", 100%Q)]) new_tracker).
Proof.
  pose proof (circuit_opens_then_auto_resets new_tracker "dealer.example"
    [("Timeout", 10%Q); ("Timeout", 20%Q); ("ConnectionError", 30%Q);
     ("HTTPError", 40%Q)] "Timeout" 100%Q) as H.
  cbv zeta in H. destruct H as (_ & _ & Hopen & _).
  - vm_compute. discriminate.
  - split.
    + vm_compute. reflexivity.
    + apply Hopen. vm_compute. discriminate.
Defined.

(** ** The retry wrapper *)

Lemma set_tracker_same w : set_tracker (tracker w) w = w.
Proof. destruct w; reflexivity. Qed.

Lemma check_circuit_true_same key now t t' :
  check_circuit key now t = (true, t') -> t' = t.
Proof.
  unfold check_circuit.
  destruct (circuit_open t !! key) as [[|]|]; try discriminate.
  destruct (last_error_time t !! key) as [last|]; [|congruence].
  destruct (Qgtb _ _); congruence.
Qed.

Lemma check_circuit_config key now t :
  error_threshold (snd (check_circuit key now t)) = error_threshold t /\
  reset_interval (snd (check_circuit key now t)) = reset_interval t.
Proof.
  unfold check_circuit.
  destruct (circuit_open t !! key) as [[|]|] eqn:Ho; simpl; auto.
  destruct (last_error_time t !! key) as [last|]; simpl; auto.
  destruct (Qgtb _ _); simpl; auto.
  destruct (reset_circuit_closed key t Ho) as (_ & _ & -> & ->). auto.
Qed.

Section RetryFacts.

Context {A : Type}.
Variable max_retries : Z.
Variables initial_backoff backoff_factor max_backoff : Q.
Variable retry_exceptions : list exn_class.
Variable urandom : nat -> Z.
Variable func_name : string.
Variable func : list string -> gmap string string -> World -> outcome A * World.

Let loop := retry_loop (A:=A) max_retries backoff_factor max_backoff
  retry_exceptions urandom func.
Let wrapper := retry_with_backoff (A:=A) max_retries initial_backoff
  backoff_factor max_backoff retry_exceptions urandom func_name func.

(** With the errors from number [r] on still to come and enough retries
    left, the loop returns the value after the remaining invocations; in
    between it touches the tracker only through the function. *)
Lemma retry_loop_succeeds key args kwargs c0 errors v :
  fails_with_then_succeeds func retry_exceptions args kwargs c0 errors v ->
  Z.of_nat (length errors) <= max_retries ->
  forall j r fuel backoff w,
    (r + j = length errors)%nat -> (j < fuel)%nat -> calls w = (c0 + r)%nat ->
    exists w', loop fuel key args kwargs (Z.of_nat r) backoff w
                 = Some (Returned v, w') /\
      calls w' = (c0 + length errors + 1)%nat /\
      forall P, kept_by func args kwargs P -> P (tracker w) -> P (tracker w').
Proof.
  intros [Hfail Hok] Hmax. induction j as [|j IH]; intros r fuel backoff w Hr Hf Hc.
  - destruct fuel as [|fuel]; [lia|]. simpl.
    destruct (Hok (count_call w)) as (w' & Hfn & Hc'); [simpl; lia|].
    rewrite Hfn. exists w'. split; [reflexivity|]. split; [simpl in Hc'; lia|].
    intros P HP Hw. specialize (HP (count_call w) Hw). rewrite Hfn in HP. exact HP.
  - destruct fuel as [|fuel]; [lia|]. simpl.
    destruct (lookup_lt_is_Some_2 errors r) as [e He]; [lia|].
    destruct (Hfail r e (count_call w) He) as (w1 & Hfn & Hre & Hc'); [simpl; lia|].
    rewrite Hfn, Hre.
    destruct (Z.of_nat r + 1 >? max_retries) eqn:E; [lia|].
    replace (Z.of_nat r + 1) with (Z.of_nat (S r)) by lia.
    edestruct (IH (S r) fuel) as (w' & Hl & Hcw & Hkept); [lia|lia| |].
    2:{ exists w'. split; [exact Hl|]. split; [exact Hcw|].
        intros P HP Hw. apply (Hkept P HP). simpl.
        specialize (HP (count_call w) Hw). rewrite Hfn in HP. exact HP. }
    simpl. simpl in Hc'. lia.
Qed.

(** With fewer retries allowed than errors to come, the loop gives up at
    invocation [max_retries + 1]: it raises the error of that invocation,
    having recorded it -- the one thing it does to the tracker itself. *)
Lemma retry_loop_exhausts key args kwargs c0 errors v :
  fails_with_then_succeeds func retry_exceptions args kwargs c0 errors v ->
  max_retries < Z.of_nat (length errors) ->
  forall fuel r backoff w,
    Z.of_nat fuel = max_retries + 1 - Z.of_nat r ->
    (0 < fuel)%nat -> calls w = (c0 + r)%nat ->
    exists e w_last,
      errors !! Z.to_nat max_retries = Some e /\
      loop fuel key args kwargs (Z.of_nat r) backoff w
        = Some (Raised e, world_record_error key (type_name e) w_last) /\
      calls w_last = (c0 + Z.to_nat max_retries + 1)%nat /\
      forall P, kept_by func args kwargs P -> P (tracker w) -> P (tracker w_last).
Proof.
  intros [Hfail _] Hmax. induction fuel as [|fuel IH]; intros r backoff w Hf Hpos Hc.
  - lia.
  - simpl.
    destruct (lookup_lt_is_Some_2 errors r) as [e He]; [lia|].
    destruct (Hfail r e (count_call w) He) as (w1 & Hfn & Hre & Hc'); [simpl; lia|].
    rewrite Hfn, Hre. simpl in Hc'.
    assert (Hkeep : forall P, kept_by func args kwargs P ->
              P (tracker w) -> P (tracker w1)).
    { intros P HP Hw. specialize (HP (count_call w) Hw).
      rewrite Hfn in HP. exact HP. }
    destruct (Z.of_nat r + 1 >? max_retries) eqn:E.
    + exists e, w1. replace (Z.to_nat max_retries) with r by lia.
      split; [exact He|]. split; [reflexivity|]. split; [lia|exact Hkeep].
    + replace (Z.of_nat r + 1) with (Z.of_nat (S r)) by lia.
      edestruct (IH (S r)) as (e' & w_last & He' & Hl & Hcw & Hkept); [lia|lia| |].
      2:{ exists e', w_last. split; [exact He'|]. split; [exact Hl|].
          split; [exact Hcw|].
          intros P HP Hw. apply (Hkept P HP). simpl. apply (Hkeep P HP Hw). }
      simpl. lia.
Qed.

(** Whatever the function raises, the loop ends by raising, with exactly
    one error recorded. *)
Lemma retry_loop_always_fails key args kwargs :
  always_fails func args kwargs ->
  forall fuel retries backoff w,
    (0 < fuel)%nat -> max_retries + 1 - retries <= Z.of_nat fuel ->
    exists e w', loop fuel key args kwargs retries backoff w
                   = Some (Raised e, w') /\
      tracker w' = record_error key (type_name e) (clock w') (tracker w).
Proof.
  intros Hfail. induction fuel as [|fuel IH]; intros retries backoff w Hpos Hf.
  - lia.
  - simpl. destruct (Hfail (count_call w)) as (e & w1 & -> & Ht & Hc').
    simpl in Ht.
    destruct (isinstance e retry_exceptions).
    + destruct (retries + 1 >? max_retries) eqn:E.
      * exists e, (world_record_error key (type_name e) w1).
        split; [reflexivity|]. simpl. rewrite Ht. reflexivity.
      * edestruct (IH (retries + 1)) as (e' & w' & Hl & Htw); [lia|lia|].
        exists e', w'. split; [exact Hl|]. rewrite Htw. simpl.
        rewrite Ht. reflexivity.
    + exists e, (world_record_error key (type_name e) w1).
      split; [reflexivity|]. simpl. rewrite Ht. reflexivity.
Qed.

(** C1: a wrapped function that raises retry exceptions on its first
    invocations -- the errors [errors], one after another -- and then
    succeeds, called while its circuit is closed.

    If [max_retries] is at least the number of errors, the wrapper returns
    the success value after exactly that many invocations plus one, and
    records nothing: any property of the tracker that the function's own
    invocations keep holds afterwards, so for a function that leaves the
    tracker alone the tracker is as [check_circuit] left it.

    If [max_retries] is less (and not negative), the wrapper raises after
    exactly [max_retries + 1] invocations, and what it raises is the error
    of the last of them.  It has recorded that error, once, after that
    invocation and not before: up to the last invocation the tracker has
    changed only through the function's own invocations, and the record
    adds one to the resource's error total and to its count for the class
    of the error, and sets its last error time.  For a function that leaves
    the tracker alone the whole call has added exactly one error. *)
Theorem retry_returns_or_exhausts
    (args : list string) (kwargs : gmap string string) (w : World)
    (errors : list exn) (v : A) :
  let key := fst (pop_resource_key func_name kwargs) in
  let kwargs' := snd (pop_resource_key func_name kwargs) in
  let t0 := snd (check_circuit key (clock w) (tracker w)) in
  fst (check_circuit key (clock w) (tracker w)) = false ->
  fails_with_then_succeeds func retry_exceptions args kwargs' (calls w) errors v ->
  (Z.of_nat (length errors) <= max_retries ->
     exists w', wrapper args kwargs w = Some (Returned v, w') /\
       calls w' = (calls w + length errors + 1)%nat /\
       (forall P, kept_by func args kwargs' P -> P t0 -> P (tracker w')) /\
       ((forall w0, tracker (snd (func args kwargs' w0)) = tracker w0) ->
        tracker w' = t0)) /\
  (0 <= max_retries < Z.of_nat (length errors) ->
     exists e w_last w',
       errors !! Z.to_nat max_retries = Some e /\
       wrapper args kwargs w = Some (Raised e, w') /\
       calls w' = (calls w + Z.to_nat max_retries + 1)%nat /\
       (forall P, kept_by func args kwargs' P -> P t0 -> P (tracker w_last)) /\
       tracker w' = record_error key (type_name e) (clock w') (tracker w_last) /\
       total_errors (tracker w') key = total_errors (tracker w_last) key + 1 /\
       error_count (tracker w') key (type_name e)
         = error_count (tracker w_last) key (type_name e) + 1 /\
       last_error_time (tracker w') !! key = Some (clock w') /\
       ((forall w0, tracker (snd (func args kwargs' w0)) = tracker w0) ->
        tracker w_last = t0 /\
        total_errors (tracker w') key = total_errors t0 key + 1)).
Proof.
  intros key kwargs' t0 Hclosed Hscript.
  unfold wrapper, retry_with_backoff, world_check_circuit.
  change (pop_resource_key func_name kwargs) with (key, kwargs').
  cbn iota beta.
  destruct (check_circuit key (clock w) (tracker w)) as [is_open t] eqn:Hcc.
  simpl in Hclosed, t0. subst is_open t0.
  assert (Hneutral : (forall w0, tracker (snd (func args kwargs' w0)) = tracker w0) ->
            kept_by func args kwargs' (fun t' => t' = t)).
  { intros Hn w0 Hw0. rewrite Hn. exact Hw0. }
  split.
  - intros Hk.
    destruct (retry_loop_succeeds key args kwargs' (calls w) errors v Hscript Hk
                (length errors) 0%nat (S (Z.to_nat max_retries)) initial_backoff
                (set_tracker t w)) as (w' & Hl & Hc & Hkept);
      [lia|lia|simpl; lia|].
    exists w'. split; [exact Hl|]. split; [exact Hc|]. split; [exact Hkept|].
    intros Hn. apply (Hkept _ (Hneutral Hn)). reflexivity.
  - intros [H0 Hk].
    destruct (retry_loop_exhausts key args kwargs' (calls w) errors v Hscript Hk
                (S (Z.to_nat max_retries)) 0%nat initial_backoff
                (set_tracker t w)) as (e & w_last & He & Hl & Hc & Hkept);
      [lia|lia|simpl; lia|].
    exists e, w_last, (world_record_error key (type_name e) w_last).
    split; [exact He|]. split; [exact Hl|]. split; [exact Hc|].
    split; [exact Hkept|]. simpl.
    split; [reflexivity|]. split; [apply record_error_total|].
    split; [apply record_error_count|]. split; [apply record_error_last|].
    intros Hn. assert (Ht : tracker w_last = t).
    { apply (Hkept _ (Hneutral Hn)). reflexivity. }
    split; [exact Ht|]. rewrite record_error_total, Ht. reflexivity.
Qed.

(** C6: when [check_circuit] reports the resource's circuit open, the
    wrapper raises [CircuitOpenException] and leaves the process as it
    was: the wrapped function is not invoked and nothing is recorded.
    The class is one of its own: it is no subclass of any other class and
    no other class is a subclass of it, so a handler for it catches
    nothing else and the retry tuple does not catch it. *)
Theorem open_circuit_fails_fast
    (args : list string) (kwargs : gmap string string) (w : World) :
  let key := fst (pop_resource_key func_name kwargs) in
  fst (check_circuit key (clock w) (tracker w)) = true ->
  wrapper args kwargs w = Some (Raised (circuit_open_exn key), w) /\
  exc_class (circuit_open_exn key) = CircuitOpenException /\
  isinstance (circuit_open_exn key) default_retry_exceptions = false /\
  (forall c, issubclass c CircuitOpenException = true -> c = CircuitOpenException) /\
  (forall c, issubclass CircuitOpenException c = true -> c = CircuitOpenException).
Proof.
  intros key Hopen.
  unfold wrapper, retry_with_backoff, world_check_circuit.
  change (pop_resource_key func_name kwargs)
    with (key, snd (pop_resource_key func_name kwargs)).
  cbn iota beta.
  destruct (check_circuit key (clock w) (tracker w)) as [is_open t] eqn:Hcc.
  simpl in Hopen. subst is_open.
  apply check_circuit_true_same in Hcc. subst t. rewrite set_tracker_same.
  repeat split; auto.
  - intros c. destruct c; simpl; congruence.
  - intros c. destruct c; simpl; congruence.
Qed.

(** C10: a call without the [_resource_key] keyword is keyed by the
    function's name.  Whatever its arguments (its target), a call that
    fails adds one to the error count of that one circuit; and once the
    count has reached the threshold, every later call without
    [_resource_key] -- whatever its arguments -- made before the reset
    interval has passed raises [CircuitOpenException] without
    invoking the function. *)
Theorem default_key_shares_one_circuit
    (args1 : list string) (kwargs1 : gmap string string) (w1 : World) :
  kwargs1 !! "_resource_key"%string = None ->
  pop_resource_key func_name kwargs1 = (func_name, kwargs1) /\
  (fst (check_circuit func_name (clock w1) (tracker w1)) = false ->
   always_fails func args1 kwargs1 ->
   exists e w1',
     wrapper args1 kwargs1 w1 = Some (Raised e, w1') /\
     total_errors (tracker w1') func_name =
       total_errors (snd (check_circuit func_name (clock w1) (tracker w1)))
         func_name + 1 /\
     (error_threshold (tracker w1') <= total_errors (tracker w1') func_name ->
      forall args2 kwargs2 w2,
        kwargs2 !! "_resource_key"%string = None ->
        tracker w2 = tracker w1' ->
        (clock w2 - clock w1' <= reset_interval (tracker w1'))%Q ->
        wrapper args2 kwargs2 w2
          = Some (Raised (circuit_open_exn func_name), w2))).
Proof.
  intros Hk1.
  assert (Hpop : forall kw, kw !! "_resource_key"%string = None ->
            pop_resource_key func_name kw = (func_name, kw)).
  { intros kw Hkw. unfold pop_resource_key. rewrite Hkw. simpl.
    rewrite delete_id by exact Hkw. reflexivity. }
  split; [apply Hpop; exact Hk1|].
  intros Hclosed Hfail.
  unfold wrapper at 1. unfold retry_with_backoff, world_check_circuit.
  rewrite (Hpop _ Hk1). cbn iota beta.
  destruct (check_circuit func_name (clock w1) (tracker w1)) as [is_open t] eqn:Hcc.
  simpl in Hclosed. subst is_open. simpl snd.
  destruct (retry_loop_always_fails func_name args1 kwargs1 Hfail
              (S (Z.to_nat max_retries)) 0 initial_backoff (set_tracker t w1))
    as (e & w1' & Hl & Ht); [lia|lia|].
  exists e, w1'. split; [exact Hl|]. simpl in Ht.
  split; [rewrite Ht; apply record_error_total|].
  intros Hthr args2 kwargs2 w2 Hk2 Htr Hclk.
  unfold wrapper, retry_with_backoff, world_check_circuit.
  rewrite (Hpop _ Hk2). cbn iota beta.
  assert (Hcc2 : check_circuit func_name (clock w2) (tracker w2) = (true, tracker w2)).
  { rewrite Htr. unfold check_circuit.
    assert (Ho : circuit_open (tracker w1') !! func_name = Some true).
    { rewrite Ht in Hthr |- *. apply record_error_opens.
      destruct (record_error_config func_name (type_name e) (clock w1') t)
        as [Hc _]. rewrite Hc in Hthr. exact Hthr. }
    rewrite Ho.
    assert (Hlast : last_error_time (tracker w1') !! func_name = Some (clock w1')).
    { rewrite Ht. apply record_error_last. }
    rewrite Hlast. apply Qgtb_false in Hclk. rewrite Hclk. reflexivity. }
  rewrite Hcc2. rewrite set_tracker_same. reflexivity.
Qed.

End RetryFacts.

(** The self-test function is such a function: it raises [n] connection
    errors, then succeeds. *)
Lemma test_function_script n args kwargs :
  fails_with_then_succeeds (test_function n) default_retry_exceptions
    args kwargs 0
    (replicate n (mkExn RequestsConnectionError "Simulated connection error" 0))
    "Success!"%string.
Proof.
  split.
  - intros i e w He Hc. apply lookup_replicate in He as [-> Hi].
    unfold test_function.
    destruct (Nat.leb_spec (calls w) n) as [_|Hgt]; [|lia].
    exists w. repeat split; reflexivity.
  - intros w Hc. rewrite length_replicate in Hc. unfold test_function.
    destruct (Nat.leb_spec (calls w) n) as [Hle|_]; [lia|].
    exists w. repeat split; reflexivity.
Qed.

(** The self-test of [error_handler.py]: with [max_retries=3], a function
    that fails twice succeeds on its third invocation and nothing is
    recorded; one that fails five times is given up after four, with what
    it raised re-raised and one error on record. *)
Lemma retry_returns_or_exhausts_witness :
  (exists w',
     retry_with_backoff 3 1 2 30 default_retry_exceptions (fun _ => 0)
       "test_function" (test_function 2) [] ∅ initial_world
     = Some (Returned "Success!"%string, w') /\
     calls w' = 3%nat /\ tracker w' = new_tracker) /\
  (exists w',
     retry_with_backoff 3 1 2 30 default_retry_exceptions (fun _ => 0)
       "test_function" (test_function 5) [] ∅ initial_world
     = Some (Raised (mkExn RequestsConnectionError "Simulated connection error" 0),
             w') /\
     calls w' = 4%nat /\
     total_errors (tracker w') "test_function" = 1 /\
     error_count (tracker w') "test_function" "ConnectionError" = 1).
Proof.
  assert (Hneutral : forall n w0,
            tracker (snd (test_function n [] ∅ w0)) = tracker w0).
  { intros n w0. unfold test_function. destruct (calls w0 <=? n)%nat; reflexivity. }
  split.
  - pose proof (retry_returns_or_exhausts 3 1 2 30 default_retry_exceptions
      (fun _ => 0) "test_function" (test_function 2) [] ∅ initial_world
      (replicate 2 (mkExn RequestsConnectionError "Simulated connection error" 0))
      "Success!"%string) as H.
    cbv zeta in H. destruct H as [H _].
    + vm_compute. reflexivity.
    + apply test_function_script.
    + destruct H as (w' & Hw & Hc & _ & Ht); [simpl; lia|].
      exists w'. split; [exact Hw|]. split; [exact Hc|]. apply Ht, Hneutral.
  - pose proof (retry_returns_or_exhausts 3 1 2 30 default_retry_exceptions
      (fun _ => 0) "test_function" (test_function 5) [] ∅ initial_world
      (replicate 5 (mkExn RequestsConnectionError "Simulated connection error" 0))
      "Success!"%string) as H.
    cbv zeta in H. destruct H as [_ H].
    + vm_compute. reflexivity.
    + apply test_function_script.
    + destruct H as (e & w_last & w' & He & Hw & Hc & _ & _ & _ & Hcnt & _ & Hn);
        [simpl; lia|].
      injection He as <-.
      destruct (Hn (Hneutral 5%nat)) as [Hlast Htot].
      exists w'. split; [exact Hw|]. split; [exact Hc|].
      split; [exact Htot|].
      rewrite Hlast in Hcnt. exact Hcnt.
Defined.

(** A tracker on which five errors were recorded against
    ["test_function"], the last at time 100. *)
Lemma open_circuit_fails_fast_witness :
  retry_with_backoff 3 1 2 30 default_retry_exceptions (fun _ => 0)
    "test_function" (test_function 0) [] ∅
    (mkWorld
       (record_errors "test_function"
          [("ConnectionError", 10%Q); ("ConnectionError", 20%Q);
           ("ConnectionError", 30%Q); ("ConnectionError", 40%Q);
           ("ConnectionError", 100%Q)] new_tracker) 150 0 7)
  = Some (Raised (circuit_open_exn "test_function"),
          mkWorld
            (record_errors "test_function"
               [("ConnectionError", 10%Q); ("ConnectionError", 20%Q);
                ("ConnectionError", 30%Q); ("ConnectionError", 40%Q);
                ("ConnectionError", 100%Q)] new_tracker) 150 0 7).
Proof.
  pose proof (open_circuit_fails_fast 3 1 2 30 default_retry_exceptions
    (fun _ => 0) "test_function" (test_function 0) [] ∅
    (mkWorld
       (record_errors "test_function"
          [("ConnectionError", 10%Q); ("ConnectionError", 20%Q);
           ("ConnectionError", 30%Q); ("ConnectionError", 40%Q);
           ("ConnectionError", 100%Q)] new_tracker) 150 0 7)) as H.
  cbv zeta in H. destruct H as [H _].
  - vm_compute. reflexivity.
  - exact H.
Defined.

(** Four failures are on record for ["fetch"]; a fifth call, against
    another target, fails too and opens the circuit for a sixth call
    against a third target. *)
Lemma default_key_shares_one_circuit_witness :
  exists e w1',
    retry_with_backoff 1 1 2 30 default_retry_exceptions (fun _ => 0) "fetch"
      (always_raises (mkExn ReadTimeout "timed out" 0))
      ["https://five.example"%string] ∅
      (mkWorld
         (record_errors "fetch"
            [("ReadTimeout", 10%Q); ("ReadTimeout", 20%Q);
             ("ReadTimeout", 30%Q); ("ReadTimeout", 40%Q)] new_tracker)
         50 0 0)
    = Some (Raised e, w1') /\
    retry_with_backoff 1 1 2 30 default_retry_exceptions (fun _ => 0) "fetch"
      (always_raises (mkExn ReadTimeout "timed out" 0))
      ["https://six.example"%string] ∅ w1'
    = Some (Raised (circuit_open_exn "fetch"), w1').
Proof.
  pose proof (default_key_shares_one_circuit 1 1 2 30 default_retry_exceptions
    (fun _ => 0) "fetch" (always_raises (mkExn ReadTimeout "timed out" 0))
    ["https://five.example"%string] ∅
    (mkWorld
       (record_errors "fetch"
          [("ReadTimeout", 10%Q); ("ReadTimeout", 20%Q);
           ("ReadTimeout", 30%Q); ("ReadTimeout", 40%Q)] new_tracker)
       50 0 0)) as H.
  destruct H as [_ H]; [reflexivity|].
  destruct H as (e & w1' & Hl & _ & Hopen).
  - vm_compute. reflexivity.
  - intros w. exists (mkExn ReadTimeout "timed out" 0), w.
    repeat split; reflexivity.
  - exists e, w1'. split; [exact Hl|].
    apply Hopen.
    + vm_compute in Hl. injection Hl as _ Hw. subst w1'.
      vm_compute. discriminate.
    + reflexivity.
    + reflexivity.
    + vm_compute in Hl. injection Hl as _ Hw. subst w1'.
      vm_compute. discriminate.
Defined.

(** ** Phone numbers *)

Lemma PyStr_len_length s : PyStr.len s = Z.of_nat (String.length s).
Proof. reflexivity. Qed.

Lemma PyStr_truthy_length s : (0 < String.length s)%nat -> PyStr.truthy s = true.
Proof. destruct s; simpl; [lia|reflexivity]. Qed.

(** C7 as stated fails: a match without area code is accepted as seven
    digits. *)
Lemma format_phone_number_accepts_seven_digits :
  ~ (forall p r, StaffExtractor._format_phone_number p = Some r ->
       String.length r = 10%nat \/
       (String.length r = 11%nat /\ PyStr.startswith "1" r = true)).
Proof.
  intros H.
  destruct (H (PTuple [""; "555"; "1234"]%string) "5551234"%string eq_refl)
    as [Hl|[Hl _]]; discriminate Hl.
Qed.

(** The characters of a string, joined, are the string. *)
Lemma PyStr_join_chars s :
  PyStr.join ((fun c => String c EmptyString) <$> list_ascii_of_string s) = s.
Proof.
  induction s as [|c r IH]; [reflexivity|].
  change (String c (PyStr.join
            ((fun c => String c EmptyString) <$> list_ascii_of_string r))
          = String c r).
  rewrite IH. reflexivity.
Qed.

(** [StaffExtractor._format_phone_number] on a string: the last ten of its
    digits, when it has that many. *)
Lemma staff_format_phone_string s :
  StaffExtractor._format_phone_number (PStr s)
  = if PyStr.len (digits_of s) >=? 10
    then Some (PyStr.last_n 10 (digits_of s)) else None.
Proof.
  unfold StaffExtractor._format_phone_number. set (d := digits_of s).
  rewrite !PyStr_len_length.
  destruct (Z.of_nat (String.length d) >=? 10) eqn:E10; [|reflexivity].
  unfold PyStr.last_n.
  destruct (Z.of_nat (String.length d) =? 10) eqn:Eeq.
  { replace (String.length d - 10)%nat with 0%nat by lia. reflexivity. }
  destruct (Z.of_nat (String.length d) =? 11) eqn:E11; simpl; [|reflexivity].
  replace (String.length d - 10)%nat with 1%nat by lia.
  destruct (PyStr.startswith "1" d); reflexivity.
Qed.

(** [ContactExtractor._format_phone_number] on a string, which it takes
    for a sequence of parts: its characters. *)
Lemma contact_format_phone_string s :
  ContactExtractor._format_phone_number (PStr s)
  = if (String.length s =? 3)%nat then Some s
    else if PyStr.len s >=? 10 then Some (PyStr.last_n 10 s) else None.
Proof.
  destruct (String.length s =? 3)%nat eqn:E.
  - apply Nat.eqb_eq in E.
    destruct s as [|a [|b [|c [|d r]]]]; try discriminate E. reflexivity.
  - assert (H : ContactExtractor._format_phone_number (PStr s)
                = format_raw (ContactExtractor.items (PStr s))).
    { destruct s as [|a [|b [|c [|d r]]]]; try reflexivity. discriminate E. }
    rewrite H. unfold format_raw, ContactExtractor.items.
    rewrite PyStr_join_chars. reflexivity.
Qed.

(** C7, amended.  Given as strings, ["12165551234"] becomes
    ["2165551234"], ["2165551234"] is unchanged and ["5551234"] is
    rejected, in both extractors.

    Whatever string [StaffExtractor._format_phone_number] accepts is
    normalized to exactly ten digits, never eleven: it accepts a string
    just when it holds ten digits or more, and returns the last ten of
    them.

    [ContactExtractor._format_phone_number] removes nothing from a string:
    it returns a string of three characters as it is and the last ten
    characters of a string of ten or more, and rejects every other; so
    what it accepts has three or ten characters, which need not be
    digits.

    The groups of a pattern match give, in both extractors, ten digits
    when the area code is there and the seven digits of prefix and line
    when it is not. *)
Theorem format_phone_number_spec :
  (StaffExtractor._format_phone_number (PStr "12165551234") = Some "2165551234"%string /\
   StaffExtractor._format_phone_number (PStr "2165551234") = Some "2165551234"%string /\
   StaffExtractor._format_phone_number (PStr "5551234") = None) /\
  (ContactExtractor._format_phone_number (PStr "12165551234") = Some "2165551234"%string /\
   ContactExtractor._format_phone_number (PStr "2165551234") = Some "2165551234"%string /\
   ContactExtractor._format_phone_number (PStr "5551234") = None) /\
  (forall s r, StaffExtractor._format_phone_number (PStr s) = Some r ->
     String.length r = 10%nat /\ PyStr.all_chars PyStr.is_digit r = true) /\
  (forall area_code prefix line, regex_groups area_code prefix line ->
     let r := (area_code ++ prefix ++ line)%string in
     StaffExtractor._format_phone_number (PTuple [area_code; prefix; line]) = Some r /\
     ContactExtractor._format_phone_number (PTuple [area_code; prefix; line]) = Some r /\
     PyStr.all_chars PyStr.is_digit r = true /\
     String.length r = (if PyStr.truthy area_code then 10 else 7)%nat) /\
  (forall s, StaffExtractor._format_phone_number (PStr s)
     = if PyStr.len (digits_of s) >=? 10
       then Some (PyStr.last_n 10 (digits_of s)) else None) /\
  (forall s, ContactExtractor._format_phone_number (PStr s)
     = if (String.length s =? 3)%nat then Some s
       else if PyStr.len s >=? 10 then Some (PyStr.last_n 10 s) else None) /\
  (forall s r, ContactExtractor._format_phone_number (PStr s) = Some r ->
     String.length r = 3%nat \/ String.length r = 10%nat) /\
  (ContactExtractor._format_phone_number (PStr "(216) 555-1234")
     = Some ") 555-1234"%string /\
   ContactExtractor._format_phone_number (PStr "abc") = Some "abc"%string /\
   StaffExtractor._format_phone_number (PStr "(216) 555-1234")
     = Some "2165551234"%string /\
   StaffExtractor._format_phone_number (PStr "abc") = None).
Proof.
  split; [repeat split; reflexivity|].
  split; [repeat split; reflexivity|].
  split; [|split; [|split; [|split; [|split]]]].
  - intros s r. rewrite staff_format_phone_string.
    set (d := digits_of s).
    assert (Hd : PyStr.all_chars PyStr.is_digit d = true)
      by apply PyStr_all_chars_filter.
    rewrite PyStr_len_length.
    destruct (Z.of_nat (String.length d) >=? 10) eqn:E10; [|discriminate].
    intros [= <-]. split.
    + apply PyStr_length_last_n. lia.
    + apply PyStr_all_chars_drop. exact Hd.
  - intros a p l (Ha & Hp & Hpd & Hl & Hld) r.
    assert (Htp : PyStr.truthy p = true) by (apply PyStr_truthy_length; lia).
    assert (Htl : PyStr.truthy l = true) by (apply PyStr_truthy_length; lia).
    assert (H3 : format_three a p l = Some r).
    { unfold format_three. rewrite Htp, Htl, !PyStr_len_length, Hp, Hl.
      destruct Ha as [-> | [Hla _]]; [reflexivity|].
      rewrite (PyStr_truthy_length a) by lia. reflexivity. }
    split.
    { unfold StaffExtractor._format_phone_number. rewrite H3. reflexivity. }
    split.
    { unfold ContactExtractor._format_phone_number, ContactExtractor.items.
      rewrite H3. reflexivity. }
    subst r. rewrite !PyStr_all_chars_app, !PyStr_length_app, Hpd, Hld, Hp, Hl.
    destruct Ha as [-> | [Hla Hda]]; [split; reflexivity|].
    rewrite Hda, Hla, (PyStr_truthy_length a) by lia. split; reflexivity.
  - apply staff_format_phone_string.
  - apply contact_format_phone_string.
  - intros s r. rewrite contact_format_phone_string.
    destruct (String.length s =? 3)%nat eqn:E.
    + apply Nat.eqb_eq in E. intros [= <-]. left. exact E.
    + rewrite PyStr_len_length.
      destruct (Z.of_nat (String.length s) >=? 10) eqn:E10; [|discriminate].
      intros [= <-]. right. apply PyStr_length_last_n. lia.
  - repeat split; reflexivity.
Qed.

Lemma format_phone_number_spec_witness :
  (String.length "2165551234" = 10%nat /\
   PyStr.all_chars PyStr.is_digit "2165551234" = true) /\
  StaffExtractor._format_phone_number (PTuple [""; "555"; "1234"]%string)
    = Some "5551234"%string /\
  (String.length ") 555-1234" = 3%nat \/ String.length ") 555-1234" = 10%nat).
Proof.
  destruct format_phone_number_spec as (_ & _ & Hstr & Htup & _ & _ & Hcon & _).
  split; [|split].
  - apply (Hstr "(216) 555-1234"%string). reflexivity.
  - apply (Htup ""%string "555"%string "1234"%string).
    repeat split; auto.
  - apply (Hcon "(216) 555-1234"%string). reflexivity.
Defined.

(** ** Staff de-duplication *)

Lemma in_seen_empty o : in_seen o ∅ = false.
Proof.
  destruct o as [s|]; simpl; [|reflexivity].
  rewrite bool_decide_eq_false_2 by set_solver. apply andb_false_r.
Qed.

Lemma in_seen_add o seen : PyStr.otruthy o = true -> in_seen o (add_seen o seen) = true.
Proof.
  destruct o as [s|]; simpl; [|discriminate]. intros ->. simpl.
  apply bool_decide_eq_true_2. set_solver.
Qed.

Lemma in_seen_mono o o' seen :
  in_seen o seen = true -> in_seen o (add_seen o' seen) = true.
Proof.
  destruct o as [s|]; simpl; [|discriminate].
  intros H. apply andb_prop in H as [-> H]. simpl.
  apply bool_decide_eq_true in H. apply bool_decide_eq_true_2.
  destruct o' as [s'|]; simpl; [|exact H].
  destruct (PyStr.truthy s'); set_solver.
Qed.

(** A candidate whose e-mail has been seen is skipped. *)
Lemma dedup_step_seen_email st staff :
  in_seen (email staff) (seen_emails st) = true -> dedup_step st staff = st.
Proof. intros H. unfold dedup_step. rewrite H. reflexivity. Qed.

(** An e-mail once seen stays seen. *)
Lemma dedup_step_keeps_emails st staff o :
  in_seen o (seen_emails st) = true ->
  in_seen o (seen_emails (dedup_step st staff)) = true.
Proof.
  intros H. unfold dedup_step.
  destruct (in_seen (email staff) (seen_emails st)); [exact H|].
  destruct (in_seen (name staff) (seen_names st)); simpl; [exact H|].
  apply in_seen_mono. exact H.
Qed.

Lemma dedup_fold_keeps_emails l st o :
  in_seen o (seen_emails st) = true ->
  in_seen o (seen_emails (fold_left dedup_step l st)) = true.
Proof.
  revert st. induction l as [|x l IH]; intros st H; simpl; [exact H|].
  apply IH, dedup_step_keeps_emails, H.
Qed.

(** C3 as stated fails: of two candidates with one e-mail the first is
    kept as it is, although the second has the higher score and a phone
    number the first lacks; swapping them changes the result. *)
Lemma dedup_same_email_keeps_first :
  _deduplicate_staff [pat_from_card; pat_from_footer] = [pat_from_card] /\
  _deduplicate_staff [pat_from_footer; pat_from_card] = [pat_from_footer] /\
  (confidence pat_from_card < confidence pat_from_footer)%Q /\
  phone pat_from_card = None /\
  phone pat_from_footer = Some "2165551234"%string /\
  _deduplicate_staff [pat_from_card; pat_from_footer]
    <> _deduplicate_staff [pat_from_footer; pat_from_card].
Proof.
  assert (H1 : _deduplicate_staff [pat_from_card; pat_from_footer] = [pat_from_card])
    by (vm_compute; reflexivity).
  assert (H2 : _deduplicate_staff [pat_from_footer; pat_from_card] = [pat_from_footer])
    by (vm_compute; reflexivity).
  split; [exact H1|]. split; [exact H2|].
  split; [reflexivity|]. split; [reflexivity|]. split; [reflexivity|].
  rewrite H1, H2. discriminate.
Qed.

(** A candidate that enters the output as a new entry registers its
    e-mail. *)
Lemma dedup_step_new_entry st staff :
  in_seen (email staff) (seen_emails st) = false ->
  in_seen (name staff) (seen_names st) = false ->
  dedup_step st staff
    = mkDedup (unique_staff st ++ [staff]) (add_seen (name staff) (seen_names st))
        (add_seen (email staff) (seen_emails st)).
Proof. intros He Hn. unfold dedup_step. rewrite He, Hn. reflexivity. Qed.

(** A candidate merged into the entry of its name does not. *)
Lemma dedup_step_merged st staff :
  in_seen (email staff) (seen_emails st) = false ->
  in_seen (name staff) (seen_names st) = true ->
  dedup_step st staff
    = mkDedup (merge_by_name staff (unique_staff st)) (seen_names st) (seen_emails st).
Proof. intros He Hn. unfold dedup_step. rewrite He, Hn. reflexivity. Qed.

(** C3, amended.  [st] is the loop's state when it reaches [a], the first
    of two candidates [a] and [b] with one non-empty e-mail.

    - If [a] enters the output as a new entry (neither its e-mail nor its
      name has been seen), its e-mail is registered and [b] is skipped:
      the output is the output for the input without [b], whatever the two
      confidence scores and whatever fields either lacks.
    - If the e-mail had been registered before, [a] and [b] are both
      skipped.
    - If [a] is merged into the entry of its name, the e-mail is not
      registered; a later [b] of a new name is then not skipped: it enters
      the output as a new entry, after the merged one.
    - An input of just the two gives the first of them, unchanged.
    - On the sample page, of three candidates the last two of which share
      an e-mail, both of these come out. *)
Theorem dedup_drops_later_email_duplicate
    (pre mid post : list StaffMember) (a b : StaffMember) :
  let st := fold_left dedup_step pre (mkDedup [] ∅ ∅) in
  PyStr.otruthy (email a) = true ->
  email b = email a ->
  (in_seen (email a) (seen_emails st) = false ->
   in_seen (name a) (seen_names st) = false ->
   _deduplicate_staff (pre ++ a :: mid ++ b :: post)
     = _deduplicate_staff (pre ++ a :: mid ++ post)) /\
  (in_seen (email a) (seen_emails st) = true ->
   _deduplicate_staff (pre ++ a :: mid ++ b :: post)
     = _deduplicate_staff (pre ++ mid ++ post)) /\
  (in_seen (email a) (seen_emails st) = false ->
   in_seen (name a) (seen_names st) = true ->
   seen_emails (dedup_step st a) = seen_emails st /\
   (in_seen (name b) (seen_names st) = false ->
    _deduplicate_staff (pre ++ [a; b])
      = merge_by_name a (unique_staff st) ++ [b])) /\
  _deduplicate_staff [a; b] = [a] /\
  _deduplicate_staff [name_and_inferred_title; pat_from_footer; lee_shared_mailbox]
    = [pat_from_footer; lee_shared_mailbox].
Proof.
  intros st Ha Hb.
  assert (Hfold : forall l1 x l2 s,
            fold_left dedup_step (l1 ++ x :: l2) s
            = fold_left dedup_step l2 (dedup_step (fold_left dedup_step l1 s) x)).
  { intros l1 x l2 s. rewrite fold_left_app. reflexivity. }
  split; [|split; [|split; [|split]]].
  - intros He Hn. unfold _deduplicate_staff.
    rewrite !(Hfold pre a). fold st.
    rewrite (Hfold mid b), fold_left_app.
    rewrite (dedup_step_seen_email _ b); [reflexivity|].
    apply dedup_fold_keeps_emails.
    rewrite (dedup_step_new_entry st a He Hn), Hb. simpl.
    apply in_seen_add, Ha.
  - intros He. unfold _deduplicate_staff.
    rewrite (Hfold pre a). fold st.
    rewrite (dedup_step_seen_email st a He).
    rewrite (Hfold mid b), !fold_left_app. fold st.
    rewrite (dedup_step_seen_email _ b); [reflexivity|].
    apply dedup_fold_keeps_emails. rewrite Hb. exact He.
  - intros He Hn. rewrite (dedup_step_merged st a He Hn).
    split; [reflexivity|].
    intros Hnb. unfold _deduplicate_staff.
    rewrite (Hfold pre a [b]). fold st.
    rewrite (dedup_step_merged st a He Hn). simpl.
    rewrite dedup_step_new_entry; simpl; [reflexivity| |exact Hnb].
    rewrite Hb. exact He.
  - unfold _deduplicate_staff.
    change (fold_left dedup_step [a; b] ?s)
      with (dedup_step (dedup_step s a) b).
    rewrite (dedup_step_new_entry _ a) by apply in_seen_empty.
    rewrite dedup_step_seen_email; [reflexivity|].
    simpl. rewrite Hb. apply in_seen_add, Ha.
  - vm_compute. reflexivity.
Qed.

(** On the sample page: after a first candidate of another name, the card
    registers Pat's e-mail and the footer line is dropped; after a
    candidate of Pat's name without an e-mail, the footer line is merged
    by name and a later candidate with its e-mail comes out too. *)
Lemma dedup_drops_later_email_duplicate_witness :
  _deduplicate_staff [sam_from_card; pat_from_card; sam_from_card; pat_from_footer]
    = [sam_from_card; pat_from_card] /\
  _deduplicate_staff [name_and_inferred_title; pat_from_footer; lee_shared_mailbox]
    = [pat_from_footer; lee_shared_mailbox].
Proof.
  split.
  - pose proof (dedup_drops_later_email_duplicate
      [sam_from_card] [sam_from_card] [] pat_from_card pat_from_footer) as H.
    cbv zeta in H.
    destruct H as (H & _); [reflexivity|reflexivity|].
    refine (eq_trans (H eq_refl eq_refl) _). vm_compute. reflexivity.
  - pose proof (dedup_drops_later_email_duplicate
      [name_and_inferred_title] [] [] pat_from_footer lee_shared_mailbox) as H.
    cbv zeta in H.
    destruct H as (_ & _ & H & _); [reflexivity|reflexivity|].
    destruct (H eq_refl eq_refl) as [_ H'].
    refine (eq_trans (H' eq_refl) _). vm_compute. reflexivity.
Defined.

(** ** The final confidence filter *)

Lemma insert_by_confidence_elem x l y :
  In y (insert_by_confidence x l) <-> y = x \/ In y l.
Proof.
  induction l as [|z r IH]; simpl; [intuition|].
  destruct (Qgtb (confidence z) (confidence x)); simpl; rewrite ?IH; intuition.
Qed.

Lemma insert_by_confidence_sorted x l :
  StronglySorted by_confidence l ->
  StronglySorted by_confidence (insert_by_confidence x l).
Proof.
  induction 1 as [|z r Hs IH Hall]; simpl.
  - repeat constructor.
  - destruct (Qgtb (confidence z) (confidence x)) eqn:E.
    + constructor; [exact IH|].
      apply List.Forall_forall. intros y Hy. apply insert_by_confidence_elem in Hy.
      destruct Hy as [-> | Hy].
      * apply Qgtb_true in E. apply Qlt_le_weak, E.
      * rewrite List.Forall_forall in Hall. apply Hall, Hy.
    + apply Qgtb_false in E. constructor; [constructor; assumption|].
      constructor; [exact E|].
      apply List.Forall_forall. intros y Hy. rewrite List.Forall_forall in Hall.
      unfold by_confidence in *. eapply Qle_trans; [apply Hall, Hy|exact E].
Qed.

Lemma sorted_by_confidence_sorted l :
  StronglySorted by_confidence (sorted_by_confidence l).
Proof.
  induction l as [|x l IH]; simpl; [constructor|].
  apply insert_by_confidence_sorted, IH.
Qed.

(** Inserting in front of a list none of whose members beats [x]. *)
Lemma insert_by_confidence_head x l :
  Forall (fun y => (confidence y <= confidence x)%Q) l ->
  insert_by_confidence x l = x :: l.
Proof.
  destruct 1 as [|y r Hy _]; simpl; [reflexivity|].
  apply Qgtb_false in Hy. rewrite Hy. reflexivity.
Qed.

(** Filtering commutes with the insertion into a sorted list. *)
Lemma filter_insert_by_confidence x l :
  StronglySorted by_confidence l ->
  List.filter confident (insert_by_confidence x l) =
  if confident x then insert_by_confidence x (List.filter confident l)
  else List.filter confident l.
Proof.
  induction 1 as [|y r Hs IH Hall]; simpl.
  - destruct (confident x); reflexivity.
  - destruct (Qgtb (confidence y) (confidence x)) eqn:E; simpl.
    + rewrite IH. destruct (confident y), (confident x); simpl;
        rewrite ?E; reflexivity.
    + destruct (confident x) eqn:Ex; [|reflexivity].
      destruct (confident y) eqn:Ey; simpl; [rewrite E; reflexivity|].
      symmetry. apply insert_by_confidence_head.
      apply List.Forall_forall. intros z Hz. apply filter_In in Hz as [Hz _].
      rewrite List.Forall_forall in Hall. apply Qgtb_false in E.
      eapply Qle_trans; [apply Hall, Hz|exact E].
Qed.

Lemma filter_sorted_by_confidence l :
  List.filter confident (sorted_by_confidence l) =
  sorted_by_confidence (List.filter confident l).
Proof.
  induction l as [|x l IH]; simpl; [reflexivity|].
  rewrite filter_insert_by_confidence by apply sorted_by_confidence_sorted.
  rewrite IH. destruct (confident x); reflexivity.
Qed.

Lemma sorted_by_confidence_elem l y : In y (sorted_by_confidence l) <-> In y l.
Proof.
  induction l as [|x l IH]; simpl; [reflexivity|].
  rewrite insert_by_confidence_elem, IH. intuition.
Qed.

Lemma validate_confidence s : confidence (_validate_staff_member s) = confidence s.
Proof. reflexivity. Qed.

(** C9: [_filter_and_limit_staff] yields the first 20 of the validated
    candidates of confidence at least 2, in descending order of
    confidence: dropping the others first and sorting afterwards gives the
    same list.  So every member of the output has confidence at least 2,
    and a candidate of confidence below 2 -- whether or not it has a name
    and a second field -- is not in it. *)
Theorem filter_and_limit_drops_low_confidence (staff_members : list StaffMember) :
  _filter_and_limit_staff staff_members =
    take 20 (_validate_staff_member <$>
             sorted_by_confidence (List.filter confident staff_members)) /\
  (length (_filter_and_limit_staff staff_members) <= 20)%nat /\
  (forall m, m ∈ _filter_and_limit_staff staff_members ->
     (2 <= confidence m)%Q) /\
  (forall s, (confidence s < 2)%Q ->
     (_validate_staff_member s ∉ _filter_and_limit_staff staff_members) /\
     (s ∉ _filter_and_limit_staff staff_members)).
Proof.
  assert (Hmem : forall m, m ∈ _filter_and_limit_staff staff_members ->
            (2 <= confidence m)%Q).
  { intros m Hm. unfold _filter_and_limit_staff in Hm.
    apply subseteq_take in Hm. apply list_elem_of_fmap in Hm as (s & -> & Hs).
    apply list_elem_of_In, filter_In in Hs as [_ Hs].
    rewrite validate_confidence. apply Qgeb_true, Hs. }
  split; [|split; [|split]].
  - unfold _filter_and_limit_staff. rewrite filter_sorted_by_confidence.
    reflexivity.
  - unfold _filter_and_limit_staff. rewrite length_take. lia.
  - exact Hmem.
  - intros s Hs. split; intros Hin; apply Hmem in Hin;
      rewrite ?validate_confidence in Hin;
      eapply Qlt_not_le; eauto.
Qed.

Lemma filter_and_limit_drops_low_confidence_witness :
  retained name_and_inferred_title = true /\
  _validate_staff_member name_and_inferred_title
    ∉ _filter_and_limit_staff [pat_from_card; name_and_inferred_title; pat_from_footer].
Proof.
  split; [reflexivity|].
  apply (filter_and_limit_drops_low_confidence
           [pat_from_card; name_and_inferred_title; pat_from_footer]).
  reflexivity.
Defined.

(** ** The hybrid coordinator *)

Lemma list_set_elem l x : x ∈ list_set l <-> x ∈ l.
Proof. unfold list_set. rewrite elem_of_elements, elem_of_list_to_set. tauto. Qed.

Lemma list_set_NoDup l : NoDup (list_set l).
Proof. unfold list_set. apply NoDup_elements. Qed.

(** C5: in mode ["auto"], a browser (Selenium) result with at least one
    e-mail address and at least one phone number but no address is
    incomplete, and the coordinator goes on to the crawler (Firecrawl).
    With the crawler's result the two are merged: the e-mail addresses and
    the phone numbers are the set union of both backends', each once; the
    address, the browser having none, is the crawler's, so that it is not
    null when the crawler supplies one; [method_used] is the combined
    state ["hybrid"]; and both backends are on record as sources.  Should
    the crawler raise instead, there is nothing to merge: the result is
    the browser's, with [method_used] ["selenium"]. *)
Theorem auto_incomplete_escalates_and_unions
    (selenium_extract firecrawl_extract : string -> outcome Contacts)
    (url : string) (a : Contacts) :
  let r := fst (extract_contacts "auto" selenium_extract firecrawl_extract url) in
  selenium_extract url = Returned a ->
  nonempty (emails a) = true -> nonempty (phones a) = true ->
  address a = None ->
  snd (extract_contacts "auto" selenium_extract firecrawl_extract url)
    = ["selenium"; "firecrawl"]%string /\
  (forall b, firecrawl_extract url = Returned b ->
     (forall x, x ∈ result_emails r <-> x ∈ emails a \/ x ∈ emails b) /\
     NoDup (result_emails r) /\
     (forall x, x ∈ result_phones r <-> x ∈ phones a \/ x ∈ phones b) /\
     NoDup (result_phones r) /\
     result_address r
       = match address a with Some s => Some s | None => address b end /\
     result_address r = address b /\
     (address b <> None -> result_address r <> None) /\
     method_used r = "hybrid"%string /\
     selenium_data r = Some (provenance_of a) /\
     firecrawl_data r = Some (provenance_of b)) /\
  (forall e, firecrawl_extract url = Raised e ->
     result_emails r = emails a /\ result_phones r = phones a /\
     result_address r = None /\ method_used r = "selenium"%string /\
     firecrawl_data r = None).
Proof.
  intros r Hsel He Hp Ha. subst r. unfold extract_contacts.
  rewrite Hsel, He, Hp, Ha. cbn [not_none andb negb String.eqb Ascii.eqb Bool.eqb].
  split; [reflexivity|]. split.
  - intros b Hb. unfold firecrawl_stage. rewrite Hb. cbn.
    split; [intros x; rewrite list_set_elem, elem_of_app; tauto|].
    split; [apply list_set_NoDup|].
    split; [intros x; rewrite list_set_elem, elem_of_app; tauto|].
    split; [apply list_set_NoDup|].
    unfold provenance_of. rewrite He, Hp, Ha.
    destruct (address b); simpl; repeat split; congruence.
  - intros e Hb. unfold firecrawl_stage. rewrite Hb. cbn. auto.
Qed.

(** The sample page: the browser finds an e-mail address and a phone
    number, the crawler the address. *)
Lemma auto_incomplete_escalates_and_unions_witness :
  let r := fst (extract_contacts "auto" selenium_sample firecrawl_sample
                  "https://dealer.com") in
  snd (extract_contacts "auto" selenium_sample firecrawl_sample "https://dealer.com")
    = ["selenium"; "firecrawl"]%string /\
  (forall x, x ∈ result_phones r <->
     x ∈ ["2165551234"%string] \/ x ∈ ["2165559999"%string]) /\
  result_address r = Some "1 Main St, Cleveland, OH 44101"%string /\
  method_used r = "hybrid"%string.
Proof.
  pose proof (auto_incomplete_escalates_and_unions selenium_sample firecrawl_sample
    "https://dealer.com" (mkContacts ["sales@dealer.com"] ["2165551234"] None)%string
    eq_refl eq_refl eq_refl eq_refl) as (Hinv & H & _).
  split; [exact Hinv|].
  destruct (H _ eq_refl) as (_ & _ & Hph & _ & _ & Haddr & _ & Hm & _).
  split; [exact Hph|]. split; [exact Haddr|exact Hm].
Defined.

(** X1: In mode ["auto"], when the browser backend returns e-mail addresses
    and phone numbers but no address, the coordinator goes on to the
    crawler.  If the crawler returns, the result's e-mail addresses and
    phone numbers are the union of both backends', each once; the address
    is the crawler's (so it is there when the crawler supplies one); and
    [method_used] is ["hybrid"]. *)
Theorem auto_escalates_and_merges
    (selenium_extract firecrawl_extract : string -> outcome Contacts)
    (url : string) (a : Contacts) :
  selenium_extract url = Returned a ->
  nonempty (emails a) = true -> nonempty (phones a) = true ->
  address a = None ->
  snd (extract_contacts "auto" selenium_extract firecrawl_extract url)
    = ["selenium"; "firecrawl"]%string /\
  forall b, firecrawl_extract url = Returned b ->
    let r := fst (extract_contacts "auto" selenium_extract firecrawl_extract url) in
    (forall x, x ∈ result_emails r <-> x ∈ emails a \/ x ∈ emails b) /\
    NoDup (result_emails r) /\
    (forall x, x ∈ result_phones r <-> x ∈ phones a \/ x ∈ phones b) /\
    NoDup (result_phones r) /\
    result_address r = address b /\
    (address b <> None -> result_address r <> None) /\
    method_used r = "hybrid"%string.
Proof.
  intros Hsel He Hp Ha. unfold extract_contacts.
  rewrite Hsel, He, Hp, Ha. cbn [not_none andb negb String.eqb Ascii.eqb Bool.eqb].
  split; [reflexivity|].
  intros b Hb. unfold firecrawl_stage. rewrite Hb. cbn.
  repeat split.
  - rewrite list_set_elem, elem_of_app. tauto.
  - rewrite list_set_elem, elem_of_app. tauto.
  - apply list_set_NoDup.
  - rewrite list_set_elem, elem_of_app. tauto.
  - rewrite list_set_elem, elem_of_app. tauto.
  - apply list_set_NoDup.
  - destruct (address b); reflexivity.
  - destruct (address b); [discriminate|congruence].
Qed.

Lemma auto_escalates_and_merges_witness :
  snd (extract_contacts "auto" selenium_sample firecrawl_sample "https://dealer.com")
    = ["selenium"; "firecrawl"]%string /\
  result_address
    (fst (extract_contacts "auto" selenium_sample firecrawl_sample "https://dealer.com"))
    = Some "1 Main St, Cleveland, OH 44101"%string /\
  method_used
    (fst (extract_contacts "auto" selenium_sample firecrawl_sample "https://dealer.com"))
    = "hybrid"%string.
Proof.
  pose proof (auto_escalates_and_merges selenium_sample firecrawl_sample
    "https://dealer.com" (mkContacts ["sales@dealer.com"] ["2165551234"] None)%string
    eq_refl eq_refl eq_refl eq_refl) as [Hinv H].
  split; [exact Hinv|].
  specialize (H _ eq_refl). cbv zeta in H.
  destruct H as (_ & _ & _ & _ & Haddr & _ & Hm).
  split; [exact Haddr|exact Hm].
Defined.

(** X2: The crawler is consulted exactly when a fallback is due: the
    coordinator stops after the browser backend if and only if that
    backend returned, the mode is not ["always"], and -- in mode ["auto"]
    -- what it returned is complete.  In every other case both backends
    are invoked, the browser first. *)
Theorem firecrawl_called_only_on_fallback
    (fallback_mode : string)
    (selenium_extract firecrawl_extract : string -> outcome Contacts)
    (url : string) :
  let invoked :=
    snd (extract_contacts fallback_mode selenium_extract firecrawl_extract url) in
  (invoked = ["selenium"]%string \/ invoked = ["selenium"; "firecrawl"]%string) /\
  (invoked = ["selenium"]%string <->
   exists a, selenium_extract url = Returned a /\
     fallback_mode <> "always"%string /\
     (fallback_mode = "auto"%string -> complete a = true)).
Proof.
  cbv zeta. unfold extract_contacts, complete.
  destruct (selenium_extract url) as [a|e] eqn:Hsel.
  - destruct (String.eqb_spec fallback_mode "always") as [Hal|Hal].
    + cbn. split; [right; reflexivity|]. split; [discriminate|].
      intros (a' & _ & Hne & _). contradiction.
    + destruct (String.eqb_spec fallback_mode "auto") as [Hau|Hau].
      * destruct (nonempty (emails a) && nonempty (phones a) && not_none (address a))
          eqn:Hc; cbn.
        -- split; [left; reflexivity|]. split; [|reflexivity].
           intros _. exists a. rewrite Hc. auto.
        -- split; [right; reflexivity|]. split; [discriminate|].
           intros (a' & Ha' & _ & Hc'). injection Ha' as <-.
           rewrite Hc in Hc'. specialize (Hc' Hau). discriminate.
      * cbn. split; [left; reflexivity|]. split; [|reflexivity].
        intros _. exists a. split; [reflexivity|]. split; [exact Hal|].
        intros; contradiction.
  - cbn. split; [right; reflexivity|]. split; [discriminate|].
    intros (a' & Ha' & _). discriminate.
Qed.

(** X3: When the coordinator stops after the browser backend, its result is
    that backend's data as it came -- in the same order, duplicates kept,
    an empty result left empty -- marked ["selenium"], and the crawler's
    behaviour has no part in it. *)
Theorem selenium_only_result_is_verbatim
    (fallback_mode : string)
    (selenium_extract firecrawl_extract : string -> outcome Contacts)
    (url : string) (a : Contacts) :
  selenium_extract url = Returned a ->
  fallback_mode <> "always"%string ->
  (fallback_mode = "auto"%string -> complete a = true) ->
  extract_contacts fallback_mode selenium_extract firecrawl_extract url =
    (mkHybrid (emails a) (phones a) (address a) "selenium"
       (Some (provenance_of a)) None,
     ["selenium"%string]).
Proof.
  intros Hsel Hal Hau. unfold extract_contacts, complete in *. rewrite Hsel.
  destruct (String.eqb_spec fallback_mode "always") as [|_]; [contradiction|].
  destruct (String.eqb_spec fallback_mode "auto") as [Hau'|_].
  - rewrite (Hau Hau'). cbn. unfold provenance_of.
    destruct (address a); reflexivity.
  - cbn. unfold provenance_of. destruct (address a); reflexivity.
Qed.

(** Mode ["on_failure"]: the browser came back empty-handed, and that is
    the answer, whatever the crawler would have found. *)
Lemma selenium_only_result_is_verbatim_witness :
  extract_contacts "on_failure" (fun _ => Returned (mkContacts [] [] None))
    firecrawl_sample "https://dealer.com" =
    (mkHybrid [] [] None "selenium"
       (Some (mkProvenance false false false)) None,
     ["selenium"%string]).
Proof.
  apply (selenium_only_result_is_verbatim "on_failure"
           (fun _ => Returned (mkContacts [] [] None)) firecrawl_sample
           "https://dealer.com" (mkContacts [] [] None)).
  - reflexivity.
  - discriminate.
  - discriminate.
Defined.

(** X4: When the browser backend raises, the crawler is consulted in every
    mode.  If it raises too, the result is empty and marked ["failed"];
    if it returns, the result is the crawler's e-mail addresses and phone
    numbers, each once, with its address, marked ["firecrawl"].  Neither
    exception leaves the coordinator. *)
Theorem selenium_failure_falls_back_in_every_mode
    (fallback_mode : string)
    (selenium_extract firecrawl_extract : string -> outcome Contacts)
    (url : string) (e : exn) :
  selenium_extract url = Raised e ->
  let r := fst (extract_contacts fallback_mode selenium_extract firecrawl_extract url) in
  snd (extract_contacts fallback_mode selenium_extract firecrawl_extract url)
    = ["selenium"; "firecrawl"]%string /\
  selenium_data r = None /\
  (forall e', firecrawl_extract url = Raised e' ->
     r = mkHybrid [] [] None "failed" None None) /\
  (forall b, firecrawl_extract url = Returned b ->
     (forall x, x ∈ result_emails r <-> x ∈ emails b) /\
     NoDup (result_emails r) /\
     (forall x, x ∈ result_phones r <-> x ∈ phones b) /\
     NoDup (result_phones r) /\
     result_address r = address b /\
     method_used r = "firecrawl"%string /\
     firecrawl_data r = Some (provenance_of b)).
Proof.
  intros Hsel. cbv zeta. unfold extract_contacts. rewrite Hsel.
  unfold firecrawl_stage. cbn [fst snd].
  split; [reflexivity|].
  destruct (firecrawl_extract url) as [b|e'] eqn:Hfc; cbn.
  - split; [reflexivity|]. split; [discriminate|].
    intros b' [= <-]. repeat split.
    + apply list_set_elem.
    + apply list_set_elem.
    + apply list_set_NoDup.
    + apply list_set_elem.
    + apply list_set_elem.
    + apply list_set_NoDup.
    + destruct (address b); reflexivity.
  - split; [reflexivity|]. split; [reflexivity|]. discriminate.
Qed.

Lemma selenium_failure_falls_back_in_every_mode_witness :
  fst (extract_contacts "on_failure" backend_down backend_down "https://dealer.com")
    = mkHybrid [] [] None "failed" None None /\
  method_used
    (fst (extract_contacts "on_failure" backend_down firecrawl_sample
            "https://dealer.com"))
    = "firecrawl"%string.
Proof.
  split.
  - pose proof (selenium_failure_falls_back_in_every_mode "on_failure"
      backend_down backend_down "https://dealer.com" _ eq_refl) as H.
    cbv zeta in H. destruct H as (_ & _ & H & _).
    exact (H _ eq_refl).
  - pose proof (selenium_failure_falls_back_in_every_mode "on_failure"
      backend_down firecrawl_sample "https://dealer.com" _ eq_refl) as H.
    cbv zeta in H. destruct H as (_ & _ & _ & H).
    destruct (H _ eq_refl) as (_ & _ & _ & _ & _ & Hm & _). exact Hm.
Defined.

(** X5: Whatever the mode and whatever the crawler does, nothing the browser
    backend returned is lost: each of its e-mail addresses and phone
    numbers is in the result, a non-empty address of its own is the
    result's address, and [method_used] is ["selenium"] or ["hybrid"]. *)
Theorem selenium_data_never_lost
    (fallback_mode : string)
    (selenium_extract firecrawl_extract : string -> outcome Contacts)
    (url : string) (a : Contacts) :
  selenium_extract url = Returned a ->
  let r := fst (extract_contacts fallback_mode selenium_extract firecrawl_extract url) in
  (forall x, x ∈ emails a -> x ∈ result_emails r) /\
  (forall x, x ∈ phones a -> x ∈ result_phones r) /\
  (PyStr.otruthy (address a) = true -> result_address r = address a) /\
  selenium_data r = Some (provenance_of a) /\
  (method_used r = "selenium"%string \/ method_used r = "hybrid"%string).
Proof.
  intros Hsel. cbv zeta. unfold extract_contacts. rewrite Hsel.
  set (nf := if String.eqb fallback_mode "always" then true else _).
  destruct nf; cbn [negb fst].
  - unfold firecrawl_stage.
    destruct (firecrawl_extract url) as [b|e'] eqn:Hfc; cbn.
    + repeat split.
      * intros x Hx. rewrite list_set_elem, elem_of_app. auto.
      * intros x Hx. rewrite list_set_elem, elem_of_app. auto.
      * intros Ht. destruct (address a) as [s|]; [|discriminate]. cbn in *.
        rewrite Ht. reflexivity.
      * auto.
    + repeat split; auto.
      intros _. destruct (address a); reflexivity.
  - cbn. repeat split; auto.
    intros _. destruct (address a); reflexivity.
Qed.

Lemma selenium_data_never_lost_witness :
  "2165551234"%string ∈
    result_phones
      (fst (extract_contacts "always" selenium_sample firecrawl_sample
              "https://dealer.com")).
Proof.
  pose proof (selenium_data_never_lost "always" selenium_sample firecrawl_sample
    "https://dealer.com" _ eq_refl) as H.
  cbv zeta in H. destruct H as (_ & H & _).
  apply H. cbn. apply list_elem_of_here.
Defined.

(** ** The retry wrapper: termination, bounds, and the other branches *)

Lemma check_circuit_clock key w :
  clock (snd (world_check_circuit key w)) = clock w /\
  calls (snd (world_check_circuit key w)) = calls w /\
  draws (snd (world_check_circuit key w)) = draws w.
Proof.
  unfold world_check_circuit.
  destruct (check_circuit key (clock w) (tracker w)); simpl; auto.
Qed.

Section RetryBounds.

Context {A : Type}.
Variable max_retries : Z.
Variables initial_backoff backoff_factor max_backoff : Q.
Variable retry_exceptions : list exn_class.
Variable urandom : nat -> Z.
Variable func_name : string.
Variable func : list string -> gmap string string -> World -> outcome A * World.

Let loop := retry_loop (A:=A) max_retries backoff_factor max_backoff
  retry_exceptions urandom func.
Let wrapper := retry_with_backoff (A:=A) max_retries initial_backoff
  backoff_factor max_backoff retry_exceptions urandom func_name func.

Hypothesis max_backoff_nonneg : (0 <= max_backoff)%Q.
Hypothesis backoff_factor_nonneg : (0 <= backoff_factor)%Q.
Hypothesis urandom_byte : forall n, 0 <= urandom n <= 255.

Lemma jitter_range w :
  ((1 # 2) <= jitter urandom w <= 1)%Q.
Proof.
  unfold jitter. specialize (urandom_byte (draws w)).
  set (u := urandom (draws w)) in *.
  unfold Qle, Qdiv, Qmult, Qplus, Qinv, inject_Z; simpl. lia.
Qed.




End RetryBounds.


(** ** The circuit breaker: isolation and invariants *)

Lemma reset_circuit_total key t : total_errors (reset_circuit key t) key = 0.
Proof.
  unfold reset_circuit, total_errors.
  destruct (error_counts t !! key) as [d|] eqn:Ec; simpl;
    destruct (circuit_open t !! key); simpl;
    rewrite ?lookup_insert_eq, ?Ec; simpl; apply sum_values_empty.
Qed.

Lemma reset_circuit_not_open key t :
  circuit_open (reset_circuit key t) !! key <> Some true.
Proof.
  unfold reset_circuit.
  destruct (error_counts t !! key) as [d|]; simpl;
    destruct (circuit_open t !! key) eqn:Eo; simpl;
    rewrite ?lookup_insert_eq, ?Eo; discriminate.
Qed.

Lemma reset_circuit_other key key' t :
  key <> key' -> resource_state key' (reset_circuit key t) = resource_state key' t.
Proof.
  intros Hne. unfold reset_circuit, resource_state.
  destruct (error_counts t !! key) as [d|]; simpl;
    destruct (circuit_open t !! key); simpl;
    rewrite ?lookup_insert_ne by exact Hne; reflexivity.
Qed.

Lemma reset_circuit_config key t :
  error_threshold (reset_circuit key t) = error_threshold t /\
  reset_interval (reset_circuit key t) = reset_interval t /\
  last_error_time (reset_circuit key t) = last_error_time t.
Proof.
  unfold reset_circuit.
  destruct (error_counts t !! key) as [d|]; simpl;
    destruct (circuit_open t !! key); simpl; auto.
Qed.

Lemma check_circuit_cases key now t :
  check_circuit key now t = (true, t) \/
  check_circuit key now t = (false, t) \/
  check_circuit key now t = (false, reset_circuit key t) /\
  circuit_open t !! key = Some true.
Proof.
  unfold check_circuit.
  destruct (circuit_open t !! key) as [[|]|]; auto.
  destruct (last_error_time t !! key); auto.
  destruct (Qgtb _ _); auto.
Qed.

Lemma tracker_step_other c key' t :
  call_key c <> key' ->
  resource_state key' (tracker_step t c) = resource_state key' t.
Proof.
  intros Hne. destruct c as [key ety now|key now|key]; simpl in *.
  - unfold resource_state.
    destruct (record_error_other key ety now t key' Hne) as (-> & -> & ->).
    reflexivity.
  - destruct (check_circuit_cases key now t) as [->|[->|[-> _]]]; simpl; auto.
    apply reset_circuit_other; exact Hne.
  - apply reset_circuit_other; exact Hne.
Qed.

Lemma tracker_step_config c t :
  error_threshold (tracker_step t c) = error_threshold t /\
  reset_interval (tracker_step t c) = reset_interval t.
Proof.
  destruct c as [key ety now|key now|key]; simpl.
  - apply record_error_config.
  - apply check_circuit_config.
  - destruct (reset_circuit_config key t) as (-> & -> & _). auto.
Qed.

Lemma tracker_run_config cs t :
  error_threshold (tracker_run cs t) = error_threshold t /\
  reset_interval (tracker_run cs t) = reset_interval t.
Proof.
  revert t. induction cs as [|c cs IH]; intros t; simpl; auto.
  change (fold_left tracker_step cs ?x) with (tracker_run cs x).
  destruct (IH (tracker_step t c)) as [-> ->]. apply tracker_step_config.
Qed.

Lemma tracker_run_other cs key' t :
  Forall (fun c => call_key c <> key') cs ->
  resource_state key' (tracker_run cs t) = resource_state key' t.
Proof.
  revert t. induction cs as [|c cs IH]; intros t Hall; simpl; auto.
  change (fold_left tracker_step cs ?x) with (tracker_run cs x).
  apply Forall_cons_1 in Hall as [Hc Hall].
  rewrite IH by exact Hall. apply tracker_step_other; exact Hc.
Qed.

Lemma check_circuit_resource_state key now t t' :
  resource_state key t = resource_state key t' ->
  reset_interval t = reset_interval t' ->
  fst (check_circuit key now t) = fst (check_circuit key now t').
Proof.
  unfold resource_state, check_circuit. intros [= _ -> ->] ->.
  destruct (circuit_open t' !! key) as [[|]|]; auto.
  destruct (last_error_time t' !! key); auto.
  destruct (Qgtb _ _); auto.
Qed.

(** X9: Resources do not interfere: whatever is recorded, checked or reset
    for other resources -- in any number, in any order -- what the tracker
    holds about a resource is unchanged, its error total is unchanged, and
    [check_circuit] gives the same answer for it at any time. *)
Theorem tracker_resources_are_isolated
    (cs : list tracker_call) (key : string) (t : ErrorTracker) :
  Forall (fun c => call_key c <> key) cs ->
  resource_state key (tracker_run cs t) = resource_state key t /\
  total_errors (tracker_run cs t) key = total_errors t key /\
  forall now,
    fst (check_circuit key now (tracker_run cs t)) = fst (check_circuit key now t).
Proof.
  intros Hall. pose proof (tracker_run_other cs key t Hall) as Hs.
  split; [exact Hs|]. split.
  - unfold total_errors. unfold resource_state in Hs.
    injection Hs as -> _ _. reflexivity.
  - intros now. apply check_circuit_resource_state; [exact Hs|].
    apply tracker_run_config.
Qed.

Lemma tracker_resources_are_isolated_witness :
  fst (check_circuit "a.example" 60
         (tracker_run
            [Record_error "b.example" "Timeout" 10;
             Record_error "b.example" "Timeout" 20;
             Record_error "b.example" "Timeout" 30;
             Record_error "b.example" "Timeout" 40;
             Record_error "b.example" "Timeout" 50;
             Check_circuit "b.example" 55]
            new_tracker))
  = fst (check_circuit "a.example" 60 new_tracker).
Proof.
  apply (tracker_resources_are_isolated
           [Record_error "b.example" "Timeout" 10;
            Record_error "b.example" "Timeout" 20;
            Record_error "b.example" "Timeout" 30;
            Record_error "b.example" "Timeout" 40;
            Record_error "b.example" "Timeout" 50;
            Check_circuit "b.example" 55]
           "a.example" new_tracker).
  repeat constructor; simpl; discriminate.
Defined.

Lemma record_error_below key ety now t :
  total_errors (record_error key ety now t) key < error_threshold t ->
  circuit_open (record_error key ety now t) = circuit_open t.
Proof.
  rewrite record_error_total. unfold record_error, total_errors.
  set (d := default ∅ (error_counts t !! key)).
  rewrite (sum_values_bump d ety). simpl. intros H.
  destruct (sum_values d + 1 >=? error_threshold t) eqn:E; simpl; [lia|reflexivity].
Qed.

Lemma total_errors_resource_state key t t' :
  resource_state key t = resource_state key t' ->
  total_errors t key = total_errors t' key.
Proof. unfold resource_state, total_errors. intros [= -> _ _]. reflexivity. Qed.

Lemma circuit_matches_count_resource_state key t t' :
  resource_state key t' = resource_state key t ->
  error_threshold t' = error_threshold t ->
  circuit_matches_count key t -> circuit_matches_count key t'.
Proof.
  intros Hs Hth. unfold circuit_matches_count.
  rewrite (total_errors_resource_state key t' t Hs), Hth.
  unfold resource_state in Hs. injection Hs as _ -> ->. auto.
Qed.

Lemma circuit_matches_count_reset key key' t :
  0 < error_threshold t ->
  circuit_matches_count key t -> circuit_matches_count key (reset_circuit key' t).
Proof.
  intros Hpos Hinv.
  destruct (reset_circuit_config key' t) as (Hth & _ & Hlast).
  destruct (decide (key' = key)) as [->|Hne].
  - unfold circuit_matches_count. rewrite Hth, reset_circuit_total.
    pose proof (reset_circuit_not_open key t) as Hno.
    split; [split; [contradiction|lia]|]. split; [contradiction|lia].
  - apply (circuit_matches_count_resource_state key t); auto.
    apply reset_circuit_other; exact Hne.
Qed.

Lemma circuit_matches_count_step key c t :
  0 < error_threshold t ->
  circuit_matches_count key t -> circuit_matches_count key (tracker_step t c).
Proof.
  intros Hpos Hinv. destruct c as [key' ety now|key' now|key']; simpl.
  - destruct (decide (key' = key)) as [->|Hne].
    + destruct Hinv as (Hiff & Hlast & Hnn). unfold circuit_matches_count.
      destruct (record_error_config key ety now t) as [-> _].
      rewrite record_error_last.
      split; [|split; [eauto|rewrite record_error_total; lia]].
      split.
      * intros Ho.
        destruct (Z_lt_le_dec (total_errors (record_error key ety now t) key)
                    (error_threshold t)) as [Hlt|Hle]; [|exact Hle].
        rewrite (record_error_below key ety now t Hlt) in Ho.
        apply Hiff in Ho. rewrite record_error_total in Hlt. lia.
      * apply record_error_opens.
    + apply (circuit_matches_count_resource_state key t); auto.
      * unfold resource_state.
        destruct (record_error_other key' ety now t key Hne) as (-> & -> & ->).
        reflexivity.
      * apply record_error_config.
  - destruct (check_circuit_cases key' now t) as [->|[->|[-> _]]]; simpl; auto.
    apply circuit_matches_count_reset; auto.
  - apply circuit_matches_count_reset; auto.
Qed.

Lemma circuit_matches_count_run key cs t :
  0 < error_threshold t ->
  circuit_matches_count key t -> circuit_matches_count key (tracker_run cs t).
Proof.
  revert t. induction cs as [|c cs IH]; intros t Hpos Hinv; simpl; auto.
  change (fold_left tracker_step cs ?x) with (tracker_run cs x).
  apply IH.
  - destruct (tracker_step_config c t) as [-> _]. exact Hpos.
  - apply circuit_matches_count_step; auto.
Qed.

(** X10: In every state the tracker reaches from its initial one -- by any
    calls of [record_error], [check_circuit] and [reset_circuit], for any
    resources, at any times -- a resource's circuit is open if and only if
    at least five errors are on record for it; and no circuit stays open
    for good: a check made more than the reset interval after the
    resource's last error answers that the resource is available. *)
Theorem circuit_open_iff_threshold_reached
    (cs : list tracker_call) (key : string) :
  let t := tracker_run cs new_tracker in
  (circuit_open t !! key = Some true <-> 5 <= total_errors t key) /\
  0 <= total_errors t key /\
  (forall now,
     fst (check_circuit key now t) = true ->
     exists last, last_error_time t !! key = Some last /\
       (now - last <= 300)%Q).
Proof.
  cbv zeta.
  assert (Hinv : circuit_matches_count key (tracker_run cs new_tracker)).
  { apply circuit_matches_count_run; [simpl; lia|].
    unfold circuit_matches_count, total_errors. simpl.
    rewrite !lookup_empty. simpl. rewrite sum_values_empty.
    split; [split; [discriminate|lia]|]. split; [discriminate|lia]. }
  destruct (tracker_run_config cs new_tracker) as [Hth Hint].
  destruct Hinv as (Hiff & Hlast & Hnn). rewrite Hth in Hiff. simpl in Hiff.
  split; [exact Hiff|]. split; [exact Hnn|].
  intros now. unfold check_circuit.
  destruct (circuit_open _ !! key) as [[|]|] eqn:Ho; try discriminate.
  destruct (Hlast eq_refl) as [last Hl]. rewrite Hl.
  destruct (Qgtb _ _) eqn:Eg; [discriminate|].
  intros _. exists last. split; [reflexivity|].
  apply Qgtb_false in Eg. rewrite Hint in Eg. exact Eg.
Qed.

(** X11: [reset_circuit] closes and clears, and creates nothing: a resource
    the tracker has no entry for still has none afterwards (the tracker is
    unchanged), and resetting twice is resetting once. *)
Theorem reset_circuit_creates_no_entry (key : string) (t : ErrorTracker) :
  dom (error_counts (reset_circuit key t)) = dom (error_counts t) /\
  dom (circuit_open (reset_circuit key t)) = dom (circuit_open t) /\
  total_errors (reset_circuit key t) key = 0 /\
  circuit_open (reset_circuit key t) !! key <> Some true /\
  reset_circuit key (reset_circuit key t) = reset_circuit key t.
Proof.
  split; [|split; [|split; [apply reset_circuit_total|
                            split; [apply reset_circuit_not_open|]]]].
  - unfold reset_circuit.
    destruct (error_counts t !! key) as [d|] eqn:Ec; simpl;
      destruct (circuit_open t !! key); simpl; auto;
      apply dom_insert_lookup_L; eauto.
  - unfold reset_circuit.
    destruct (error_counts t !! key) as [d|]; simpl;
      destruct (circuit_open t !! key) eqn:Eo; simpl; auto;
      apply dom_insert_lookup_L; eauto.
  - unfold reset_circuit.
    destruct (error_counts t !! key) as [d|] eqn:Ec; simpl;
      destruct (circuit_open t !! key) as [b|] eqn:Eo; simpl;
      rewrite ?lookup_insert_eq, ?Ec, ?Eo; simpl;
      rewrite ?lookup_insert_eq, ?Ec, ?Eo; simpl;
      unfold set_error_counts, set_circuit_open; simpl;
      rewrite ?insert_insert_eq; reflexivity.
Qed.

Section RetryBranches.

Context {A : Type}.
Variable max_retries : Z.
Variables initial_backoff backoff_factor max_backoff : Q.
Variable retry_exceptions : list exn_class.
Variable urandom : nat -> Z.
Variable func_name : string.
Variable func : list string -> gmap string string -> World -> outcome A * World.

Let wrapper := retry_with_backoff (A:=A) max_retries initial_backoff
  backoff_factor max_backoff retry_exceptions urandom func_name func.

(** X7: An exception outside the retry tuple is not retried, whatever
    [max_retries] is: the wrapper re-raises it after the one invocation,
    without drawing a byte or sleeping, and with the error recorded against
    the resource -- so it counts towards opening the circuit just as an
    exhausted retry does. *)
Theorem non_retryable_error_is_raised_at_once
    (args : list string) (kwargs : gmap string string) (w w1 : World) (e : exn) :
  let key := fst (pop_resource_key func_name kwargs) in
  let kwargs' := snd (pop_resource_key func_name kwargs) in
  let w0 := snd (world_check_circuit key w) in
  fst (world_check_circuit key w) = false ->
  func args kwargs' (count_call w0) = (Raised e, w1) ->
  isinstance e retry_exceptions = false ->
  exists w',
    wrapper args kwargs w = Some (Raised e, w') /\
    calls w' = calls w1 /\ draws w' = draws w1 /\ clock w' = clock w1 /\
    total_errors (tracker w') key = total_errors (tracker w1) key + 1 /\
    last_error_time (tracker w') !! key = Some (clock w1).
Proof.
  intros key kwargs' w0 Hclosed Hfn Hre.
  unfold wrapper, retry_with_backoff.
  change (pop_resource_key func_name kwargs) with (key, kwargs').
  cbn iota beta. subst w0.
  destruct (world_check_circuit key w) as [is_open w0]. simpl in *.
  subst is_open. rewrite Hfn, Hre.
  eexists. split; [reflexivity|]. simpl.
  repeat split; auto using record_error_total, record_error_last.
Qed.

(** X8: A call that passes [_resource_key] is keyed by it and not by the
    function's name, and the wrapped function does not get to see the
    keyword.  If that resource's circuit is open the call fails fast; if
    it is closed and the call fails, the one error is recorded against
    that resource and what the tracker holds about every other resource
    -- the function's own name among them -- is as it was. *)
Theorem explicit_resource_key_selects_the_circuit
    (args : list string) (kwargs : gmap string string) (w : World)
    (key : string) :
  kwargs !! "_resource_key"%string = Some key ->
  pop_resource_key func_name kwargs = (key, delete "_resource_key"%string kwargs) /\
  delete "_resource_key"%string kwargs !! "_resource_key"%string = None /\
  (fst (check_circuit key (clock w) (tracker w)) = true ->
   wrapper args kwargs w = Some (Raised (circuit_open_exn key), w)) /\
  (fst (check_circuit key (clock w) (tracker w)) = false ->
   always_fails func args (delete "_resource_key"%string kwargs) ->
   exists e w',
     wrapper args kwargs w = Some (Raised e, w') /\
     total_errors (tracker w') key =
       total_errors (snd (check_circuit key (clock w) (tracker w))) key + 1 /\
     forall key', key' <> key ->
       resource_state key' (tracker w') = resource_state key' (tracker w)).
Proof.
  intros Hk.
  assert (Hpop : pop_resource_key func_name kwargs
                 = (key, delete "_resource_key"%string kwargs)).
  { unfold pop_resource_key. rewrite Hk. reflexivity. }
  split; [exact Hpop|]. split; [apply lookup_delete_eq|].
  unfold wrapper, retry_with_backoff, world_check_circuit. rewrite Hpop.
  cbn iota beta.
  destruct (check_circuit key (clock w) (tracker w)) as [is_open t] eqn:Hcc.
  simpl. split.
  - intros ->. apply check_circuit_true_same in Hcc. subst t.
    rewrite set_tracker_same. reflexivity.
  - intros -> Hfail.
    destruct (retry_loop_always_fails max_retries backoff_factor max_backoff
                retry_exceptions urandom func key args
                (delete "_resource_key"%string kwargs) Hfail
                (S (Z.to_nat max_retries)) 0 initial_backoff (set_tracker t w))
      as (e & w' & Hl & Ht); [lia|lia|].
    exists e, w'. split; [exact Hl|]. simpl in Ht.
    split; [rewrite Ht; apply record_error_total|].
    intros key' Hne. rewrite Ht.
    transitivity (resource_state key' t).
    + unfold resource_state.
      destruct (record_error_other key (type_name e) (clock w') t key')
        as (-> & -> & ->); [congruence|reflexivity].
    + destruct (check_circuit_cases key (clock w) (tracker w))
        as [H|[H|[H _]]]; rewrite H in Hcc; [discriminate| |];
        injection Hcc as <-; auto.
      apply reset_circuit_other. congruence.
Qed.

End RetryBranches.

(** A parse error is no retry exception: one invocation, one error on
    record. *)
Lemma non_retryable_error_is_raised_at_once_witness :
  exists w',
    retry_with_backoff 3 1 2 30 default_retry_exceptions (fun _ => 0) "fetch"
      (always_raises (mkExn (OtherException "ValueError") "Invalid IPv6 URL" 0))
      ["https://[bad"%string] ∅ initial_world
    = Some (Raised (mkExn (OtherException "ValueError") "Invalid IPv6 URL" 0), w') /\
    calls w' = 1%nat /\ draws w' = 0%nat /\
    total_errors (tracker w') "fetch" = 1.
Proof.
  destruct (non_retryable_error_is_raised_at_once 3 1 2 30
              default_retry_exceptions (fun _ => 0) "fetch"
              (always_raises (mkExn (OtherException "ValueError") "Invalid IPv6 URL" 0))
              ["https://[bad"%string] ∅ initial_world
              (count_call initial_world)
              (mkExn (OtherException "ValueError") "Invalid IPv6 URL" 0))
    as (w' & Hw & Hc & Hd & _ & Ht & _).
  - vm_compute. reflexivity.
  - vm_compute. reflexivity.
  - vm_compute. reflexivity.
  - exists w'. split; [exact Hw|]. split; [exact Hc|]. split; [exact Hd|].
    change (fst (pop_resource_key "fetch" ∅)) with "fetch"%string in Ht.
    rewrite Ht. vm_compute. reflexivity.
Defined.

(** A failing call keyed ["a.example"] leaves the circuit named after the
    function alone. *)
Lemma explicit_resource_key_selects_the_circuit_witness :
  exists e w',
    retry_with_backoff 1 1 2 30 default_retry_exceptions (fun _ => 0) "fetch"
      (always_raises (mkExn ReadTimeout "timed out" 0))
      ["https://a.example"%string] {[ "_resource_key"%string := "a.example"%string ]}
      initial_world
    = Some (Raised e, w') /\
    resource_state "fetch" (tracker w') = resource_state "fetch" new_tracker.
Proof.
  destruct (explicit_resource_key_selects_the_circuit 1 1 2 30
              default_retry_exceptions (fun _ => 0) "fetch"
              (always_raises (mkExn ReadTimeout "timed out" 0))
              ["https://a.example"%string]
              {[ "_resource_key"%string := "a.example"%string ]}
              initial_world "a.example")
    as (_ & _ & _ & H).
  - vm_compute. reflexivity.
  - destruct H as (e & w' & Hw & _ & Ho).
    + vm_compute. reflexivity.
    + intros w. exists (mkExn ReadTimeout "timed out" 0), w.
      repeat split; reflexivity.
    + exists e, w'. split; [exact Hw|]. apply Ho. discriminate.
Defined.

(** ** The batch verifier: URLs and manufacturers *)

#[local] Arguments String.append !s1 s2 : simpl nomatch.

Lemma PyStr_append_assoc (a b c : string) :
  ((a ++ b) ++ c)%string = (a ++ (b ++ c))%string.
Proof. induction a as [|x a IH]; simpl; congruence. Qed.

Lemma PyStr_rev_acc_app s acc : PyStr.rev_acc s acc = (PyStr.rev s ++ acc)%string.
Proof.
  unfold PyStr.rev. revert acc.
  induction s as [|c s IH]; intros acc; simpl; [reflexivity|].
  rewrite IH, (IH (String c EmptyString)).
  rewrite PyStr_append_assoc. reflexivity.
Qed.

Lemma PyStr_append_empty_r s : (s ++ EmptyString)%string = s.
Proof. induction s as [|c s IH]; simpl; congruence. Qed.

Lemma PyStr_rev_cons c s :
  PyStr.rev (String c s) = (PyStr.rev s ++ String c EmptyString)%string.
Proof. unfold PyStr.rev at 1. simpl. apply PyStr_rev_acc_app. Qed.

Lemma PyStr_rev_app s t : PyStr.rev (s ++ t) = (PyStr.rev t ++ PyStr.rev s)%string.
Proof.
  induction s as [|c s IH]; simpl.
  - rewrite PyStr_append_empty_r. reflexivity.
  - rewrite !PyStr_rev_cons, IH, PyStr_append_assoc. reflexivity.
Qed.

Lemma PyStr_rev_involutive s : PyStr.rev (PyStr.rev s) = s.
Proof.
  induction s as [|c s IH]; [reflexivity|].
  rewrite PyStr_rev_cons, PyStr_rev_app, IH. reflexivity.
Qed.

Lemma PyStr_rev_map f s :
  PyStr.rev (PyStr.map_chars f s) = PyStr.map_chars f (PyStr.rev s).
Proof.
  assert (Happ : forall a b, PyStr.map_chars f (a ++ b)
                 = (PyStr.map_chars f a ++ PyStr.map_chars f b)%string).
  { induction a as [|c a IH]; intros b; simpl; [reflexivity|]. rewrite IH. reflexivity. }
  induction s as [|c s IH]; [reflexivity|].
  simpl. rewrite !PyStr_rev_cons, IH, Happ. reflexivity.
Qed.

Lemma PyStr_lstrip_head s : head_not_space (PyStr.lstrip s) = true.
Proof.
  induction s as [|c s IH]; simpl; [reflexivity|].
  destruct (PyStr.is_space c) eqn:E; [exact IH|]. simpl. rewrite E. reflexivity.
Qed.

Lemma PyStr_lstrip_id s : head_not_space s = true -> PyStr.lstrip s = s.
Proof.
  destruct s as [|c s]; simpl; [reflexivity|].
  destruct (PyStr.is_space c); [discriminate|reflexivity].
Qed.

Lemma PyStr_lstrip_suffix s : exists sp, s = (sp ++ PyStr.lstrip s)%string.
Proof.
  induction s as [|c s [sp IH]]; simpl.
  - exists EmptyString. reflexivity.
  - destruct (PyStr.is_space c).
    + exists (String c sp). simpl. rewrite <- IH. reflexivity.
    + exists EmptyString. reflexivity.
Qed.

Lemma head_not_space_app_l a b :
  head_not_space (a ++ b) = true -> head_not_space a = true.
Proof. destruct a; simpl; auto. Qed.

Lemma head_not_space_app a b :
  head_not_space a = true -> head_not_space b = true ->
  head_not_space (a ++ b) = true.
Proof. destruct a; simpl; auto. Qed.

(** What [strip] returns starts and ends with a character that is no
    whitespace, and such a string is left alone by [strip]. *)
Lemma PyStr_strip_stripped s :
  head_not_space (PyStr.strip s) = true /\
  head_not_space (PyStr.rev (PyStr.strip s)) = true.
Proof.
  unfold PyStr.strip. rewrite PyStr_rev_involutive.
  split; [|apply PyStr_lstrip_head].
  destruct (PyStr_lstrip_suffix (PyStr.rev (PyStr.lstrip s))) as [sp Hsp].
  apply (f_equal PyStr.rev) in Hsp.
  rewrite PyStr_rev_involutive, PyStr_rev_app in Hsp.
  apply (head_not_space_app_l _ (PyStr.rev sp)). rewrite <- Hsp.
  apply PyStr_lstrip_head.
Qed.

Lemma PyStr_strip_id s :
  head_not_space s = true -> head_not_space (PyStr.rev s) = true ->
  PyStr.strip s = s.
Proof.
  intros H1 H2. unfold PyStr.strip.
  rewrite (PyStr_lstrip_id s H1), (PyStr_lstrip_id _ H2).
  apply PyStr_rev_involutive.
Qed.

Lemma PyStr_lower_char_space c :
  PyStr.is_space (PyStr.lower_char c) = PyStr.is_space c.
Proof. destruct c as [[] [] [] [] [] [] [] []]; reflexivity. Qed.

Lemma PyStr_lower_char_idem c :
  PyStr.lower_char (PyStr.lower_char c) = PyStr.lower_char c.
Proof. destruct c as [[] [] [] [] [] [] [] []]; reflexivity. Qed.

Lemma PyStr_lower_idem s : PyStr.lower (PyStr.lower s) = PyStr.lower s.
Proof.
  unfold PyStr.lower. induction s as [|c s IH]; simpl; [reflexivity|].
  rewrite PyStr_lower_char_idem, IH. reflexivity.
Qed.

Lemma head_not_space_lower s :
  head_not_space (PyStr.lower s) = head_not_space s.
Proof.
  destruct s as [|c s]; simpl; [reflexivity|].
  rewrite PyStr_lower_char_space. reflexivity.
Qed.

(** A lower-cased, stripped string is a fixed point of both. *)
Lemma PyStr_lower_strip_fixed s :
  let u := PyStr.lower (PyStr.strip s) in
  PyStr.lower (PyStr.strip u) = u /\
  head_not_space u = true /\ head_not_space (PyStr.rev u) = true.
Proof.
  cbv zeta. destruct (PyStr_strip_stripped s) as [H1 H2].
  assert (Hh : head_not_space (PyStr.lower (PyStr.strip s)) = true).
  { rewrite head_not_space_lower. exact H1. }
  assert (Hr : head_not_space (PyStr.rev (PyStr.lower (PyStr.strip s))) = true).
  { unfold PyStr.lower. rewrite PyStr_rev_map.
    fold (PyStr.lower (PyStr.rev (PyStr.strip s))).
    rewrite head_not_space_lower. exact H2. }
  split; [|split; assumption].
  rewrite (PyStr_strip_id _ Hh Hr). apply PyStr_lower_idem.
Qed.

Lemma PyStr_startswith_https v :
  PyStr.startswith "https://" ("https://" ++ v) = true.
Proof. destruct v; vm_compute; reflexivity. Qed.

Lemma clean_url_idem (url : cell) : clean_url (Some (clean_url url)) = clean_url url.
Proof.
  destruct url as [s|]; [|reflexivity].
  destruct s as [|c s]; [reflexivity|].
  set (v := PyStr.lower (PyStr.strip (String c s))).
  assert (Hc : clean_url (Some (String c s)) =
               if PyStr.startswith "http://" v || PyStr.startswith "https://" v
               then v else ("https://" ++ v)%string) by reflexivity.
  rewrite Hc. clear Hc.
  destruct (PyStr_lower_strip_fixed (String c s)) as (Hfix & Hh & Hr).
  fold v in Hfix, Hh, Hr. clearbody v.
  destruct (PyStr.startswith "http://" v || PyStr.startswith "https://" v) eqn:Hp.
  - unfold clean_url. destruct v as [|c' v']; [discriminate|].
    cbn [PyStr.truthy negb]. rewrite Hfix, Hp. reflexivity.
  - assert (Hh' : head_not_space ("https://" ++ v) = true) by reflexivity.
    assert (Hr' : head_not_space (PyStr.rev ("https://" ++ v)) = true).
    { rewrite PyStr_rev_app. apply head_not_space_app; [exact Hr|reflexivity]. }
    unfold clean_url. cbn [String.append PyStr.truthy negb].
    change (String "h" (String "t" (String "t" (String "p" (String "s"
              (String ":" (String "/" (String "/" v))))))))
      with ("https://" ++ v)%string.
    rewrite (PyStr_strip_id _ Hh' Hr').
    assert (Hl : PyStr.lower ("https://" ++ v) = ("https://" ++ v)%string).
    { change (PyStr.lower ("https://" ++ v))
        with ("https://" ++ PyStr.lower v)%string.
      rewrite <- Hfix at 1. rewrite PyStr_lower_idem, Hfix. reflexivity. }
    rewrite Hl, PyStr_startswith_https, orb_true_r. reflexivity.
Qed.

(** X12: [clean_url] gives the empty string -- for a missing or empty cell, and
    for no other -- or a URL that starts with a scheme; a cell of blanks
    becomes the bare ["https://"]; and cleaning what it returned changes
    nothing. *)
Theorem clean_url_normalises (url : cell) :
  let u := clean_url url in
  (u = EmptyString <-> url = None \/ url = Some EmptyString) /\
  (u = EmptyString \/ PyStr.startswith "http://" u = true
   \/ PyStr.startswith "https://" u = true) /\
  (forall s, url = Some s -> PyStr.truthy s = true ->
     PyStr.strip s = EmptyString -> u = "https://"%string) /\
  clean_url (Some u) = u.
Proof.
  cbv zeta. split; [|split; [|split; [|apply clean_url_idem]]].
  - destruct url as [[|c s]|]; simpl; [tauto| |tauto].
    set (v := PyStr.lower (PyStr.strip (String c s))).
    split; [|intros [|[=]]; discriminate].
    destruct (PyStr.startswith "http://" v || PyStr.startswith "https://" v) eqn:Hp;
      [|discriminate].
    intros Hv. rewrite Hv in Hp. discriminate.
  - destruct url as [[|c s]|]; simpl; [tauto| |tauto].
    set (v := PyStr.lower (PyStr.strip (String c s))).
    destruct (PyStr.startswith "http://" v || PyStr.startswith "https://" v) eqn:Hp.
    + apply orb_true_iff in Hp. tauto.
    + right; right. apply PyStr_startswith_https.
  - intros s -> Ht Hs. unfold clean_url. rewrite Ht, Hs. reflexivity.
Qed.

Lemma direct_match_none name url table :
  direct_match name url table = None <->
  Forall (fun entry => keyword_hit name url (snd entry) = false) table.
Proof.
  induction table as [|[m kws] rest IH]; simpl.
  - split; auto.
  - destruct (keyword_hit name url kws) eqn:E.
    + split; [discriminate|]. intros H. apply Forall_cons_1 in H as [H _].
      simpl in H. congruence.
    + rewrite IH. split; intros H.
      * constructor; auto.
      * apply Forall_cons_1 in H as [_ H]. exact H.
Qed.

Lemma direct_match_first name url pre m kws post :
  Forall (fun entry => keyword_hit name url (snd entry) = false) pre ->
  keyword_hit name url kws = true ->
  direct_match name url (pre ++ (m, kws) :: post) = Some m.
Proof.
  intros Hpre Hhit. induction pre as [|[m' kws'] pre IH]; simpl.
  - rewrite Hhit. reflexivity.
  - apply Forall_cons_1 in Hpre as [H Hpre]. simpl in H. rewrite H. auto.
Qed.

Lemma direct_match_some name url table m :
  direct_match name url table = Some m ->
  exists pre kws post, table = pre ++ (m, kws) :: post /\
    keyword_hit name url kws = true /\
    Forall (fun entry => keyword_hit name url (snd entry) = false) pre.
Proof.
  induction table as [|[m' kws'] rest IH]; simpl; [discriminate|].
  destruct (keyword_hit name url kws') eqn:E.
  - intros [= <-]. exists [], kws', rest. auto.
  - intros H. destruct (IH H) as (pre & kws & post & -> & Hh & Hp).
    exists ((m', kws') :: pre), kws, post. repeat split; auto.
Qed.

Section ManufacturerFacts.

Variable fuzz_ratio : string -> string -> Z.

Lemma fuzzy_match_pairs name table st :
  fold_left
    (fun st entry => fold_left (fuzzy_step fuzz_ratio name (fst entry)) (snd entry) st)
    table st
  = fold_left (fun st p => fuzzy_step fuzz_ratio name (fst p) st (snd p))
      (keyword_pairs table) st.
Proof.
  revert st. induction table as [|[m kws] rest IH]; intros st; simpl; [reflexivity|].
  rewrite fold_left_app, IH. f_equal.
  clear. revert st. induction kws as [|k kws IH]; intros st; simpl; auto.
Qed.

Lemma fuzzy_invariant_step name seen st p :
  fuzzy_invariant fuzz_ratio name seen st ->
  fuzzy_invariant fuzz_ratio name (seen ++ [p])
    (fuzzy_step fuzz_ratio name (fst p) st (snd p)).
Proof.
  destruct p as [m' k']. unfold fuzzy_step. simpl.
  set (r := fuzz_ratio k' name).
  assert (Hin : forall (q : string * string) (b : Z),
            (forall p, In p seen -> fuzz_ratio (snd p) name <= b) -> r <= b ->
            In q (seen ++ [(m', k')]) -> fuzz_ratio (snd q) name <= b).
  { intros q b Hs Hr Hq. apply in_app_or in Hq as [Hq|[<-|[]]]; auto. }
  intros Hinv.
  assert (Hseen : forall p, In p seen ->
            fuzz_ratio (snd p) name <= Z.max 80 (snd st)).
  { intros p Hp. destruct Hinv as [(_ & _ & Hs)|(m & k & _ & _ & Hhi & _ & Hs)];
      specialize (Hs p Hp); lia. }
  destruct ((r >? snd st) && (r >? 80)) eqn:E.
  - apply andb_prop in E as [E1 E2].
    right. exists m', k'. simpl. fold r.
    split; [reflexivity|]. split; [apply in_or_app; right; left; reflexivity|].
    split; [reflexivity|]. split; [lia|].
    intros q. apply Hin; [|lia].
    intros p Hp. specialize (Hseen p Hp). lia.
  - apply andb_false_iff in E.
    destruct Hinv as [(Hn & H0 & Hs)|(m & k & Hm & Hmk & Hhi & H80 & Hs)].
    + left. split; [exact Hn|]. split; [exact H0|].
      intros q. apply Hin; [exact Hs|]. destruct E as [E|E]; lia.
    + right. exists m, k. split; [exact Hm|].
      split; [apply in_or_app; left; exact Hmk|].
      split; [exact Hhi|]. split; [exact H80|].
      intros q. apply Hin; [exact Hs|]. destruct E as [E|E]; lia.
Qed.

Lemma fuzzy_invariant_fold name l : forall seen st,
  fuzzy_invariant fuzz_ratio name seen st ->
  fuzzy_invariant fuzz_ratio name (seen ++ l)
    (fold_left (fun st p => fuzzy_step fuzz_ratio name (fst p) st (snd p)) l st).
Proof.
  induction l as [|p l IH]; intros seen st Hinv; simpl.
  - rewrite app_nil_r. exact Hinv.
  - replace (seen ++ p :: l) with ((seen ++ [p]) ++ l)
      by (rewrite <- app_assoc; reflexivity).
    apply IH, fuzzy_invariant_step, Hinv.
Qed.

Lemma fuzzy_match_invariant name :
  fuzzy_invariant fuzz_ratio name (keyword_pairs manufacturer_data)
    (fuzzy_match fuzz_ratio name manufacturer_data).
Proof.
  unfold fuzzy_match. rewrite fuzzy_match_pairs.
  apply (fuzzy_invariant_fold name _ [] (None, 0)).
  left. simpl. repeat split; auto. intros p [].
Qed.

Lemma manufacturer_names_proper p :
  In p (keyword_pairs manufacturer_data) ->
  PyStr.truthy (fst p) = true /\ fst p <> "Other"%string.
Proof.
  assert (H : forallb (fun p => PyStr.truthy (fst p)
                         && negb (String.eqb (fst p) "Other"))
                (keyword_pairs manufacturer_data) = true)
    by (vm_compute; reflexivity).
  rewrite forallb_forall in H. intros Hp. specialize (H p Hp).
  apply andb_prop in H as [H1 H2]. split; [exact H1|].
  apply negb_true_iff, String.eqb_neq in H2. exact H2.
Qed.

(** X13: A keyword found in the name or in the URL decides: the answer is the
    first manufacturer of the table that has such a keyword, whatever the
    similarity scores are. *)
Theorem direct_keyword_match_wins
    (row : Row) (pre post : list (string * list string))
    (m : string) (kws : list string) :
  let name := PyStr.lower (str_cell (DealershipName row)) in
  let url := PyStr.lower (str_cell (Website row)) in
  manufacturer_data = pre ++ (m, kws) :: post ->
  keyword_hit name url kws = true ->
  Forall (fun entry => keyword_hit name url (snd entry) = false) pre ->
  identify_manufacturer fuzz_ratio row = m.
Proof.
  intros name url Htab Hhit Hpre. unfold identify_manufacturer.
  fold name url. rewrite Htab.
  rewrite (direct_match_first name url pre m kws post Hpre Hhit). reflexivity.
Qed.

(** X14: With no keyword in the name or the URL, the similarity scores of the
    keywords against the name decide.  The answer is ["Other"] if and only
    if no keyword scores above 80 -- a score of exactly 80 is not enough;
    otherwise it is the manufacturer of a keyword that scores above 80 and
    at least as high as every other keyword. *)
Theorem fuzzy_match_needs_ratio_above_80 (row : Row) :
  let name := PyStr.lower (str_cell (DealershipName row)) in
  let url := PyStr.lower (str_cell (Website row)) in
  let pairs := keyword_pairs manufacturer_data in
  Forall (fun entry => keyword_hit name url (snd entry) = false) manufacturer_data ->
  (identify_manufacturer fuzz_ratio row = "Other"%string <->
     forall p, In p pairs -> fuzz_ratio (snd p) name <= 80) /\
  (identify_manufacturer fuzz_ratio row <> "Other"%string ->
     exists k, In (identify_manufacturer fuzz_ratio row, k) pairs /\
       80 < fuzz_ratio k name /\
       forall p, In p pairs -> fuzz_ratio (snd p) name <= fuzz_ratio k name).
Proof.
  intros name url pairs Hno. unfold identify_manufacturer. fold name url.
  apply direct_match_none in Hno. rewrite Hno.
  destruct (fuzzy_match_invariant name)
    as [(Hn & _ & Hs)|(m & k & Hm & Hmk & _ & H80 & Hs)].
  - rewrite Hn. split; [split; auto|]. congruence.
  - rewrite Hm. destruct (manufacturer_names_proper _ Hmk) as [Ht Hoth].
    simpl in Ht, Hoth. rewrite Ht. split.
    + split; [congruence|]. intros Hall. specialize (Hall _ Hmk). simpl in Hall. lia.
    + intros _. exists k. auto.
Qed.

End ManufacturerFacts.

(** "Lincoln Park Toyota" holds a keyword of Toyota and one of Ford;
    Toyota comes first in the table. *)
Lemma direct_keyword_match_wins_witness :
  identify_manufacturer one_letter_off
    (mkRow (Some "Lincoln Park Toyota") (Some "www.lptoyota.example"))%string
  = "Toyota"%string.
Proof.
  apply (direct_keyword_match_wins one_letter_off
           (mkRow (Some "Lincoln Park Toyota") (Some "www.lptoyota.example"))%string
           [] (tl manufacturer_data) "Toyota" ["toyota"; "lexus"]%string).
  - reflexivity.
  - vm_compute. reflexivity.
  - constructor.
Defined.

(** "Tesle" is one letter off "tesla": the score is 80, and the answer is
    ["Other"]. *)
Lemma fuzzy_match_needs_ratio_above_80_witness :
  identify_manufacturer one_letter_off tesle_row = "Other"%string.
Proof.
  pose proof (fuzzy_match_needs_ratio_above_80 one_letter_off tesle_row) as H.
  cbv zeta in H. destruct H as [[_ H] _].
  - apply direct_match_none. vm_compute. reflexivity.
  - apply H. intros p _. unfold one_letter_off.
    destruct (String.eqb (snd p) "tesla"); lia.
Defined.

(** ** The batch verifier: rows and batches *)

Lemma retry_loop_total {A : Type} max_retries backoff_factor max_backoff
    retry_exceptions urandom
    (func : list string -> gmap string string -> World -> outcome A * World)
    key args kwargs :
  forall fuel retries backoff w,
    (0 < fuel)%nat -> max_retries - retries + 1 <= Z.of_nat fuel ->
    exists r, retry_loop max_retries backoff_factor max_backoff retry_exceptions
                urandom func fuel key args kwargs retries backoff w = Some r.
Proof.
  induction fuel as [|fuel IH]; intros retries backoff w Hpos Hf; [lia|].
  simpl. destruct (func args kwargs (count_call w)) as [[v|e] w1]; eauto.
  destruct (isinstance e retry_exceptions); eauto.
  destruct (retries + 1 >? max_retries) eqn:E; eauto.
  apply IH; lia.
Qed.

Lemma retry_with_backoff_total {A : Type} max_retries initial_backoff
    backoff_factor max_backoff retry_exceptions urandom func_name
    (func : list string -> gmap string string -> World -> outcome A * World)
    args kwargs w :
  exists r, retry_with_backoff max_retries initial_backoff backoff_factor
              max_backoff retry_exceptions urandom func_name func args kwargs w
            = Some r.
Proof.
  unfold retry_with_backoff.
  destruct (pop_resource_key func_name kwargs) as [key kwargs'].
  destruct (world_check_circuit key w) as [[|] w0]; eauto.
  apply retry_loop_total; lia.
Qed.

(** A function that keeps raising the same retry exception, and leaves
    the tracker as it is, is given up after [max_retries + 1] invocations,
    with that one error recorded. *)
Lemma retry_loop_steady_failure {A : Type} max_retries backoff_factor max_backoff
    retry_exceptions urandom
    (func : list string -> gmap string string -> World -> outcome A * World)
    key args kwargs e t0 :
  isinstance e retry_exceptions = true ->
  (forall w, tracker w = t0 ->
     exists w', func args kwargs w = (Raised e, w') /\
       tracker w' = t0 /\ calls w' = calls w) ->
  forall fuel retries backoff w,
    tracker w = t0 -> retries <= max_retries ->
    Z.of_nat fuel = max_retries + 1 - retries ->
    exists w', retry_loop max_retries backoff_factor max_backoff retry_exceptions
                 urandom func fuel key args kwargs retries backoff w
               = Some (Raised e, w') /\
      calls w' = (calls w + fuel)%nat /\
      tracker w' = record_error key (type_name e) (clock w') t0.
Proof.
  intros Hre Hf. induction fuel as [|fuel IH]; intros retries backoff w Ht Hr Hfuel.
  - lia.
  - simpl. destruct (Hf (count_call w) Ht) as (w1 & -> & Ht1 & Hc1).
    rewrite Hre. simpl in Hc1.
    destruct (retries + 1 >? max_retries) eqn:E.
    + eexists. split; [reflexivity|]. simpl. rewrite Ht1. split; [lia|reflexivity].
    + edestruct (IH (retries + 1)) as (w' & Hl & Hc & Htr);
        [| |lia|rewrite Hl; exists w'; split; [reflexivity|split; [|exact Htr]]].
      * exact Ht1.
      * lia.
      * rewrite Hc. simpl. lia.
Qed.

Lemma world_check_circuit_closed key w :
  circuit_open (tracker w) !! key <> Some true ->
  world_check_circuit key w = (false, w).
Proof.
  intros H. unfold world_check_circuit.
  rewrite (check_circuit_not_open key (clock w) (tracker w) H).
  rewrite set_tracker_same. reflexivity.
Qed.

Lemma world_check_circuit_open key w :
  fst (check_circuit key (clock w) (tracker w)) = true ->
  world_check_circuit key w = (true, w).
Proof.
  intros H. unfold world_check_circuit.
  destruct (check_circuit key (clock w) (tracker w)) as [b t] eqn:E.
  simpl in H. subst b. apply check_circuit_true_same in E. subst t.
  rewrite set_tracker_same. reflexivity.
Qed.

Lemma verify_url_kwargs domain :
  pop_resource_key "verify_url" {[ "resource_key"%string := domain ]}
    = ("verify_url"%string, {[ "resource_key"%string := domain ]}) /\
  bool_decide (delete "resource_key"%string
                 ({[ "resource_key"%string := domain ]} : gmap string string) = ∅)
    = true /\
  ({[ "resource_key"%string := domain ]} : gmap string string)
    !! "resource_key"%string = Some domain.
Proof.
  split; [|split].
  - unfold pop_resource_key.
    rewrite lookup_singleton_ne by discriminate.
    rewrite delete_singleton_ne by discriminate. reflexivity.
  - apply bool_decide_eq_true. apply delete_singleton_eq.
  - apply lookup_singleton_eq.
Qed.

Section VerifierFacts.

Variable urandom : nat -> Z.
Variables requests_head requests_get : string -> World -> outcome Response * World.
Variable urlparse_netloc : string -> outcome string.
Variable new_extractor : World -> outcome unit * World.
Variable extractor_extract : string -> World -> outcome Contacts * World.
Variable extractor_cleanup : World -> World.
Variable fuzz_ratio : string -> string -> Z.
Variable is_shutdown_requested : World -> bool.

Local Abbreviation the_verify_url :=
  (verify_url urandom requests_head requests_get urlparse_netloc).
Local Abbreviation the_scrape_contacts :=
  (scrape_contacts urandom urlparse_netloc new_extractor extractor_extract
     extractor_cleanup).
Local Abbreviation the_process_row :=
  (process_row urandom requests_head requests_get urlparse_netloc new_extractor
     extractor_extract extractor_cleanup fuzz_ratio).
Local Abbreviation the_batch_loop :=
  (batch_loop urandom requests_head requests_get urlparse_netloc new_extractor
     extractor_extract extractor_cleanup fuzz_ratio is_shutdown_requested).
Local Abbreviation the_process_batch :=
  (process_batch urandom requests_head requests_get urlparse_netloc new_extractor
     extractor_extract extractor_cleanup fuzz_ratio is_shutdown_requested).

(** A row ends in one of two ways, and the handler of [process_batch]
    decides which by whether verification raised. *)
Lemma process_row_cases row v w :
  (exists e w', the_process_row row v w = Some (inr (failed_record row e), v, w')) \/
  (exists result v' w',
     the_process_row row v w = Some (inl result, v', w') /\
     result_name result = DealershipName row /\
     result_website result = clean_url (Website row) /\
     Manufacturer result = identify_manufacturer fuzz_ratio row /\
     total_processed v' = total_processed v + 1 /\
     active_websites v' = active_websites v + (if IsActive result then 1 else 0) /\
     manufacturer_counts v' =
       <[Manufacturer result :=
           default 0 (manufacturer_counts v !! Manufacturer result) + 1]>
         (manufacturer_counts v) /\
     failed_dealerships v' = failed_dealerships v).
Proof.
  unfold process_row.
  destruct (urlparse_netloc (clean_url (Website row))) as [domain|e]; [|eauto].
  destruct (world_check_circuit domain w) as [is_open w0].
  assert (Hv : exists o w1,
            (if is_open then Some (Returned (false, None), w0)
             else verify_url urandom requests_head requests_get urlparse_netloc
                    [clean_url (Website row)]
                    {[ "resource_key"%string := domain ]} w0) = Some (o, w1)).
  { destruct is_open; [eauto|].
    destruct (retry_with_backoff_total 3 1 2 15 default_retry_exceptions urandom
                "verify_url"
                (verify_url_call requests_head requests_get urlparse_netloc)
                [clean_url (Website row)]
                {[ "resource_key"%string := domain ]} w0) as [[o w1] H].
    exists o, w1. exact H. }
  destruct Hv as (o & w1 & ->). cbn [mbind option_bind].
  destruct o as [[is_active final_url]|e]; [|eauto].
  right. destruct is_active.
  - destruct (retry_with_backoff_total 2 2 2 30 default_retry_exceptions urandom
                "scrape_contacts"
                (scrape_contacts_call urlparse_netloc new_extractor
                   extractor_extract extractor_cleanup)
                [default EmptyString final_url] ∅ w1) as [[o2 w2] H].
    unfold scrape_contacts. rewrite H. cbn [mbind option_bind].
    eexists _, _, _. split; [reflexivity|]. simpl. repeat split; lia.
  - cbn [mbind option_bind].
    eexists _, _, _. split; [reflexivity|]. simpl. repeat split; lia.
Qed.

(** C8, amended.  Every row that yields a result record, active or not,
    is classified by [identify_manufacturer]: the record carries its
    answer.  That answer is the first manufacturer of the table one of
    whose keywords occurs in the name or the URL.  With no such keyword
    the similarity scores of the keywords against the name decide: the
    answer is the manufacturer of a keyword with the highest score
    provided that score is above 80 -- exactly 80 is not enough -- and
    ["Other"] if no keyword scores above 80. *)
Theorem classification_first_keyword_then_fuzzy (row : Row) :
  let name := PyStr.lower (str_cell (DealershipName row)) in
  let url := PyStr.lower (str_cell (Website row)) in
  let pairs := keyword_pairs manufacturer_data in
  (forall v w result v' w',
     the_process_row row v w = Some (inl result, v', w') ->
     Manufacturer result = identify_manufacturer fuzz_ratio row) /\
  (forall pre m kws post,
     manufacturer_data = pre ++ (m, kws) :: post ->
     keyword_hit name url kws = true ->
     Forall (fun entry => keyword_hit name url (snd entry) = false) pre ->
     identify_manufacturer fuzz_ratio row = m) /\
  (Forall (fun entry => keyword_hit name url (snd entry) = false) manufacturer_data ->
     (identify_manufacturer fuzz_ratio row = "Other"%string <->
        forall p, In p pairs -> fuzz_ratio (snd p) name <= 80) /\
     (identify_manufacturer fuzz_ratio row <> "Other"%string ->
        exists k, In (identify_manufacturer fuzz_ratio row, k) pairs /\
          80 < fuzz_ratio k name /\
          forall p, In p pairs -> fuzz_ratio (snd p) name <= fuzz_ratio k name)).
Proof.
  intros name url pairs. split; [|split].
  - intros v w result v' w' Hrow.
    destruct (process_row_cases row v w)
      as [(e & w0 & H)|(result0 & v0 & w0 & H & _ & _ & Hm & _)];
      rewrite H in Hrow; [discriminate|].
    injection Hrow as <- _ _. exact Hm.
  - intros pre m kws post Htab Hhit Hpre. unfold identify_manufacturer.
    fold name url. rewrite Htab.
    rewrite (direct_match_first name url pre m kws post Hpre Hhit). reflexivity.
  - intros Hno. unfold identify_manufacturer. fold name url.
    apply direct_match_none in Hno. rewrite Hno.
    destruct (fuzzy_match_invariant fuzz_ratio name)
      as [(Hn & _ & Hs)|(m & k & Hm & Hmk & _ & H80 & Hs)].
    + rewrite Hn. split; [split; auto|]. congruence.
    + rewrite Hm. destruct (manufacturer_names_proper _ Hmk) as [Ht Hoth].
      simpl in Ht, Hoth. rewrite Ht. split.
      * split; [congruence|]. intros Hall. specialize (Hall _ Hmk).
        simpl in Hall. lia.
      * intros _. exists k. auto.
Qed.

Lemma batch_loop_accounts batch : forall results failed v w,
  exists results' failed' v' w' n,
    the_batch_loop batch results failed v w
      = Some (results ++ results', failed ++ failed', v', w') /\
    (n <= length batch)%nat /\
    (n = length batch \/ is_shutdown_requested w' = true) /\
    (result_name <$> results') ++ (failed_name <$> failed')
      ≡ₚ DealershipName <$> take n batch /\
    total_processed v' = total_processed v + Z.of_nat (length results') /\
    active_websites v' = active_websites v + active_count results' /\
    sum_values (manufacturer_counts v')
      = sum_values (manufacturer_counts v) + Z.of_nat (length results') /\
    failed_dealerships v' = failed_dealerships v.
Proof.
  induction batch as [|row rest IH]; intros results failed v w.
  - exists [], [], v, w, 0%nat. simpl. rewrite !app_nil_r.
    repeat split; auto; unfold active_count; simpl; lia.
  - simpl. destruct (is_shutdown_requested w) eqn:Hs.
    { exists [], [], v, w, 0%nat. simpl. rewrite !app_nil_r.
      repeat split; auto; try lia. unfold active_count; simpl; lia. }
    destruct (process_row_cases row v w)
      as [(e & w1 & Hrow)|(r & v1 & w1 & Hrow & Hname & _ & _ & Htp & Haw & Hmc & Hfd)];
      rewrite Hrow; cbn [mbind option_bind].
    + destruct (IH results (failed ++ [failed_record row e]) v w1)
        as (rs & fs & v' & w' & n & Hl & Hn & Hstop & Hperm & Ht & Ha & Hm & Hf).
      exists rs, (failed_record row e :: fs), v', w', (S n).
      rewrite Hl, <- app_assoc. split; [reflexivity|].
      split; [simpl; lia|]. split; [destruct Hstop; [left; simpl; lia|right; auto]|].
      split; [|auto].
      simpl. rewrite <- Hperm. symmetry. apply Permutation_middle.
    + destruct (IH (results ++ [r]) failed v1 w1)
        as (rs & fs & v' & w' & n & Hl & Hn & Hstop & Hperm & Ht & Ha & Hm & Hf).
      exists (r :: rs), fs, v', w', (S n).
      rewrite Hl, <- app_assoc. split; [reflexivity|].
      split; [simpl; lia|]. split; [destruct Hstop; [left; simpl; lia|right; auto]|].
      split; [simpl; rewrite Hname, <- Hperm; reflexivity|].
      split; [rewrite Ht, Htp; simpl length; lia|].
      split.
      { rewrite Ha, Haw. unfold active_count. simpl.
        destruct (IsActive r); simpl length; lia. }
      split; [|congruence].
      rewrite Hm, Hmc, sum_values_bump. simpl length. lia.
Qed.

(** X15: Every row a batch gets to is accounted for exactly once, as a result
    or as a failure: the names of the results and of the new failures are,
    together, the names of the first [n] rows, where [n] is the whole batch
    unless a shutdown was requested in between.  [total_processed] grows by
    the number of results only -- failed rows are not counted --,
    [active_websites] by the number of active results, the manufacturer
    counts by one per result, and [failed_dealerships] by the failures.
    The call always returns: no failure of a row ends the batch. *)
Theorem process_batch_accounts_for_every_row
    (batch : list Row) (v : Verifier) (w : World) :
  exists results failed v' w' n,
    the_process_batch batch v w = Some (results, v', w') /\
    (n <= length batch)%nat /\
    (n = length batch \/ is_shutdown_requested w' = true) /\
    (result_name <$> results) ++ (failed_name <$> failed)
      ≡ₚ DealershipName <$> take n batch /\
    failed_dealerships v' = failed_dealerships v ++ failed /\
    total_processed v' = total_processed v + Z.of_nat (length results) /\
    active_websites v' = active_websites v + active_count results /\
    sum_values (manufacturer_counts v')
      = sum_values (manufacturer_counts v) + Z.of_nat (length results).
Proof.
  unfold process_batch.
  destruct (batch_loop_accounts batch [] [] v w)
    as (rs & fs & v' & w' & n & Hl & Hn & Hstop & Hperm & Ht & Ha & Hm & Hf).
  rewrite Hl. cbn [mbind option_bind app].
  eexists rs, fs, _, w', n. split; [reflexivity|].
  split; [exact Hn|]. split; [exact Hstop|]. split; [exact Hperm|].
  destruct fs as [|f fs]; simpl.
  - rewrite app_nil_r. auto.
  - rewrite Hf. auto.
Qed.

(** X16: A site that cannot be reached -- every request is refused or times
    out -- is not reported as an inactive site.  The request is made four
    times (the first attempt and three retries), the error is then recorded
    once, against the circuit named after the function and not against the
    site's domain, and the row ends in the failure list, with none of the
    counters changed.  The record adds one to the error total of
    [verify_url] and to its count for the class of the error and sets its
    last error time; what the tracker holds for the site's domain is as it
    was. *)
Theorem unreachable_site_is_recorded_as_failure
    (row : Row) (v : Verifier) (w : World) (domain : string) (e : exn) :
  let url := clean_url (Website row) in
  url <> EmptyString ->
  urlparse_netloc url = Returned domain ->
  circuit_open (tracker w) !! domain <> Some true ->
  circuit_open (tracker w) !! "verify_url"%string <> Some true ->
  isinstance e [RequestsConnectionError; ReadTimeout] = true ->
  (forall w0, exists w1, requests_head url w0 = (Raised e, w1) /\
     tracker w1 = tracker w0 /\ calls w1 = calls w0) ->
  exists w',
    the_process_row row v w = Some (inr (failed_record row e), v, w') /\
    calls w' = (calls w + 4)%nat /\
    tracker w' = record_error "verify_url" (type_name e) (clock w') (tracker w) /\
    total_errors (tracker w') "verify_url"
      = total_errors (tracker w) "verify_url" + 1 /\
    error_count (tracker w') "verify_url" (type_name e)
      = error_count (tracker w) "verify_url" (type_name e) + 1 /\
    last_error_time (tracker w') !! "verify_url"%string = Some (clock w') /\
    (domain <> "verify_url"%string ->
     resource_state domain (tracker w') = resource_state domain (tracker w)).
Proof.
  intros url Hne Hparse Hdom Hfun Hcls Hhead.
  assert (Hretry : isinstance e default_retry_exceptions = true).
  { destruct e as [c m s]. destruct c; simpl in *; try discriminate; reflexivity. }
  assert (Hreq : isinstance e [RequestException] = true).
  { destruct e as [c m s]. destruct c; simpl in *; try discriminate; reflexivity. }
  assert (Hrec : forall w0, handle_network_error e w0 = (true, w0)).
  { intros w0. unfold handle_network_error.
    destruct e as [c m s]. destruct c; simpl in *; try discriminate; reflexivity. }
  destruct (verify_url_kwargs domain) as (Hpop & Hdel & Hlook).
  assert (Hidem : clean_url (Some url) = url) by apply clean_url_idem.
  unfold process_row. fold url. clearbody url.
  assert (Hcall : forall w0, tracker w0 = tracker w ->
            exists w1,
              verify_url_call requests_head requests_get urlparse_netloc [url]
                {[ "resource_key"%string := domain ]} w0 = (Raised e, w1) /\
              tracker w1 = tracker w /\ calls w1 = calls w0).
  { intros w0 Ht. unfold verify_url_call. rewrite Hdel, Hlook.
    unfold verify_url_func, verify_url_request. rewrite Hidem.
    destruct url as [|c u]; [contradiction|]. cbn [PyStr.truthy negb].
    rewrite world_check_circuit_closed by (rewrite Ht; exact Hdom).
    destruct (Hhead w0) as (w1 & -> & Ht1 & Hc1).
    rewrite Hreq, Hrec. cbn [negb].
    exists w1. split; [reflexivity|]. split; [congruence|exact Hc1]. }
  rewrite Hparse.
  rewrite (world_check_circuit_closed domain w Hdom).
  unfold verify_url, retry_with_backoff. rewrite Hpop.
  rewrite (world_check_circuit_closed "verify_url" w Hfun).
  destruct (retry_loop_steady_failure 3 2 15 default_retry_exceptions urandom
              (verify_url_call requests_head requests_get urlparse_netloc)
              "verify_url" [url] {[ "resource_key"%string := domain ]} e
              (tracker w) Hretry Hcall 4%nat 0 1 w eq_refl)
    as (w' & Hl & Hc & Htr); [lia|reflexivity|].
  change (S (Z.to_nat 3)) with 4%nat. rewrite Hl. cbn [mbind option_bind].
  exists w'. split; [reflexivity|]. split; [exact Hc|]. split; [exact Htr|].
  rewrite Htr.
  split; [apply record_error_total|]. split; [apply record_error_count|].
  split; [apply record_error_last|].
  intros Hkey. unfold resource_state.
  destruct (record_error_other "verify_url" (type_name e) (clock w') (tracker w)
              domain) as (-> & -> & ->); [congruence|reflexivity].
Qed.

(** X17: The two circuits a row meets differ in what they do to it.  An open
    circuit for the site's domain skips verification and yields an
    inactive result, which counts as processed.  With that circuit closed,
    an open circuit for [verify_url] -- the one every site shares -- yields
    a failure: the row is not counted.  Either way no request is made and
    the process is left as it was. *)
Theorem open_circuit_skips_or_fails_row
    (row : Row) (v : Verifier) (w : World) (domain : string) :
  let url := clean_url (Website row) in
  urlparse_netloc url = Returned domain ->
  (fst (check_circuit domain (clock w) (tracker w)) = true ->
   exists result v',
     the_process_row row v w = Some (inl result, v', w) /\
     IsActive result = false /\ FinalURL result = url /\
     result_contacts result = [] /\
     total_processed v' = total_processed v + 1 /\
     active_websites v' = active_websites v) /\
  (circuit_open (tracker w) !! domain <> Some true ->
   fst (check_circuit "verify_url" (clock w) (tracker w)) = true ->
   the_process_row row v w
     = Some (inr (failed_record row (circuit_open_exn "verify_url")), v, w)).
Proof.
  intros url Hparse. split.
  - intros Hopen. unfold process_row. fold url. rewrite Hparse.
    rewrite (world_check_circuit_open domain w Hopen). cbn [mbind option_bind].
    eexists _, _. split; [reflexivity|]. simpl. repeat split; lia.
  - intros Hdom Hopen. unfold process_row. fold url. rewrite Hparse.
    rewrite (world_check_circuit_closed domain w Hdom).
    destruct (verify_url_kwargs domain) as (Hpop & _ & _).
    unfold verify_url, retry_with_backoff. rewrite Hpop.
    rewrite (world_check_circuit_open "verify_url" w Hopen).
    reflexivity.
Qed.

(** X18: [verify_url] reports a site active only on the strength of a
    response: the URL is not empty, the response -- the one to HEAD if its
    status is 200, else the one to GET -- has a status from 200 to 299, its
    final URL holds none of the error-page markers, and that URL is the
    one reported. *)
Theorem active_means_a_2xx_response
    (url : string) (resource_key : option string) (w w' : World)
    (final_url : option string) :
  verify_url_func requests_head requests_get urlparse_netloc url resource_key w
    = (Returned (true, final_url), w') ->
  url <> EmptyString /\
  exists response w0 w1,
    (requests_head (clean_url (Some url)) w0 = (Returned response, w1) /\
     status_code response = 200
     \/
     exists first,
       requests_head (clean_url (Some url)) w0 = (Returned first, w1) /\
       status_code first <> 200 /\
       requests_get (clean_url (Some url)) w1 = (Returned response, w')) /\
    200 <= status_code response < 300 /\
    final_url = Some (response_url response) /\
    Forall (fun x => PyStr.contains x (PyStr.lower (response_url response)) = false)
      error_page_markers.
Proof.
  unfold verify_url_func.
  destruct url as [|c u]; [discriminate|]. cbn [PyStr.truthy negb].
  intros H. split; [discriminate|].
  destruct (match resource_key with
            | Some key => Returned key
            | None => _
            end) as [key|e]; [|discriminate].
  destruct (world_check_circuit key w) as [[|] w0]; [discriminate|].
  unfold verify_url_request in H.
  set (target := clean_url (Some (String c u))) in *.
  destruct (requests_head target w0) as [[first|e] w1] eqn:Hhead.
  2:{ destruct (isinstance e [RequestException]);
        [destruct (handle_network_error e w1) as [[|] ?]|]; discriminate. }
  destruct (negb (status_code first =? 200)) eqn:H200.
  - destruct (requests_get target w1) as [[response|e] w2] eqn:Hget.
    2:{ destruct (isinstance e [RequestException]);
          [destruct (handle_network_error e w2) as [[|] ?]|]; discriminate. }
    destruct (existsb _ error_page_markers) eqn:Hmark; [discriminate|].
    destruct (if has_cf_ray response then _ else _) as [t|e].
    2:{ destruct (isinstance e [RequestException]);
          [destruct (handle_network_error e w2) as [[|] ?]|]; discriminate. }
    injection H as Hact Hfin Hw. subst w2.
    exists response, w0, w1. split.
    { right. exists first. split; [exact Hhead|]. split; [|exact Hget].
      apply negb_true_iff, Z.eqb_neq in H200. exact H200. }
    split; [lia|]. split; [auto|].
    apply Forall_forall. intros x Hx.
    apply not_true_is_false. intros Hc.
    assert (existsb (fun x => PyStr.contains x (PyStr.lower (response_url response)))
              error_page_markers = true)
      by (apply existsb_exists; exists x; split; [apply list_elem_of_In|]; auto).
    congruence.
  - destruct (existsb _ error_page_markers) eqn:Hmark; [discriminate|].
    destruct (if has_cf_ray first then _ else _) as [t|e].
    2:{ destruct (isinstance e [RequestException]);
          [destruct (handle_network_error e w1) as [[|] ?]|]; discriminate. }
    injection H as Hact Hfin Hw. subst w1.
    exists first, w0, w'. split.
    { left. split; [exact Hhead|].
      apply negb_false_iff, Z.eqb_eq in H200. exact H200. }
    split; [lia|]. split; [auto|].
    apply Forall_forall. intros x Hx.
    apply not_true_is_false. intros Hc.
    assert (existsb (fun x => PyStr.contains x (PyStr.lower (response_url first)))
              error_page_markers = true)
      by (apply existsb_exists; exists x; split; [apply list_elem_of_In|]; auto).
    congruence.
Qed.







End VerifierFacts.



(** C8 as stated fails: a highest score of exactly 80 does not give the
    keyword's manufacturer.  "Tesle" holds no keyword and scores 80
    against "tesla"; the answer is ["Other"]. *)
Lemma ratio_of_exactly_80_is_not_enough :
  ~ (forall (fuzz_ratio : string -> string -> Z) (row : Row) (m k : string),
       let name := PyStr.lower (str_cell (DealershipName row)) in
       let url := PyStr.lower (str_cell (Website row)) in
       Forall (fun entry => keyword_hit name url (snd entry) = false)
         manufacturer_data ->
       In (m, k) (keyword_pairs manufacturer_data) ->
       80 <= fuzz_ratio k name ->
       (forall p, In p (keyword_pairs manufacturer_data) ->
          fuzz_ratio (snd p) name <= fuzz_ratio k name) ->
       identify_manufacturer fuzz_ratio row = m).
Proof.
  intros H.
  specialize (H one_letter_off tesle_row "Tesla"%string "tesla"%string).
  cbv zeta in H.
  assert (Hother : identify_manufacturer one_letter_off tesle_row = "Other"%string)
    by (vm_compute; reflexivity).
  rewrite Hother in H.
  assert (Habs : "Other"%string = "Tesla"%string); [|discriminate Habs].
  apply H.
  - apply direct_match_none. vm_compute. reflexivity.
  - unfold keyword_pairs, manufacturer_data. cbn [flat_map map app fst snd].
    repeat (first [left; reflexivity | right]).
  - vm_compute. discriminate.
  - intros p _. unfold one_letter_off.
    change (String.eqb "tesla" "tesla") with true. cbn iota.
    destruct (String.eqb (snd p) "tesla"); lia.
Qed.

(** "Tesle" at [www.ev-cars.example], a host that answers 404: the row
    gives an inactive result, classified all the same, as ["Other"];
    "Lincoln Park Toyota" holds a keyword of Toyota and one of Ford, and
    Toyota comes first in the table. *)
Lemma classification_first_keyword_then_fuzzy_witness :
  (exists result v' w',
     sample_process_row tesle_row new_verifier initial_world
       = Some (inl result, v', w') /\
     IsActive result = false /\
     Manufacturer result = "Other"%string) /\
  identify_manufacturer one_letter_off
    (mkRow (Some "Lincoln Park Toyota") (Some "www.lptoyota.example"))%string
  = "Toyota"%string.
Proof.
  split.
  - pose proof (classification_first_keyword_then_fuzzy (fun _ => 0)
      sample_request sample_request sample_netloc sample_new_extractor
      sample_extract (fun w => w) one_letter_off tesle_row) as H.
    cbv zeta in H. destruct H as (Hrec & _ & Hfuzzy).
    destruct (sample_process_row tesle_row new_verifier initial_world)
      as [[[[result|failed] v'] w']|] eqn:E;
      [|vm_compute in E; discriminate E|vm_compute in E; discriminate E].
    exists result, v', w'. split; [reflexivity|]. split.
    + vm_compute in E. injection E as <- _ _. reflexivity.
    + rewrite (Hrec _ _ _ _ _ E).
      destruct Hfuzzy as [[_ Hother] _].
      * apply direct_match_none. vm_compute. reflexivity.
      * apply Hother. intros p _. unfold one_letter_off.
        destruct (String.eqb (snd p) "tesla"); lia.
  - pose proof (classification_first_keyword_then_fuzzy (fun _ => 0)
      sample_request sample_request sample_netloc sample_new_extractor
      sample_extract (fun w => w) one_letter_off
      (mkRow (Some "Lincoln Park Toyota") (Some "www.lptoyota.example"))%string) as H.
    cbv zeta in H. destruct H as (_ & Hfirst & _).
    apply (Hfirst [] "Toyota"%string ["toyota"; "lexus"]%string (tl manufacturer_data)).
    + reflexivity.
    + vm_compute. reflexivity.
    + constructor.
Defined.

(** [down.example] refuses the connection: four attempts, then a failure
    record. *)
Lemma unreachable_site_is_recorded_as_failure_witness :
  exists w',
    sample_process_row down_row new_verifier initial_world
      = Some (inr (failed_record down_row
                     (mkExn RequestsConnectionError "Connection refused" 0)),
              new_verifier, w') /\
    calls w' = 4%nat.
Proof.
  destruct (unreachable_site_is_recorded_as_failure (fun _ => 0)
              sample_request sample_request sample_netloc sample_new_extractor
              sample_extract (fun w => w) one_letter_off
              down_row new_verifier initial_world "down.example"
              (mkExn RequestsConnectionError "Connection refused" 0))
    as (w' & Hrow & Hc & _).
  - vm_compute. discriminate.
  - vm_compute. reflexivity.
  - vm_compute. discriminate.
  - vm_compute. discriminate.
  - reflexivity.
  - intros w0. exists w0. split; [|split; reflexivity].
    vm_compute. reflexivity.
  - exists w'. split; [exact Hrow|exact Hc].
Defined.

(** Five failed sites have opened the circuit of [verify_url]: the live
    site, whose own domain has no error on record, is not even asked. *)
Lemma open_circuit_skips_or_fails_row_witness :
  sample_process_row live_row new_verifier after_five_failures
    = Some (inr (failed_record live_row (circuit_open_exn "verify_url")),
            new_verifier, after_five_failures).
Proof.
  destruct (open_circuit_skips_or_fails_row (fun _ => 0)
              sample_request sample_request sample_netloc sample_new_extractor
              sample_extract (fun w => w) one_letter_off
              live_row new_verifier after_five_failures "live.example")
    as [_ H].
  - vm_compute. reflexivity.
  - apply H.
    + vm_compute. discriminate.
    + vm_compute. reflexivity.
Defined.

Lemma active_means_a_2xx_response_witness :
  exists response,
    sample_request "https://live.example" initial_world
      = (Returned response, initial_world) /\
    status_code response = 200.
Proof.
  destruct (active_means_a_2xx_response sample_request sample_request
              sample_netloc "https://live.example" (Some "live.example"%string)
              initial_world initial_world (Some "https://live.example/"%string))
    as (_ & response & w0 & w1 & Hreq & Hst & Hfin & _).
  - vm_compute. reflexivity.
  - exists (mkResponse 200 "https://live.example/" false (Returned EmptyString)).
    split; reflexivity.
Defined.

(** A batch of three: a live site, one that times out, and one that
    refuses the connection. *)
Example three_row_batch_statistics :
  exists results v' w',
    sample_process_batch [live_row; slow_row; down_row] new_verifier initial_world
      = Some (results, v', w') /\
    result_name <$> results = [Some "Lakeside Toyota"%string] /\
    IsActive <$> results = [true] /\
    total_processed v' = 1 /\
    active_websites v' = 1 /\
    failed_name <$> failed_dealerships v'
      = [Some "Hilltop Ford"; Some "Valley Honda"]%string /\
    Error <$> failed_dealerships v'
      = ["Read timed out"; "Connection refused"]%string /\
    calls w' = 10%nat.
Proof.
  destruct (sample_process_batch [live_row; slow_row; down_row] new_verifier
              initial_world) as [[[results v'] w']|] eqn:E.
  - exists results, v', w'. split; [reflexivity|].
    vm_compute in E. injection E as <- <- <-.
    vm_compute. repeat split; reflexivity.
  - vm_compute in E. discriminate.
Qed.

(** ** Staff candidates: deduplication and ranking *)

Lemma in_seen_known o seen :
  in_seen o seen = true <-> exists s, known o = Some s /\ s ∈ seen.
Proof.
  unfold in_seen, known. destruct o as [s|].
  - destruct (PyStr.truthy s); simpl.
    + rewrite bool_decide_eq_true. split; [eauto|]. intros (s' & [= <-] & H). exact H.
    + split; [discriminate|]. intros (s' & [=] & _).
  - split; [discriminate|]. intros (s' & [=] & _).
Qed.

Lemma add_seen_known o seen x :
  x ∈ add_seen o seen <-> known o = Some x \/ x ∈ seen.
Proof.
  unfold add_seen, known. destruct o as [s|].
  - destruct (PyStr.truthy s).
    + rewrite elem_of_union, elem_of_singleton. split; intros [H|H]; auto.
      * left. congruence.
      * left. congruence.
    + split; [auto|]. intros [[=]|H]; exact H.
  - split; [auto|]. intros [[=]|H]; exact H.
Qed.

Lemma fill_field_name staff existing f :
  name (fill_field staff existing f) = name existing.
Proof.
  unfold fill_field. destruct (_ && _); [|reflexivity]. destruct f; reflexivity.
Qed.

Lemma fill_missing_name staff existing :
  name (fill_missing staff existing) = name existing.
Proof.
  unfold fill_missing. simpl. rewrite !fill_field_name. reflexivity.
Qed.

Lemma merge_by_name_names staff l :
  name <$> merge_by_name staff l = name <$> l.
Proof.
  induction l as [|existing rest IH]; [reflexivity|].
  cbn [merge_by_name].
  destruct (bool_decide (name existing = name staff)) eqn:E.
  - apply bool_decide_eq_true in E.
    destruct (Qgtb _ _); rewrite !fmap_cons;
      [rewrite E|rewrite fill_missing_name]; reflexivity.
  - rewrite !fmap_cons, IH. reflexivity.
Qed.

Lemma known_names_fmap l l' :
  name <$> l = name <$> l' -> known_names l = known_names l'.
Proof.
  unfold known_names. revert l'.
  induction l as [|a l IH]; intros [|b l'] H; try discriminate; [reflexivity|].
  rewrite !fmap_cons in H. injection H as Hab H.
  cbn [omap list_omap]. rewrite Hab, (IH l' H). reflexivity.
Qed.

(** What the loop of [_deduplicate_staff] keeps true: the names seen are
    the names the kept candidates are known by, and no two kept candidates
    are known by the same name. *)
Lemma dedup_step_names st staff :
  (forall x, x ∈ seen_names st <-> x ∈ known_names (unique_staff st)) ->
  NoDup (known_names (unique_staff st)) ->
  (forall x, x ∈ seen_names (dedup_step st staff)
     <-> x ∈ known_names (unique_staff (dedup_step st staff))) /\
  NoDup (known_names (unique_staff (dedup_step st staff))) /\
  (length (unique_staff (dedup_step st staff)) <= S (length (unique_staff st)))%nat /\
  (forall o, o ∈ name <$> unique_staff (dedup_step st staff) ->
     o ∈ name <$> unique_staff st \/ o = name staff) /\
  (unique_staff st <> [] -> unique_staff (dedup_step st staff) <> []).
Proof.
  intros Hseen Hnd. unfold dedup_step.
  destruct (in_seen (email staff) (seen_emails st)).
  { repeat split; auto. - apply Hseen. - apply Hseen. }
  destruct (in_seen (name staff) (seen_names st)) eqn:En; simpl.
  - pose proof (merge_by_name_names staff (unique_staff st)) as Hm.
    rewrite (known_names_fmap _ _ Hm).
    split; [exact Hseen|]. split; [exact Hnd|].
    split.
    { apply (f_equal length) in Hm. rewrite !length_fmap in Hm. lia. }
    split; [rewrite Hm; auto|].
    intros Hne Hnil. apply (f_equal length) in Hm. rewrite !length_fmap in Hm.
    rewrite Hnil in Hm. destruct (unique_staff st); [contradiction|discriminate].
  - unfold known_names. rewrite omap_app. simpl.
    fold (known_names (unique_staff st)).
    split.
    { intros x. rewrite add_seen_known, elem_of_app, Hseen.
      destruct (known (name staff)) as [n|]; simpl.
      - rewrite list_elem_of_singleton. split; intros [H|H]; auto.
        + right. congruence.
        + left. congruence.
      - rewrite elem_of_nil. split; intros [H|H]; auto; [discriminate|contradiction]. }
    split.
    { destruct (known (name staff)) as [n|] eqn:Ek; simpl.
      - apply NoDup_app. split; [exact Hnd|]. split; [|apply NoDup_singleton].
        intros x Hx Hx'. apply list_elem_of_singleton in Hx'. subst x.
        assert (in_seen (name staff) (seen_names st) = true).
        { apply in_seen_known. exists n. split; [exact Ek|]. apply Hseen, Hx. }
        congruence.
      - rewrite app_nil_r. exact Hnd. }
    split; [rewrite length_app; simpl; lia|].
    split.
    { intros o. rewrite fmap_app, elem_of_app. simpl.
      rewrite list_elem_of_singleton. tauto. }
    intros _ H. apply app_eq_nil in H as [_ H]. discriminate.
Qed.

Lemma dedup_fold_names l : forall st,
  (forall x, x ∈ seen_names st <-> x ∈ known_names (unique_staff st)) ->
  NoDup (known_names (unique_staff st)) ->
  let st' := fold_left dedup_step l st in
  (forall x, x ∈ seen_names st' <-> x ∈ known_names (unique_staff st')) /\
  NoDup (known_names (unique_staff st')) /\
  (length (unique_staff st') <= length (unique_staff st) + length l)%nat /\
  (forall o, o ∈ name <$> unique_staff st' ->
     o ∈ name <$> unique_staff st \/ o ∈ name <$> l) /\
  (unique_staff st <> [] -> unique_staff st' <> []).
Proof.
  induction l as [|a l IH]; intros st Hseen Hnd; simpl.
  - repeat split; auto; try apply Hseen. lia.
  - destruct (dedup_step_names st a Hseen Hnd) as (H1 & H2 & H3 & H4 & H5).
    destruct (IH (dedup_step st a) H1 H2) as (I1 & I2 & I3 & I4 & I5).
    split; [exact I1|]. split; [exact I2|]. split; [lia|]. split.
    + intros o Ho. destruct (I4 o Ho) as [Ho'|Ho'].
      * destruct (H4 o Ho') as [H|H]; [auto|].
        right. subst o. apply list_elem_of_here.
      * right. apply list_elem_of_further. exact Ho'.
    + auto.
Qed.

(** X19: [_deduplicate_staff] never returns two candidates known by the same
    name; it returns no more candidates than it was given, makes up no
    name, and keeps at least one candidate of a list that is not empty. *)
Theorem deduplicate_staff_names_are_unique (staff_members : list StaffMember) :
  NoDup (known_names (_deduplicate_staff staff_members)) /\
  (length (_deduplicate_staff staff_members) <= length staff_members)%nat /\
  (forall s, s ∈ _deduplicate_staff staff_members ->
     exists s', s' ∈ staff_members /\ name s = name s') /\
  (staff_members <> [] -> _deduplicate_staff staff_members <> []).
Proof.
  unfold _deduplicate_staff.
  destruct (dedup_fold_names staff_members (mkDedup [] ∅ ∅))
    as (_ & Hnd & Hlen & Hnames & _).
  { intros x. simpl. unfold known_names. simpl. set_solver. }
  { constructor. }
  cbv zeta in *. simpl in Hlen, Hnames.
  split; [exact Hnd|]. split; [exact Hlen|]. split.
  - intros s Hs.
    destruct (Hnames (name s)) as [H|H].
    + apply list_elem_of_fmap. exists s. auto.
    + apply elem_of_nil in H. contradiction.
    + apply list_elem_of_fmap in H as (s' & Hn & Hs'). eauto.
  - destruct staff_members as [|a l]; [contradiction|]. intros _. simpl.
    assert (Hfirst : unique_staff (dedup_step (mkDedup [] ∅ ∅) a) <> []).
    { unfold dedup_step. simpl. rewrite !in_seen_empty. simpl. discriminate. }
    destruct (dedup_step_names (mkDedup [] ∅ ∅) a) as (H1 & H2 & _).
    { intros x. simpl. unfold known_names. simpl. set_solver. }
    { constructor. }
    destruct (dedup_fold_names l (dedup_step (mkDedup [] ∅ ∅) a) H1 H2)
      as (_ & _ & _ & _ & H). apply H. exact Hfirst.
Qed.

Lemma dedup_fold_distinct l : forall st,
  (forall x, x ∈ seen_names st <-> x ∈ known_names (unique_staff st)) ->
  (forall x, x ∈ seen_emails st <-> x ∈ known_emails (unique_staff st)) ->
  NoDup (known_names (unique_staff st ++ l)) ->
  NoDup (known_emails (unique_staff st ++ l)) ->
  unique_staff (fold_left dedup_step l st) = unique_staff st ++ l.
Proof.
  induction l as [|a l IH]; intros st Hn He Hdn Hde; simpl.
  - rewrite app_nil_r. reflexivity.
  - assert (Hfresh : forall (f : StaffMember -> option string) seen,
              (forall x, x ∈ seen <-> x ∈ omap (fun s => known (f s)) (unique_staff st)) ->
              NoDup (omap (fun s => known (f s)) (unique_staff st ++ a :: l)) ->
              in_seen (f a) seen = false).
    { intros f seen Hs Hd. apply not_true_is_false. intros Hin.
      apply in_seen_known in Hin as (x & Hk & Hx). apply Hs in Hx.
      rewrite omap_app in Hd. apply NoDup_app in Hd as (_ & Hd & _).
      apply (Hd x Hx). cbn [omap list_omap]. rewrite Hk. apply list_elem_of_here. }
    unfold dedup_step at 2.
    rewrite (Hfresh email (seen_emails st) He Hde).
    rewrite (Hfresh name (seen_names st) Hn Hdn).
    rewrite IH; simpl.
    + rewrite <- app_assoc. reflexivity.
    + intros x. rewrite add_seen_known, Hn. unfold known_names.
      rewrite omap_app, elem_of_app. cbn [omap list_omap].
      destruct (known (name a)) as [n|]; simpl.
      * rewrite list_elem_of_singleton. split; intros [H|H]; auto.
        -- right. congruence.
        -- left. congruence.
      * rewrite elem_of_nil. split; intros [H|H]; auto; [discriminate|contradiction].
    + intros x. rewrite add_seen_known, He. unfold known_emails.
      rewrite omap_app, elem_of_app. cbn [omap list_omap].
      destruct (known (email a)) as [n|]; simpl.
      * rewrite list_elem_of_singleton. split; intros [H|H]; auto.
        -- right. congruence.
        -- left. congruence.
      * rewrite elem_of_nil. split; intros [H|H]; auto; [discriminate|contradiction].
    + rewrite <- app_assoc. exact Hdn.
    + rewrite <- app_assoc. exact Hde.
Qed.

(** X20: A list in which no two candidates are known by the same name or by
    the same e-mail address has nothing to merge: [_deduplicate_staff]
    returns it as it is, in the same order. *)
Theorem deduplicate_staff_leaves_distinct_alone (staff_members : list StaffMember) :
  NoDup (known_names staff_members) ->
  NoDup (known_emails staff_members) ->
  _deduplicate_staff staff_members = staff_members.
Proof.
  intros Hn He. unfold _deduplicate_staff.
  rewrite (dedup_fold_distinct staff_members (mkDedup [] ∅ ∅)); simpl; auto.
  - intros x. unfold known_names. simpl. set_solver.
  - intros x. unfold known_emails. simpl. set_solver.
Qed.

Lemma deduplicate_staff_leaves_distinct_alone_witness :
  _deduplicate_staff [pat_from_card; sam_from_card]
  = [pat_from_card; sam_from_card].
Proof.
  apply deduplicate_staff_leaves_distinct_alone;
    apply (bool_decide_unpack _); vm_compute; exact I.
Defined.

Lemma StronglySorted_app_cross {A : Type} (R : A -> A -> Prop) l1 l2 :
  StronglySorted R (l1 ++ l2) ->
  StronglySorted R l1 /\ forall x y, In x l1 -> In y l2 -> R x y.
Proof.
  induction l1 as [|a l1 IH]; simpl; intros H.
  - split; [constructor|]. intros x y [].
  - apply StronglySorted_inv in H as [H Ha]. destruct (IH H) as [Hs Hc].
    split.
    + constructor; [exact Hs|].
      rewrite List.Forall_forall in Ha |- *. intros x Hx. apply Ha.
      apply in_or_app. auto.
    + intros x y [<-|Hx] Hy; [|auto].
      rewrite List.Forall_forall in Ha. apply Ha, in_or_app. auto.
Qed.

Lemma validated_sorted l :
  StronglySorted by_confidence l ->
  StronglySorted by_confidence (_validate_staff_member <$> l).
Proof.
  induction 1 as [|a l Hs IH Ha]; [constructor|].
  rewrite fmap_cons. constructor; [exact IH|].
  rewrite List.Forall_forall in Ha |- *. intros x Hx.
  apply list_elem_of_In, list_elem_of_fmap in Hx as (y & -> & Hy).
  unfold by_confidence. rewrite !validate_confidence.
  apply Ha, list_elem_of_In, Hy.
Qed.

Lemma insert_by_confidence_perm x l : insert_by_confidence x l ≡ₚ x :: l.
Proof.
  induction l as [|y r IH]; simpl; [reflexivity|].
  destruct (Qgtb _ _); [|reflexivity].
  rewrite IH. apply Permutation_swap.
Qed.

Lemma sorted_by_confidence_perm l : sorted_by_confidence l ≡ₚ l.
Proof.
  unfold sorted_by_confidence. induction l as [|x l IH]; simpl; [reflexivity|].
  rewrite insert_by_confidence_perm, IH. reflexivity.
Qed.

(** X21: What [_filter_and_limit_staff] returns is in descending order of
    confidence, and it is the best of the confident candidates: a
    confident candidate that is left out is left out because twenty are
    kept already, none of them with a lower confidence.  When there are at
    most twenty confident candidates, all of them are kept. *)
Theorem filter_and_limit_keeps_the_best (staff_members : list StaffMember) :
  let out := _filter_and_limit_staff staff_members in
  StronglySorted by_confidence out /\
  (forall s, s ∈ staff_members -> confident s = true ->
     _validate_staff_member s ∉ out ->
     length out = 20%nat /\
     forall m, m ∈ out -> (confidence s <= confidence m)%Q) /\
  ((length (List.filter confident staff_members) <= 20)%nat ->
   out ≡ₚ _validate_staff_member <$> List.filter confident staff_members).
Proof.
  cbv zeta. unfold _filter_and_limit_staff.
  rewrite filter_sorted_by_confidence.
  set (L := _validate_staff_member <$>
            sorted_by_confidence (List.filter confident staff_members)).
  assert (HL : StronglySorted by_confidence L).
  { apply validated_sorted, sorted_by_confidence_sorted. }
  rewrite <- (take_drop 20 L) in HL.
  apply StronglySorted_app_cross in HL as [Hs Hc].
  split; [exact Hs|]. split.
  - intros s Hs' Hconf Hout.
    assert (HsL : _validate_staff_member s ∈ L).
    { apply list_elem_of_fmap. exists s. split; [reflexivity|].
      apply list_elem_of_In, sorted_by_confidence_elem, filter_In.
      split; [apply list_elem_of_In, Hs'|exact Hconf]. }
    rewrite <- (take_drop 20 L) in HsL.
    apply elem_of_app in HsL as [HsL|HsL]; [contradiction|].
    split.
    + rewrite length_take.
      destruct (Nat.le_gt_cases 20 (length L)) as [H|H]; [lia|].
      rewrite drop_ge in HsL by lia. apply elem_of_nil in HsL. contradiction.
    + intros m Hm.
      specialize (Hc m (_validate_staff_member s)).
      unfold by_confidence in Hc. rewrite validate_confidence in Hc.
      apply Hc; apply list_elem_of_In; assumption.
  - intros Hlen. rewrite take_ge.
    + unfold L. rewrite sorted_by_confidence_perm. reflexivity.
    + unfold L. rewrite length_fmap.
      rewrite (Permutation_length (sorted_by_confidence_perm _)). exact Hlen.
Qed.

(** ** Network errors and the resource guard *)


Section ResourceGuardFacts.

Context {R : Type}.
Variable has_cleanup_func : bool.

Lemma guard_run_released cs (g : ResourceGuard R) log :
  released g = true ->
  snd (guard_run has_cleanup_func cs (g, log)) = log /\
  released (fst (guard_run has_cleanup_func cs (g, log))) = true.
Proof.
  revert g. induction cs as [|c cs IH]; intros g Hr; simpl; auto.
  destruct c as [r|]; simpl.
  - apply IH. exact Hr.
  - unfold release. rewrite Hr. apply IH. exact Hr.
Qed.

Lemma guard_run_unreleased cs : forall (g : ResourceGuard R) log,
  released g = false ->
  snd (guard_run has_cleanup_func cs (g, log)) =
    (if has_cleanup_func && existsb is_release cs
     then log ++ [resources g ++ added_before_release cs] else log) /\
  released (fst (guard_run has_cleanup_func cs (g, log))) = existsb is_release cs.
Proof.
  induction cs as [|c cs IH]; intros g log Hr.
  - simpl. rewrite andb_false_r. auto.
  - unfold guard_run in *. destruct c as [r|];
      cbn [fold_left guard_step fst snd existsb is_release added_before_release orb].
    + destruct (IH (add_resource r g) log Hr) as [H1 H2].
      rewrite H1, H2. cbn [add_resource resources].
      rewrite <- app_assoc. auto.
    + unfold release. rewrite Hr. rewrite andb_true_r, app_nil_r.
      apply (guard_run_released cs (mkGuard (resources g) true)). reflexivity.
Qed.

(** X23: However a guard is used, the cleanup function is invoked at most
    once: on the first release (leaving a [with] block is one), if a
    cleanup function was given, and then with the resources the guard was
    created with followed by those added before that release, in order.
    Later releases do nothing, and a resource added after the release is
    never handed to the cleanup function. *)
Theorem guard_cleans_up_once
    (initial : option (list R)) (cs : list (guard_call (R:=R))) :
  let st := guard_run has_cleanup_func cs (new_guard initial, []) in
  snd st =
    (if has_cleanup_func && existsb is_release cs
     then [default [] initial ++ added_before_release cs] else []) /\
  released (fst st) = existsb is_release cs /\
  (length (snd st) <= 1)%nat.
Proof.
  cbv zeta.
  destruct (guard_run_unreleased cs (new_guard initial) [] eq_refl) as [H1 H2].
  rewrite H1, H2. simpl. split; [reflexivity|]. split; [reflexivity|].
  destruct (has_cleanup_func && existsb is_release cs); simpl; lia.
Qed.

End ResourceGuardFacts.

Lemma handle_network_error_verdict e w :
  fst (handle_network_error e w) = false ->
  forall w0, handle_network_error e w0 = (false, w0).
Proof.
  unfold handle_network_error. intros H w0.
  destruct (isinstance e [ConnectTimeout; ReadTimeout; SocketTimeout]); [discriminate|].
  destruct (isinstance e [RequestsConnectionError]); [discriminate|].
  destruct (isinstance e [RequestsHTTPError]); [|reflexivity].
  destruct ((500 <=? exc_status e) && (exc_status e <? 600)); [discriminate|].
  destruct (exc_status e =? 429); [discriminate|reflexivity].
Qed.

Section VerifierRetries.

Variable urandom : nat -> Z.
Variables requests_head requests_get : string -> World -> outcome Response * World.
Variable urlparse_netloc : string -> outcome string.
Variable new_extractor : World -> outcome unit * World.
Variable extractor_extract : string -> World -> outcome Contacts * World.
Variable extractor_cleanup : World -> World.
Variable fuzz_ratio : string -> string -> Z.

Local Abbreviation the_verify_url :=
  (verify_url urandom requests_head requests_get urlparse_netloc).
Local Abbreviation the_verify_url_call :=
  (verify_url_call requests_head requests_get urlparse_netloc).
Local Abbreviation the_process_row :=
  (process_row urandom requests_head requests_get urlparse_netloc new_extractor
     extractor_extract extractor_cleanup fuzz_ratio).

(** X24: A row becomes a failure only through its URL: because the URL cannot
    be parsed, or because [verify_url] raised.  Nothing that goes wrong
    while contacts are scraped -- an exception, an open circuit -- fails
    the row.  A failed row leaves the counters as they were. *)
Theorem row_fails_only_if_verification_raises
    (row : Row) (v v' : Verifier) (w w' : World) (f : FailedRecord) :
  the_process_row row v w = Some (inr f, v', w') ->
  let url := clean_url (Website row) in
  v' = v /\
  exists e, f = failed_record row e /\
    (urlparse_netloc url = Raised e /\ w' = w
     \/
     exists domain,
       urlparse_netloc url = Returned domain /\
       fst (world_check_circuit domain w) = false /\
       the_verify_url [url] {[ "resource_key"%string := domain ]}
         (snd (world_check_circuit domain w)) = Some (Raised e, w')).
Proof.
  unfold process_row. intros H. cbv zeta.
  set (url := clean_url (Website row)) in *.
  destruct (urlparse_netloc url) as [domain|e] eqn:Hparse.
  2:{ injection H as <- <- <-. split; [reflexivity|]. exists e. auto. }
  destruct (world_check_circuit domain w) as [is_open w0] eqn:Hcc.
  destruct is_open.
  { cbn [mbind option_bind] in H. discriminate. }
  destruct (the_verify_url [url] {[ "resource_key"%string := domain ]} w0)
    as [[o w1]|] eqn:Hv; [|discriminate].
  cbn [mbind option_bind] in H.
  destruct o as [[is_active final_url]|e].
  - destruct is_active.
    + destruct (scrape_contacts urandom urlparse_netloc new_extractor
                  extractor_extract extractor_cleanup
                  [default EmptyString final_url] ∅ w1) as [[o2 w2]|];
        cbn [mbind option_bind] in H; discriminate.
    + cbn [mbind option_bind] in H. discriminate.
  - injection H as <- <- <-. split; [reflexivity|]. exists e.
    split; [reflexivity|]. right. exists domain. rewrite Hcc.
    split; [reflexivity|]. split; [reflexivity|exact Hv].
Qed.

(** While the site's circuit stays closed, an attempt that meets an error
    [handle_network_error] calls not recoverable records it against the
    domain and raises it. *)
Lemma verify_url_call_unrecoverable url domain e w0 :
  url <> EmptyString -> clean_url (Some url) = url ->
  isinstance e [RequestException] = true ->
  fst (handle_network_error e w0) = false ->
  (forall w, exists w1, requests_head url w = (Raised e, w1) /\
     tracker w1 = tracker w /\ calls w1 = calls w) ->
  circuit_open (tracker w0) !! domain <> Some true ->
  exists w1,
    the_verify_url_call [url] {[ "resource_key"%string := domain ]} w0
      = (Raised e, w1) /\
    calls w1 = calls w0 /\
    tracker w1 = record_error domain (type_name e) (clock w1) (tracker w0).
Proof.
  intros Hne Hidem Hreq Hverdict Hhead Hclosed.
  destruct (verify_url_kwargs domain) as (_ & Hdel & Hlook).
  unfold verify_url_call. rewrite Hdel, Hlook.
  unfold verify_url_func, verify_url_request. rewrite Hidem.
  destruct url as [|c u]; [contradiction|]. cbn [PyStr.truthy negb].
  rewrite (world_check_circuit_closed domain w0 Hclosed).
  destruct (Hhead w0) as (w1 & -> & Ht & Hc).
  rewrite Hreq, (handle_network_error_verdict e w0 Hverdict w1). cbn [negb].
  eexists. split; [reflexivity|]. simpl. rewrite Ht. auto.
Qed.

Lemma retry_loop_unrecoverable url domain e th d0 rs :
  url <> EmptyString -> clean_url (Some url) = url ->
  domain <> "verify_url"%string ->
  isinstance e [RequestException] = true ->
  (forall w, fst (handle_network_error e w) = false) ->
  (forall w, exists w1, requests_head url w = (Raised e, w1) /\
     tracker w1 = tracker w /\ calls w1 = calls w) ->
  d0 + 3 < th ->
  forall fuel retries backoff w,
    0 <= retries <= 3 -> Z.of_nat fuel = 4 - retries ->
    error_threshold (tracker w) = th ->
    total_errors (tracker w) domain = d0 + retries ->
    circuit_open (tracker w) !! domain <> Some true ->
    resource_state "verify_url" (tracker w) = rs ->
    exists w' t,
      retry_loop 3 2 15 default_retry_exceptions urandom the_verify_url_call fuel
        "verify_url" [url] {[ "resource_key"%string := domain ]} retries backoff w
      = Some (Raised e, w') /\
      calls w' = (calls w + fuel)%nat /\
      tracker w' = record_error "verify_url" (type_name e) (clock w') t /\
      total_errors t domain = d0 + 4 /\
      resource_state "verify_url" t = rs.
Proof.
  intros Hne Hidem Hkey Hreq Hverdict Hhead Hroom.
  assert (Hretry : isinstance e default_retry_exceptions = true).
  { destruct e as [c m s]. destruct c; simpl in *; try discriminate; reflexivity. }
  induction fuel as [|fuel IH];
    intros retries backoff w Hr Hfuel Hth Htot Hclosed Hrs; [lia|].
  cbn [retry_loop].
  destruct (verify_url_call_unrecoverable url domain e (count_call w)
              Hne Hidem Hreq (Hverdict _) Hhead Hclosed)
    as (w1 & -> & Hc1 & Ht1).
  simpl in Hc1, Ht1. rewrite Hretry.
  assert (Htot1 : total_errors (tracker w1) domain = d0 + retries + 1).
  { rewrite Ht1, record_error_total, Htot. reflexivity. }
  assert (Hrs1 : resource_state "verify_url" (tracker w1) = rs).
  { rewrite Ht1. rewrite <- Hrs. unfold resource_state.
    destruct (record_error_other domain (type_name e) (clock w1) (tracker w)
                "verify_url" Hkey) as (-> & -> & ->). reflexivity. }
  destruct (retries + 1 >? 3) eqn:E.
  - eexists _, (tracker w1). split; [reflexivity|]. simpl.
    split; [lia|]. split; [reflexivity|]. split; [|exact Hrs1].
    rewrite Htot1. lia.
  - assert (Hth1 : error_threshold (tracker w1) = th).
    { rewrite Ht1. destruct (record_error_config domain (type_name e) (clock w1)
                               (tracker w)) as [-> _]. exact Hth. }
    assert (Hclosed1 : circuit_open (tracker w1) !! domain <> Some true).
    { rewrite Ht1, record_error_below; [exact Hclosed|].
      rewrite record_error_total, Htot, Hth. lia. }
    edestruct (IH (retries + 1)) as (w' & t & Hl & Hc & Htr & Htt & Hrt).
    7:{ exists w', t. split; [exact Hl|]. split; [rewrite Hc; simpl; lia|].
        split; [exact Htr|]. split; [exact Htt|exact Hrt]. }
    + lia.
    + lia.
    + exact Hth1.
    + simpl. rewrite Htot1. lia.
    + exact Hclosed1.
    + exact Hrs1.
Qed.

(** X25: An error [handle_network_error] calls not recoverable does not stop
    the retries: the request error is of a class the retry tuple catches.
    Take a site whose domain is not the string [verify_url], with the
    circuit of the domain and that of [verify_url] both closed and at
    least four errors of room below the threshold for the domain (so that
    the domain's circuit does not open on the way), and which answers
    every request with one such error.  It is asked four times, the error
    is recorded against the site's domain at each of the four attempts and
    once more against [verify_url], and the row ends as a failure. *)
Theorem unrecoverable_error_is_retried_and_recorded_each_time
    (row : Row) (v : Verifier) (w : World) (domain : string) (e : exn) :
  let url := clean_url (Website row) in
  url <> EmptyString ->
  urlparse_netloc url = Returned domain ->
  domain <> "verify_url"%string ->
  circuit_open (tracker w) !! domain <> Some true ->
  circuit_open (tracker w) !! "verify_url"%string <> Some true ->
  total_errors (tracker w) domain + 3 < error_threshold (tracker w) ->
  isinstance e [RequestException] = true ->
  (forall w0, fst (handle_network_error e w0) = false) ->
  (forall w0, exists w1, requests_head url w0 = (Raised e, w1) /\
     tracker w1 = tracker w0 /\ calls w1 = calls w0) ->
  exists w',
    the_process_row row v w = Some (inr (failed_record row e), v, w') /\
    calls w' = (calls w + 4)%nat /\
    total_errors (tracker w') domain = total_errors (tracker w) domain + 4 /\
    total_errors (tracker w') "verify_url"
      = total_errors (tracker w) "verify_url" + 1.
Proof.
  intros url Hne Hparse Hkey Hdom Hfun Hroom Hreq Hverdict Hhead.
  assert (Hidem : clean_url (Some url) = url) by apply clean_url_idem.
  unfold process_row. fold url. clearbody url.
  destruct (verify_url_kwargs domain) as (Hpop & _ & _).
  rewrite Hparse, (world_check_circuit_closed domain w Hdom).
  unfold verify_url, retry_with_backoff. rewrite Hpop.
  rewrite (world_check_circuit_closed "verify_url" w Hfun).
  destruct (retry_loop_unrecoverable url domain e
              (error_threshold (tracker w)) (total_errors (tracker w) domain)
              (resource_state "verify_url" (tracker w))
              Hne Hidem Hkey Hreq Hverdict Hhead Hroom
              4%nat 0 1 w)
    as (w' & t & Hl & Hc & Htr & Htt & Hrt); auto; try lia.
  change (S (Z.to_nat 3)) with 4%nat. rewrite Hl. cbn [mbind option_bind].
  exists w'. split; [reflexivity|]. split; [exact Hc|].
  rewrite Htr. split.
  - unfold total_errors.
    destruct (record_error_other "verify_url" (type_name e) (clock w') t domain)
      as (-> & _); [congruence|]. exact Htt.
  - rewrite record_error_total.
    rewrite (total_errors_resource_state "verify_url" t (tracker w) Hrt).
    reflexivity.
Qed.

End VerifierRetries.

Lemma row_fails_only_if_verification_raises_witness :
  exists f v' w',
    sample_process_row slow_row new_verifier initial_world = Some (inr f, v', w') /\
    v' = new_verifier /\ Error f = "Read timed out"%string.
Proof.
  destruct (sample_process_row slow_row new_verifier initial_world)
    as [[[[r|f] v'] w']|] eqn:E.
  - vm_compute in E. discriminate.
  - destruct (row_fails_only_if_verification_raises (fun _ => 0)
                sample_request sample_request sample_netloc sample_new_extractor
                sample_extract (fun w => w) one_letter_off
                slow_row new_verifier v' initial_world w' f E) as [Hv _].
    exists f, v', w'. split; [reflexivity|]. split; [exact Hv|].
    vm_compute in E. injection E as <- _ _. reflexivity.
  - vm_compute in E. discriminate.
Defined.

(** [gone.example] answers 410 to every request: four attempts, four
    errors against the domain, one against [verify_url]. *)
Lemma unrecoverable_error_is_retried_and_recorded_each_time_witness :
  exists w',
    process_row (fun _ => 0) gone_request gone_request sample_netloc
      sample_new_extractor sample_extract (fun w => w) one_letter_off
      gone_row new_verifier initial_world
    = Some (inr (failed_record gone_row gone_error), new_verifier, w') /\
    total_errors (tracker w') "gone.example" = 4 /\
    total_errors (tracker w') "verify_url" = 1.
Proof.
  destruct (unrecoverable_error_is_retried_and_recorded_each_time (fun _ => 0)
              gone_request gone_request sample_netloc sample_new_extractor
              sample_extract (fun w => w) one_letter_off
              gone_row new_verifier initial_world "gone.example" gone_error)
    as (w' & Hrow & _ & Hd & Hf).
  - vm_compute. discriminate.
  - vm_compute. reflexivity.
  - discriminate.
  - vm_compute. discriminate.
  - vm_compute. discriminate.
  - vm_compute. reflexivity.
  - reflexivity.
  - intros w0. reflexivity.
  - intros w0. exists w0. repeat split; reflexivity.
  - exists w'. split; [exact Hrow|]. split; [exact Hd|exact Hf].
Defined.

(** ** E-mail validation *)

Lemma in_seq_iff r s t :
  in_lang (Seq r s) t <-> exists x y, t = (x ++ y)%string /\ in_lang r x /\ in_lang s y.
Proof.
  split.
  - inversion 1; subst. eauto.
  - intros (x & y & -> & Hx & Hy). constructor; assumption.
Qed.

Lemma in_class_iff p t :
  in_lang (Class p) t <-> exists c, t = String c EmptyString /\ p c = true.
Proof.
  split.
  - inversion 1; subst. eauto.
  - intros (c & -> & Hc). constructor; assumption.
Qed.

Lemma in_alt_iff r s t : in_lang (Alt r s) t <-> in_lang r t \/ in_lang s t.
Proof.
  split.
  - inversion 1; subst; auto.
  - intros [H|H]; [apply in_alt_l|apply in_alt_r]; assumption.
Qed.

Lemma in_epsilon_iff t : in_lang Epsilon t <-> t = EmptyString.
Proof.
  split.
  - inversion 1; reflexivity.
  - intros ->. constructor.
Qed.

Lemma append_eq_empty (x y : string) :
  (x ++ y)%string = EmptyString -> x = EmptyString /\ y = EmptyString.
Proof. destruct x; simpl; [auto|discriminate]. Qed.

Lemma nullable_spec r : nullable r = true <-> in_lang r EmptyString.
Proof.
  split.
  - induction r; simpl; intros H; try discriminate.
    + constructor.
    + apply andb_prop in H as [H1 H2].
      change EmptyString with (EmptyString ++ EmptyString)%string.
      constructor; auto.
    + apply orb_prop in H as [H|H]; [apply in_alt_l|apply in_alt_r]; auto.
    + constructor.
  - intros H. remember EmptyString as t eqn:Ht.
    induction H; simpl; try reflexivity; try discriminate.
    + apply append_eq_empty in Ht as [-> ->].
      rewrite IHin_lang1, IHin_lang2; reflexivity.
    + rewrite IHin_lang by assumption. reflexivity.
    + rewrite IHin_lang by assumption. apply orb_true_r.
Qed.

Lemma deriv_complete c r t :
  in_lang r t -> forall s, t = String c s -> in_lang (deriv c r) s.
Proof.
  induction 1 as [|p c' Hp|r s x y Hx IHx Hy IHy|r s x Hx IHx|r s x Hx IHx
                 | |r x y Hx IHx Hy IHy]; intros u Hu; simpl.
  - discriminate.
  - injection Hu as -> <-. rewrite Hp. constructor.
  - destruct x as [|c0 x'].
    + simpl in Hu. subst y.
      assert (Hn : nullable r = true) by (apply nullable_spec; exact Hx).
      rewrite Hn. apply in_alt_r. apply IHy. reflexivity.
    + simpl in Hu. injection Hu as -> <-.
      assert (Hd : in_lang (Seq (deriv c r) s) (x' ++ y)).
      { constructor; [apply IHx; reflexivity|exact Hy]. }
      destruct (nullable r); [apply in_alt_l|]; exact Hd.
  - apply in_alt_l. auto.
  - apply in_alt_r. auto.
  - discriminate.
  - destruct x as [|c0 x'].
    + simpl in Hu. apply IHy. exact Hu.
    + simpl in Hu. injection Hu as -> <-.
      constructor; [apply IHx; reflexivity|exact Hy].
Qed.

Lemma deriv_sound c r : forall s, in_lang (deriv c r) s -> in_lang r (String c s).
Proof.
  induction r as [| |p|r1 IH1 r2 IH2|r1 IH1 r2 IH2|r IH]; intros s H; simpl in H.
  - inversion H.
  - inversion H.
  - destruct (p c) eqn:Hp; [|inversion H].
    apply in_epsilon_iff in H. subst s. constructor. exact Hp.
  - assert (Hseq : in_lang (Seq (deriv c r1) r2) s -> in_lang (Seq r1 r2) (String c s)).
    { intros Hs. apply in_seq_iff in Hs as (x & y & -> & Hx & Hy).
      change (String c (x ++ y)) with (String c x ++ y)%string.
      constructor; auto. }
    destruct (nullable r1) eqn:Hn; [|auto].
    apply in_alt_iff in H as [H|H]; [auto|].
    change (String c s) with (EmptyString ++ String c s)%string.
    constructor; [apply nullable_spec; exact Hn|auto].
  - apply in_alt_iff in H as [H|H]; [apply in_alt_l|apply in_alt_r]; auto.
  - apply in_seq_iff in H as (x & y & -> & Hx & Hy).
    change (String c (x ++ y)) with (String c x ++ y)%string.
    constructor; auto.
Qed.

Lemma fullmatch_spec s : forall r, fullmatch r s = true <-> in_lang r s.
Proof.
  induction s as [|c s IH]; intros r; simpl.
  - apply nullable_spec.
  - rewrite IH. split; [apply deriv_sound|].
    intros H. apply (deriv_complete c r _ H). reflexivity.
Qed.

Lemma star_class p s : in_lang (Star (Class p)) s <-> PyStr.all_chars p s = true.
Proof.
  split.
  - intros H. remember (Star (Class p)) as r eqn:Hr.
    induction H; try discriminate; [reflexivity|].
    injection Hr as ->. apply in_class_iff in H as (c & -> & Hc).
    simpl. rewrite Hc. simpl. apply IHin_lang2. reflexivity.
  - induction s as [|c s IH]; simpl; intros H; [constructor|].
    apply andb_prop in H as [Hc Hs].
    change (String c s) with (String c EmptyString ++ s)%string.
    constructor; [constructor; exact Hc|auto].
Qed.

Lemma plus_class p s :
  in_lang (Plus (Class p)) s <-> s <> EmptyString /\ PyStr.all_chars p s = true.
Proof.
  unfold Plus. rewrite in_seq_iff. split.
  - intros (x & y & -> & Hx & Hy).
    apply in_class_iff in Hx as (c & -> & Hc). apply star_class in Hy.
    simpl. rewrite Hc, Hy. split; [discriminate|reflexivity].
  - intros [Hne Hs]. destruct s as [|c s]; [contradiction|].
    simpl in Hs. apply andb_prop in Hs as [Hc Hs].
    exists (String c EmptyString), s. split; [reflexivity|].
    split; [constructor; exact Hc|apply star_class; exact Hs].
Qed.

Lemma atleast2_class p s :
  in_lang (AtLeast2 (Class p)) s <->
  (2 <= String.length s)%nat /\ PyStr.all_chars p s = true.
Proof.
  unfold AtLeast2. rewrite in_seq_iff. split.
  - intros (x & y & -> & Hx & Hy).
    apply in_class_iff in Hx as (c & -> & Hc).
    apply in_seq_iff in Hy as (x & z & -> & Hx & Hz).
    apply in_class_iff in Hx as (d & -> & Hd). apply star_class in Hz.
    simpl. rewrite Hc, Hd, Hz. split; [lia|reflexivity].
  - intros [Hlen Hs]. destruct s as [|c [|d s]]; simpl in Hlen; try lia.
    simpl in Hs. apply andb_prop in Hs as [Hc Hs]. apply andb_prop in Hs as [Hd Hs].
    exists (String c EmptyString), (String d s). split; [reflexivity|].
    split; [constructor; exact Hc|].
    apply in_seq_iff. exists (String d EmptyString), s. split; [reflexivity|].
    split; [constructor; exact Hd|apply star_class; exact Hs].
Qed.

Lemma is_char_iff c d : is_char c d = true <-> d = c.
Proof. unfold is_char. rewrite Ascii.eqb_eq. split; congruence. Qed.

Lemma email_regex_lang s :
  in_lang email_regex s <->
  exists local dom tld,
    s = (local ++ "@" ++ dom ++ "." ++ tld)%string /\
    local <> EmptyString /\ PyStr.all_chars local_char local = true /\
    dom <> EmptyString /\ PyStr.all_chars domain_char dom = true /\
    (2 <= String.length tld)%nat /\ PyStr.all_chars PyStr.is_alpha tld = true.
Proof.
  unfold email_regex. rewrite in_seq_iff. split.
  - intros (local & r1 & -> & Hl & H).
    apply plus_class in Hl as [Hl1 Hl2].
    apply in_seq_iff in H as (at_ & r2 & -> & Ha & H).
    apply in_class_iff in Ha as (c & -> & Hc). apply is_char_iff in Hc. subst c.
    apply in_seq_iff in H as (dom & r3 & -> & Hd & H).
    apply plus_class in Hd as [Hd1 Hd2].
    apply in_seq_iff in H as (dot & tld & -> & Ho & Ht).
    apply in_class_iff in Ho as (c & -> & Hc). apply is_char_iff in Hc. subst c.
    apply atleast2_class in Ht as [Ht1 Ht2].
    exists local, dom, tld. repeat split; auto.
  - intros (local & dom & tld & -> & Hl1 & Hl2 & Hd1 & Hd2 & Ht1 & Ht2).
    exists local, ("@" ++ dom ++ "." ++ tld)%string. split; [reflexivity|].
    split; [apply plus_class; auto|].
    apply in_seq_iff. exists "@"%string, (dom ++ "." ++ tld)%string.
    split; [reflexivity|]. split; [constructor; reflexivity|].
    apply in_seq_iff. exists dom, ("." ++ tld)%string.
    split; [reflexivity|]. split; [apply plus_class; auto|].
    apply in_seq_iff. exists "."%string, tld.
    split; [reflexivity|]. split; [constructor; reflexivity|].
    apply atleast2_class. auto.
Qed.

Lemma PyStr_prefix_empty s : String.prefix EmptyString s = true.
Proof. destruct s; reflexivity. Qed.

Lemma PyStr_contains_at a b : PyStr.contains "@" (a ++ "@" ++ b) = true.
Proof.
  induction a as [|c a IH].
  - change (EmptyString ++ "@" ++ b)%string with (String "@" b).
    cbn [PyStr.contains]. cbn [String.prefix].
    destruct (ascii_dec "@" "@"); [|contradiction].
    rewrite PyStr_prefix_empty. reflexivity.
  - change (String c a ++ "@" ++ b)%string with (String c (a ++ "@" ++ b)).
    cbn [PyStr.contains]. rewrite IH.
    destruct (String.prefix "@" _); reflexivity.
Qed.

(** X26: [_validate_email] accepts exactly the strings that hold none of the
    placeholder patterns (whatever the case) and read: a local part of
    letters, digits and [._%+-]; one [@]; a domain of letters, digits,
    dots and hyphens; a dot; at least two letters -- and then nothing, or
    one newline, which [$] lets pass.  The staff extractor's version is
    the same check: the domain it is given plays no part. *)
Theorem validate_email_accepts_exactly (email : string) :
  (_validate_email email = true <->
   Forall (fun pattern => PyStr.contains pattern (PyStr.lower email) = false)
     invalid_patterns /\
   exists local dom tld nl,
     email = (local ++ "@" ++ dom ++ "." ++ tld ++ nl)%string /\
     local <> EmptyString /\ PyStr.all_chars local_char local = true /\
     dom <> EmptyString /\ PyStr.all_chars domain_char dom = true /\
     (2 <= String.length tld)%nat /\ PyStr.all_chars PyStr.is_alpha tld = true /\
     (nl = EmptyString \/ nl = String newline EmptyString)) /\
  (forall domain, staff_validate_email email domain = _validate_email email).
Proof.
  split; [|reflexivity].
  assert (Hpat : existsb (fun pattern => PyStr.contains pattern (PyStr.lower email))
                   invalid_patterns = false <->
                 Forall (fun pattern => PyStr.contains pattern (PyStr.lower email) = false)
                   invalid_patterns).
  { rewrite <- not_true_iff_false, existsb_exists, List.Forall_forall. split.
    - intros H x Hx. apply not_true_is_false. intros Hc. apply H. eauto.
    - intros H (x & Hx & Hc). rewrite (H x Hx) in Hc. discriminate. }
  assert (Hre : re_match_to_end email_regex email = true <->
                exists local dom tld nl,
                  email = (local ++ "@" ++ dom ++ "." ++ tld ++ nl)%string /\
                  local <> EmptyString /\ PyStr.all_chars local_char local = true /\
                  dom <> EmptyString /\ PyStr.all_chars domain_char dom = true /\
                  (2 <= String.length tld)%nat /\
                  PyStr.all_chars PyStr.is_alpha tld = true /\
                  (nl = EmptyString \/ nl = String newline EmptyString)).
  { unfold re_match_to_end. rewrite fullmatch_spec, in_seq_iff. split.
    - intros (x & nl & -> & Hx & Hnl).
      apply email_regex_lang in Hx
        as (local & dom & tld & -> & Hl1 & Hl2 & Hd1 & Hd2 & Ht1 & Ht2).
      exists local, dom, tld, nl. split.
      { rewrite !PyStr_append_assoc. reflexivity. }
      repeat split; auto.
      apply in_alt_iff in Hnl as [Hnl|Hnl].
      + left. apply in_epsilon_iff. exact Hnl.
      + right. apply in_class_iff in Hnl as (c & -> & Hc).
        apply is_char_iff in Hc. subst c. reflexivity.
    - intros (local & dom & tld & nl & -> & Hl1 & Hl2 & Hd1 & Hd2 & Ht1 & Ht2 & Hnl).
      exists (local ++ "@" ++ dom ++ "." ++ tld)%string, nl. split.
      { rewrite !PyStr_append_assoc. reflexivity. }
      split.
      + apply email_regex_lang. exists local, dom, tld. repeat split; auto.
      + apply in_alt_iff. destruct Hnl as [->| ->].
        * left. constructor.
        * right. constructor. apply is_char_iff. reflexivity. }
  unfold _validate_email. split.
  - destruct (negb (PyStr.truthy email) || negb (PyStr.contains "@" email));
      [discriminate|].
    destruct (existsb _ invalid_patterns) eqn:Hp; [discriminate|].
    intros H. split; [apply Hpat; reflexivity|apply Hre, H].
  - intros [Hp Hm]. apply Hpat in Hp. rewrite Hp.
    assert (Hguard : negb (PyStr.truthy email) || negb (PyStr.contains "@" email)
                     = false).
    { destruct Hm as (local & dom & tld & nl & -> & Hl & _).
      rewrite PyStr_contains_at. destruct local; [contradiction|reflexivity]. }
    rewrite Hguard. apply Hre, Hm.
Qed.

(** Some addresses, as the validator sees them. *)
Example validate_email_examples :
  _validate_email "pat.doe@dealer.com" = true /\
  _validate_email "pat@dealer" = false /\
  _validate_email "pat@dealer.c0m" = false /\
  _validate_email "pat@@dealer.com" = false /\
  _validate_email "info@example.com" = false /\
  _validate_email "Info@YourDomain.com" = false /\
  _validate_email "pat@dealer..com" = true /\
  _validate_email (String.append "pat@dealer.com" (String newline EmptyString)) = true.
Proof. vm_compute. repeat split; reflexivity. Qed.

(** ** The backoff schedule *)

Section BackoffSchedule.

Context {A : Type}.
Variable max_retries : Z.
Variables initial_backoff backoff_factor max_backoff : Q.
Variable retry_exceptions : list exn_class.
Variable urandom : nat -> Z.
Variable func_name : string.
Variable func : list string -> gmap string string -> World -> outcome A * World.

Hypothesis initial_backoff_range : (0 <= initial_backoff <= max_backoff)%Q.
Hypothesis backoff_factor_grows : (1 <= backoff_factor)%Q.
Hypothesis urandom_byte : forall n, 0 <= urandom n <= 255.

Local Abbreviation nominal := (nominal_backoff initial_backoff backoff_factor max_backoff).
Local Abbreviation total := (nominal_total initial_backoff backoff_factor max_backoff).
Local Abbreviation backoff_at := (backoff_after initial_backoff backoff_factor max_backoff).

Lemma Qpow_nonneg k : (0 <= Qpow backoff_factor k)%Q.
Proof.
  induction k as [|k IH]; simpl; [lra|].
  apply Qmult_le_0_compat; [exact IH|lra].
Qed.

(** The loop's [backoff] variable follows the capped exponential. *)
Lemma backoff_after_closed_form k :
  (backoff_at k == nominal k)%Q /\ (0 <= backoff_at k <= max_backoff)%Q.
Proof.
  unfold nominal_backoff. induction k as [|k [IH1 IH2]].
  - simpl. split; [|exact initial_backoff_range].
    destruct (Q.min_spec (initial_backoff * 1) max_backoff) as [[Hc H]|[Hc H]];
      rewrite H; lra.
  - cbn [backoff_after Qpow].
    pose proof (Qpow_nonneg k) as Hp.
    set (X := (initial_backoff * Qpow backoff_factor k)%Q) in *.
    assert (HX : (0 <= X)%Q) by (apply Qmult_le_0_compat; lra).
    assert (HXf : (initial_backoff * (Qpow backoff_factor k * backoff_factor)
                   == X * backoff_factor)%Q) by (unfold X; ring).
    set (b := backoff_at k) in *.
    assert (HXX : (X <= X * backoff_factor)%Q) by nra.
    assert (HMM : (max_backoff <= max_backoff * backoff_factor)%Q) by nra.
    split.
    + assert (Hcases : (b * backoff_factor == X * backoff_factor)%Q \/
                       ((max_backoff <= X)%Q /\
                        (b * backoff_factor == max_backoff * backoff_factor)%Q)).
      { destruct (Q.min_spec X max_backoff) as [[Hlt H]|[Hle H]];
          rewrite H in IH1; [left|right; split; [exact Hle|]];
          rewrite IH1; reflexivity. }
      destruct (Q.min_spec (b * backoff_factor) max_backoff) as [[H1' H1]|[H1' H1]];
        destruct (Q.min_spec (initial_backoff * (Qpow backoff_factor k * backoff_factor))
                    max_backoff) as [[H2' H2]|[H2' H2]];
        rewrite H1, H2; destruct Hcases as [Hc|[Hc1 Hc2]]; lra.
    + split.
      * apply Q.min_glb; [|lra]. apply Qmult_le_0_compat; lra.
      * apply Q.le_min_r.
Qed.

Lemma wait_time_follows_nominal k w :
  let wait := Qmin (backoff_at k * jitter urandom w) max_backoff in
  ((1 # 2) * nominal k <= wait <= nominal k)%Q.
Proof.
  cbv zeta. destruct (backoff_after_closed_form k) as [Hb [Hb0 HbM]].
  destruct (jitter_range urandom urandom_byte w) as [Hj1 Hj2].
  set (b := backoff_at k) in *. set (j := jitter urandom w) in *.
  assert (H1 : ((1 # 2) * b <= b * j)%Q) by nra.
  assert (H2 : (b * j <= b)%Q) by nra.
  destruct (Q.min_spec (b * j) max_backoff) as [[Hc H]|[Hc H]]; rewrite H; lra.
Qed.

Lemma retry_loop_schedule key args kwargs e :
  0 <= max_retries ->
  isinstance e retry_exceptions = true ->
  raises_at_once func args kwargs e ->
  forall fuel k w,
    (k <= Z.to_nat max_retries)%nat ->
    fuel = (Z.to_nat max_retries - k + 1)%nat ->
    exists w',
      retry_loop max_retries backoff_factor max_backoff retry_exceptions urandom
        func fuel key args kwargs (Z.of_nat k) (backoff_at k) w
      = Some (Raised e, w') /\
      draws w' = (draws w + (Z.to_nat max_retries - k))%nat /\
      (clock w + (1 # 2) * (total (Z.to_nat max_retries) - total k) <= clock w')%Q /\
      (clock w' <= clock w + (total (Z.to_nat max_retries) - total k))%Q.
Proof.
  intros Hm Hre Hf. induction fuel as [|fuel IH]; intros k w Hk Hfuel; [lia|].
  cbn [retry_loop].
  destruct (Hf (count_call w)) as (w1 & -> & Hc1 & Hd1). simpl in Hc1, Hd1.
  rewrite Hre.
  destruct (Z.of_nat k + 1 >? max_retries) eqn:E.
  - assert (k = Z.to_nat max_retries) by lia. subst k.
    eexists. split; [reflexivity|]. simpl. rewrite Hc1, Hd1.
    split; [lia|]. split; lra.
  - assert (Hlt : (k < Z.to_nat max_retries)%nat) by lia.
    replace (Z.of_nat k + 1) with (Z.of_nat (S k)) by lia.
    change (Qmin (backoff_at k * backoff_factor) max_backoff) with (backoff_at (S k)).
    destruct (wait_time_follows_nominal k w1) as [Hw1 Hw2].
    set (wait := Qmin (backoff_at k * jitter urandom w1) max_backoff) in *.
    destruct (IH (S k) (sleep wait (count_draw w1))) as (w' & Hl & Hd & Hk1 & Hk2);
      [lia|lia|].
    exists w'. split; [exact Hl|]. simpl in Hd, Hk1, Hk2.
    rewrite Hc1 in Hk1, Hk2. rewrite Hd1 in Hd.
    split; [lia|].
    cbn [nominal_total] in Hk1, Hk2.
    split; lra.
Qed.

(** X27: Exponential backoff with jitter.  A call that keeps failing waits
    [max_retries] times; the wait before retry [k] lies between half of
    [initial_backoff * backoff_factor ^ k] capped at [max_backoff] and the
    whole of it, so the time the call spends waiting is between half the
    sum of these nominal waits and their sum. *)
Theorem waits_follow_capped_exponential
    (args : list string) (kwargs : gmap string string) (w : World) (e : exn) :
  let key := fst (pop_resource_key func_name kwargs) in
  let kwargs' := snd (pop_resource_key func_name kwargs) in
  0 <= max_retries ->
  isinstance e retry_exceptions = true ->
  raises_at_once func args kwargs' e ->
  fst (world_check_circuit key w) = false ->
  exists w',
    retry_with_backoff max_retries initial_backoff backoff_factor max_backoff
      retry_exceptions urandom func_name func args kwargs w
    = Some (Raised e, w') /\
    draws w' = (draws w + Z.to_nat max_retries)%nat /\
    (clock w + (1 # 2) * total (Z.to_nat max_retries) <= clock w')%Q /\
    (clock w' <= clock w + total (Z.to_nat max_retries))%Q.
Proof.
  intros key kwargs' Hm Hre Hf Hclosed.
  unfold retry_with_backoff.
  change (pop_resource_key func_name kwargs) with (key, kwargs').
  cbn iota beta.
  destruct (check_circuit_clock key w) as (Hk & _ & Hd).
  destruct (world_check_circuit key w) as [is_open w0].
  simpl in Hclosed, Hk, Hd. subst is_open.
  destruct (retry_loop_schedule key args kwargs' e Hm Hre Hf
              (S (Z.to_nat max_retries)) 0%nat w0)
    as (w' & Hl & Hd' & Hk1 & Hk2); [lia|lia|].
  exists w'. split; [exact Hl|].
  rewrite Hd, Hk, Nat.sub_0_r in *. split; [exact Hd'|].
  cbn [nominal_total] in Hk1, Hk2. split; lra.
Qed.

End BackoffSchedule.

(** The defaults: waits of nominally 1, 2 and 4 seconds; with the jitter
    byte at 0 each wait is half its nominal value. *)
Lemma waits_follow_capped_exponential_witness :
  exists w',
    retry_with_backoff 3 1 2 30 default_retry_exceptions (fun _ => 0)
      "fetch" (always_raises (mkExn ReadTimeout "timed out" 0)) [] ∅ initial_world
    = Some (Raised (mkExn ReadTimeout "timed out" 0), w') /\
    draws w' = 3%nat /\
    ((7 # 2) <= clock w' <= 7)%Q.
Proof.
  assert (Hrange : (0 <= 1 <= 30)%Q) by (split; unfold Qle; simpl; lia).
  assert (Hfactor : (1 <= 2)%Q) by (unfold Qle; simpl; lia).
  assert (Hu : forall n : nat, 0 <= (fun _ : nat => 0) n <= 255) by (intros; lia).
  destruct (waits_follow_capped_exponential 3 1 2 30 default_retry_exceptions
              (fun _ => 0) "fetch" (always_raises (mkExn ReadTimeout "timed out" 0))
              Hrange Hfactor Hu [] ∅ initial_world
              (mkExn ReadTimeout "timed out" 0))
    as (w' & Hw & Hd & Hk1 & Hk2).
  - lia.
  - reflexivity.
  - intros w. exists w. repeat split; reflexivity.
  - vm_compute. reflexivity.
  - exists w'. split; [exact Hw|]. split; [exact Hd|].
    vm_compute in Hk1, Hk2. split; [exact Hk1|exact Hk2].
Defined.

(** ** The process supervisor *)

Lemma supervisor_run_shut_down cs : forall s log,
  is_shutting_down s = true ->
  snd (supervisor_run cs (s, log)) = log /\
  is_shutting_down (fst (supervisor_run cs (s, log))) = true.
Proof.
  unfold supervisor_run.
  induction cs as [|c cs IH]; intros s log Hs; [auto|].
  destruct c as [h|]; cbn [fold_left supervisor_step fst snd].
  - apply IH. exact Hs.
  - unfold initiate_shutdown. rewrite Hs. apply IH. exact Hs.
Qed.

Lemma supervisor_run_running cs : forall s log,
  is_shutting_down s = false ->
  snd (supervisor_run cs (s, log)) =
    (if existsb is_shutdown cs
     then log ++ cleanup_handlers s ++ registered_before_shutdown cs else log) /\
  is_shutting_down (fst (supervisor_run cs (s, log))) = existsb is_shutdown cs.
Proof.
  unfold supervisor_run.
  induction cs as [|c cs IH]; intros s log Hs; [auto|].
  destruct c as [h|];
    cbn [fold_left supervisor_step fst snd existsb is_shutdown
         registered_before_shutdown orb].
  - destruct (IH (register_cleanup_handler h s) log Hs) as [H1 H2].
    rewrite H1, H2. cbn [register_cleanup_handler cleanup_handlers].
    rewrite <- app_assoc. auto.
  - unfold initiate_shutdown. rewrite Hs, app_nil_r.
    apply (supervisor_run_shut_down cs (mkSupervisor true (cleanup_handlers s))).
    reflexivity.
Qed.

(** X28: However many termination signals and shutdown calls arrive, and
    whenever handlers are registered: the cleanup handlers run once, at the
    first shutdown, in the order they were registered; a handler registered
    after that never runs; and once a shutdown has been requested,
    [is_shutdown_requested] stays true. *)
Theorem shutdown_runs_handlers_once (cs more : list supervisor_call) :
  let st := supervisor_run cs (new_supervisor, []) in
  snd st = (if existsb is_shutdown cs then registered_before_shutdown cs else []) /\
  supervisor_shutdown_requested (fst st) = existsb is_shutdown cs /\
  (supervisor_shutdown_requested (fst st) = true ->
   supervisor_shutdown_requested (fst (supervisor_run more st)) = true /\
   snd (supervisor_run more st) = snd st).
Proof.
  cbv zeta.
  destruct (supervisor_run_running cs new_supervisor [] eq_refl) as [H1 H2].
  unfold supervisor_shutdown_requested.
  destruct (supervisor_run cs (new_supervisor, [])) as [s log] eqn:E.
  cbn [fst snd new_supervisor cleanup_handlers app] in *.
  split; [exact H1|]. split; [exact H2|].
  intros Hs.
  destruct (supervisor_run_shut_down more s log Hs) as [H3 H4].
  split; [exact H4|exact H3].
Qed.

(** ** The properties above, at work *)

(** Mode ["on_failure"], a browser result without an address: the
    crawler is not consulted. *)
Lemma firecrawl_called_only_on_fallback_witness :
  snd (extract_contacts "on_failure" selenium_sample firecrawl_sample
         "https://dealer.com") = ["selenium"%string].
Proof.
  pose proof (firecrawl_called_only_on_fallback "on_failure" selenium_sample
                firecrawl_sample "https://dealer.com") as H.
  cbv zeta in H. destruct H as [_ [_ H]]. apply H.
  exists (mkContacts ["sales@dealer.com"] ["2165551234"] None)%string.
  split; [reflexivity|]. split; discriminate.
Defined.

(** Five errors open the circuit. *)
Lemma circuit_open_iff_threshold_reached_witness :
  circuit_open (tracker_run five_errors new_tracker) !! "a.example"%string = Some true.
Proof.
  pose proof (circuit_open_iff_threshold_reached five_errors "a.example") as H.
  cbv zeta in H. destruct H as [[_ H] _]. apply H.
  vm_compute. discriminate.
Defined.

Lemma reset_circuit_creates_no_entry_witness :
  dom (error_counts (reset_circuit "b.example" (tracker_run five_errors new_tracker)))
  = dom (error_counts (tracker_run five_errors new_tracker)) /\
  total_errors (reset_circuit "a.example" (tracker_run five_errors new_tracker))
    "a.example" = 0.
Proof.
  split.
  - apply (reset_circuit_creates_no_entry "b.example"
             (tracker_run five_errors new_tracker)).
  - apply (reset_circuit_creates_no_entry "a.example"
             (tracker_run five_errors new_tracker)).
Defined.

(** A cell of two blanks. *)
Lemma clean_url_normalises_witness :
  clean_url (Some "  "%string) = "https://"%string.
Proof.
  pose proof (clean_url_normalises (Some "  "%string)) as H.
  cbv zeta in H. destruct H as (_ & _ & H & _).
  apply (H "  "%string); reflexivity.
Defined.

Lemma process_batch_accounts_for_every_row_witness :
  exists results v' w',
    sample_process_batch [live_row; slow_row; down_row] new_verifier initial_world
      = Some (results, v', w') /\
    total_processed v' = Z.of_nat (length results) /\
    (length results + length (failed_dealerships v') = 3)%nat.
Proof.
  destruct (process_batch_accounts_for_every_row (fun _ => 0) sample_request
              sample_request sample_netloc sample_new_extractor sample_extract
              (fun w => w) one_letter_off never_shutdown
              [live_row; slow_row; down_row] new_verifier initial_world)
    as (results & failed & v' & w' & n & Hb & Hn & Hstop & Hperm & Hf & Ht & _).
  exists results, v', w'. split; [exact Hb|]. split; [exact Ht|].
  destruct Hstop as [->|Hs]; [|discriminate].
  apply Permutation_length in Hperm.
  rewrite length_app, !length_fmap in Hperm. rewrite Hf. simpl in *. lia.
Defined.

(** Two fragments for Pat Doe and one for Sam Roe. *)
Lemma deduplicate_staff_names_are_unique_witness :
  NoDup (known_names
           (_deduplicate_staff [pat_from_card; name_and_inferred_title; sam_from_card])) /\
  (length (_deduplicate_staff [pat_from_card; name_and_inferred_title; sam_from_card])
   <= 3)%nat.
Proof.
  destruct (deduplicate_staff_names_are_unique
              [pat_from_card; name_and_inferred_title; sam_from_card])
    as (H1 & H2 & _).
  split; [exact H1|exact H2].
Defined.

Lemma filter_and_limit_keeps_the_best_witness :
  _filter_and_limit_staff [name_and_inferred_title; sam_from_card; pat_from_card]
  ≡ₚ _validate_staff_member <$>
       List.filter confident [name_and_inferred_title; sam_from_card; pat_from_card].
Proof.
  pose proof (filter_and_limit_keeps_the_best
                [name_and_inferred_title; sam_from_card; pat_from_card]) as H.
  cbv zeta in H. destruct H as (_ & _ & H). apply H.
  vm_compute. lia.
Defined.


(** A guard with a cleanup function: a resource is added, the block is
    left, a second resource is added and the guard is released again. *)
Lemma guard_cleans_up_once_witness :
  snd (guard_run true
         [Add_resource "driver-1"%string; Release;
          Add_resource "driver-2"%string; Release]
         (new_guard None, []))
  = [["driver-1"%string]].
Proof.
  pose proof (guard_cleans_up_once true None
                [Add_resource "driver-1"%string; Release;
                 Add_resource "driver-2"%string; Release]) as H.
  cbv zeta in H. destruct H as [H _]. exact H.
Defined.

Lemma validate_email_accepts_exactly_witness :
  _validate_email "pat.doe@dealer.com" = true.
Proof.
  destruct (validate_email_accepts_exactly "pat.doe@dealer.com") as [[_ H] _].
  apply H. split.
  - repeat constructor.
  - exists "pat.doe"%string, "dealer"%string, "com"%string, EmptyString.
    split; [reflexivity|]. split; [discriminate|]. split; [reflexivity|].
    split; [discriminate|]. split; [reflexivity|].
    split; [simpl; lia|]. split; [reflexivity|]. left. reflexivity.
Defined.

(** Two signals, and a handler that comes too late. *)
Lemma shutdown_runs_handlers_once_witness :
  snd (supervisor_run
         [Register_cleanup_handler "save_progress"; Initiate_shutdown;
          Register_cleanup_handler "late"; Initiate_shutdown]%string
         (new_supervisor, []))
  = ["save_progress"%string].
Proof.
  pose proof (shutdown_runs_handlers_once
                [Register_cleanup_handler "save_progress"; Initiate_shutdown;
                 Register_cleanup_handler "late"; Initiate_shutdown]%string []) as H.
  cbv zeta in H. destruct H as [H _]. exact H.
Defined.
